(** * Strawberry: the room engine of [client/src/gameLogic.tsx]

    A shallow embedding of the pure transition functions of the room state
    machine (setup, hinting / resolving loop, endgame) together with the
    properties of the engine that its specification states.

    Conventions of the embedding.
    - A JavaScript [number] that the engine uses as a counter, an index or a
      player / dummy number is an integer [Z]; array reads at a [Z] index go
      through [lookupZ], which is [None] (JavaScript's [undefined]) outside
      the array, also for negative indexes.
    - A thrown exception is a value of [Error] carried by [Result]; reading a
      property of [undefined] is [TypeError].
    - [Math.random] is an explicit random source [Rng] threaded through the
      functions that draw from it (the monad [M]).
    - [Set<number>] is [gset Z], the [Record<PlayerNumber, Hint>] object is
      [gmap Z Hint]. *)

From Stdlib Require Import ZArith Ascii String List Lia Permutation.
From stdpp Require Import base decidable option numbers list list_numbers
  gmap strings.

Local Open Scope Z_scope.

(** ** Errors and the random source *)

Inductive Error : Type :=
| IllegalHint            (* new Error("illegal hint") *)
| RoomNotReady           (* new Error("Room is not ready") *)
| WrongNumberOfPlayers   (* new Error("wrong number of players") *)
| PlayerNotInRoom        (* new Error("player not in room") *)
| InvalidLetters         (* class InvalidLetters extends Error *)
| TypeError.             (* property read on undefined *)

Inductive Result (A : Type) : Type :=
| Ok (a : A)
| Err (e : Error).
Arguments Ok {A} a.
Arguments Err {A} e.

(** The sequence of values that successive calls of
    [Math.floor(Math.random() * n)] produce, before reduction into [0, n). *)
Definition Rng : Type := nat -> nat.

Definition rngHead (g : Rng) : nat := g O.
Definition rngTail (g : Rng) : Rng := fun i => g (S i).

(** Computations that may throw and may draw from the random source. *)
Definition M (A : Type) : Type := Rng -> Result (A * Rng).

Definition ret {A} (a : A) : M A := fun g => Ok (a, g).
Definition throw {A} (e : Error) : M A := fun _ => Err e.
Definition bind {A B} (m : M A) (k : A -> M B) : M B :=
  fun g => match m g with
           | Ok (a, g') => k a g'
           | Err e => Err e
           end.
Definition liftR {A} (r : Result A) : M A :=
  fun g => match r with Ok a => Ok (a, g) | Err e => Err e end.

Notation "'do' x <- m ; k" := (bind m (fun x => k))
  (at level 10, x name, m at level 100, k at level 200).
Notation "'check' m ; k" := (bind m (fun _ => k))
  (at level 10, m at level 100, k at level 200).

(** ** JavaScript array helpers *)

(** [arr[i]] *)
Definition lookupZ {A} (l : list A) (i : Z) : option A :=
  if decide (0 <= i) then l !! Z.to_nat i else None.

(** [arr.slice(0, n)]: a negative [n] counts from the end of the array. *)
Definition slice0 {A} (l : list A) (n : Z) : list A :=
  if decide (0 <= n) then take (Z.to_nat n) l
  else take (length l - Z.to_nat (- n))%nat l.

(** [arr.findIndex(p)], also [arr.indexOf(x)] with [p] the test [=== x]:
    the first index whose element passes, [-1] when there is none. *)
Fixpoint findIndexFrom {A} (p : A -> bool) (i : Z) (l : list A) : Z :=
  match l with
  | [] => -1
  | x :: l' => if p x then i else findIndexFrom p (i + 1) l'
  end.
Definition findIndex {A} (p : A -> bool) (l : list A) : Z :=
  findIndexFrom p 0 l.

(** [arr.filter((x, index) => keep(index))] *)
Fixpoint filterIndexFrom {A} (keep : Z -> bool) (i : Z) (l : list A) : list A :=
  match l with
  | [] => []
  | x :: l' =>
      if keep i then x :: filterIndexFrom keep (i + 1) l'
      else filterIndexFrom keep (i + 1) l'
  end.

(** [arr.splice(ix, 1)] for an index [ix] inside the array. *)
Definition splice1 {A} (ix : Z) (l : list A) : list A :=
  take (Z.to_nat ix) l ++ drop (S (Z.to_nat ix)) l.

(** ** Data model *)

(** Modelled from the spec: the type declarations of [./gameTypes] and
    [./gameState] are not part of the sources at hand; the records below
    follow section 3 of the specification and the fields that
    [gameLogic.tsx] reads and writes. *)
Definition Letter : Type := ascii.

(** no J, Q, V, X, Z *)
Definition LETTERS : list Letter :=
  ["A"; "B"; "C"; "D"; "E"; "F"; "G"; "H"; "I"; "K"; "L"; "M"; "N"; "O";
   "P"; "R"; "S"; "T"; "U"; "W"; "Y"]%char.

Definition MIN_PLAYERS : Z := 2.
Definition MAX_PLAYERS : Z := 6.
Definition STARTING_HINTS : Z := 11.

(** A sourced letter of a hint, tagged by [sourceType]. *)
Inductive LetterAndSource : Type :=
| SrcPlayer (letter : Letter) (playerNumber : Z)
| SrcWildcard
| SrcDummy (letter : Letter) (dummyNumber : Z)
| SrcBonus (letter : Letter).

Record Hint : Type := mkHint {
  givenByPlayer : Z;
  lettersAndSources : list LetterAndSource;
}.

Inductive ResolveActionKind : Type :=
| NONE
| FLIP
| GUESS (guess actual : Letter).

Record ResolveAction : Type := mkAction {
  player : Z;
  kind : ResolveActionKind;
}.

Record Hand : Type := mkHand {
  letters : list Letter;
  guesses : list (option Letter);
  activeIndex : Z;
}.

Record Dummy : Type := mkDummy {
  currentLetter : Letter;
  untilFreeHint : Z;
}.

Record StartingPlayer : Type := mkStartingPlayer {
  sname : string;
  word : option string;
}.

Record StartingPhase : Type := mkStartingPhase {
  swordLength : Z;
  splayers : list StartingPlayer;
}.

Record Player : Type := mkPlayer {
  name : string;
  hand : Hand;
  hintsGiven : Z;
}.

Record LogEntry : Type := mkLogEntry {
  logHint : Hint;
  totalHints : Z;
  logActiveIndexes : list Z;
  logPlayerActions : list ResolveAction;
}.

Record ProposingHint : Type := mkProposing {
  proposedHints : gmap Z Hint;
}.

Record ResolvingHint : Type := mkResolving {
  hint : Hint;
  playerActions : list ResolveAction;
  activeIndexes : list Z;
}.

(** The union [ProposingHint | ResolvingHint], tagged by [state]. *)
Inductive ActiveHint : Type :=
| PROPOSING (p : ProposingHint)
| RESOLVING (r : ResolvingHint).

(** A started room in the hinting phase, parameterised by the type of its
    [activeHint] as the TypeScript types are: [ProposingHintPhase],
    [ResolvingHintPhase] and their union [HintingPhase]. *)
Record StartedPhase (H : Type) : Type := mkStarted {
  wordLength : Z;
  players : list Player;
  dummies : list Dummy;
  bonuses : list Letter;
  hintsRemaining : Z;
  hintLog : list LogEntry;
  activeHint : H;
}.
Arguments mkStarted {H}.
Arguments wordLength {H}.
Arguments players {H}.
Arguments dummies {H}.
Arguments bonuses {H}.
Arguments hintsRemaining {H}.
Arguments hintLog {H}.
Arguments activeHint {H}.

Definition ProposingHintPhase : Type := StartedPhase ProposingHint.
Definition ResolvingHintPhase : Type := StartedPhase ResolvingHint.
Definition HintingPhase : Type := StartedPhase ActiveHint.

(** [{...room, activeHint}] *)
Definition withActiveHint {H H'} (room : StartedPhase H) (a : H')
  : StartedPhase H' :=
  mkStarted (wordLength room) (players room) (dummies room) (bonuses room)
            (hintsRemaining room) (hintLog room) a.

(** The inclusions of the two phases into [HintingPhase]. *)
Definition proposingRoom (room : ProposingHintPhase) : HintingPhase :=
  withActiveHint room (PROPOSING (activeHint room)).
Definition resolvingRoom (room : ResolvingHintPhase) : HintingPhase :=
  withActiveHint room (RESOLVING (activeHint room)).

Inductive EndgameLetterChoice : Type :=
| ChoicePlayer (index : Z)
| ChoiceWildcard
| ChoiceBonus (letter : Letter).

Record EndgamePlayer : Type := mkEndgamePlayer {
  ename : string;
  ehand : Hand;
  ehintsGiven : Z;
  guess : list EndgameLetterChoice;
  committed : bool;
}.

Record EndgamePhase : Type := mkEndgame {
  ewordLength : Z;
  edummies : list Dummy;
  ebonuses : list Letter;
  ehintLog : list LogEntry;
  ehintsRemaining : Z;
  eplayers : list EndgamePlayer;
}.

#[global] Instance Letter_eq_dec : EqDecision Letter := ascii_dec.
#[global] Instance EndgameLetterChoice_eq_dec : EqDecision EndgameLetterChoice.
Proof. solve_decision. Defined.

(** ** The engine *)

Definition bindR {A B} (r : Result A) (k : A -> Result B) : Result B :=
  match r with Ok a => k a | Err e => Err e end.

(** [LETTERS[Math.floor(Math.random() * LETTERS.length)]] *)
Definition drawLetter (g : Rng) : Letter :=
  nth (rngHead g mod length LETTERS)%nat LETTERS "A"%char.
Definition randomLetter : M Letter :=
  fun g => Ok (drawLetter g, rngTail g).

(** [arr.map((x, index) => f(index, x))] for a callback that may throw or
    draw random letters; the elements are visited in index order. *)
Fixpoint mapMFrom {A B} (f : Z -> A -> M B) (i : Z) (l : list A) : M (list B) :=
  match l with
  | [] => ret []
  | x :: l' =>
      do y <- f i x;
      do ys <- mapMFrom f (i + 1) l';
      ret (y :: ys)
  end.

Definition isRoomReady (room : StartingPhase) : bool :=
  forallb (fun p => match word p with Some _ => true | None => false end)
          (splayers room)
  && bool_decide (MIN_PLAYERS <= Z.of_nat (length (splayers room)))
  && bool_decide (Z.of_nat (length (splayers room)) <= MAX_PLAYERS).

Definition dummyLettersForFreeHint (playerCount : Z) : Result (list Z) :=
  match playerCount with
  | 2 => Ok [7; 8; 9; 10]
  | 3 => Ok [7; 8; 9]
  | 4 => Ok [7; 8]
  | 5 => Ok [7]
  | 6 => Ok []
  | _ => Err WrongNumberOfPlayers
  end.

Definition newStartingPhase (firstPlayerName : string) (wordLength : Z)
  : StartingPhase :=
  mkStartingPhase wordLength [mkStartingPlayer firstPlayerName None].

Definition addPlayerToRoom (room : StartingPhase) (playerName : string)
  : StartingPhase :=
  mkStartingPhase (swordLength room)
                  (splayers room ++ [mkStartingPlayer playerName None]).

Definition setPlayerWord (room : StartingPhase) (playerName : string)
  (w : option string) : StartingPhase :=
  mkStartingPhase (swordLength room)
    (map (fun p => if decide (sname p = playerName)
                   then mkStartingPlayer playerName w else p)
         (splayers room)).

Definition removePlayerFromRoom (room : StartingPhase) (playerName : string)
  : StartingPhase :=
  mkStartingPhase (swordLength room)
    (filter (fun p => sname p <> playerName) (splayers room)).

(** The 1-based position of the first player of that name, [null] when
    there is none. *)
Fixpoint getPlayerNumberFrom (i : Z) (ps : list Player) (playerName : string)
  : option Z :=
  match ps with
  | [] => None
  | p :: ps' =>
      if decide (name p = playerName) then Some (i + 1)
      else getPlayerNumberFrom (i + 1) ps' playerName
  end.
Definition getPlayerNumber {H} (room : StartedPhase H) (playerName : string)
  : option Z :=
  getPlayerNumberFrom 0 (players room) playerName.

Definition setProposedHint (room : ProposingHintPhase) (playerName : string)
  (h : option Hint) : Result ProposingHintPhase :=
  match getPlayerNumber room playerName with
  | None => Err PlayerNotInRoom
  | Some playerNumber =>
      Ok (withActiveHint room
            (mkProposing
               match h with
               | None => delete playerNumber (proposedHints (activeHint room))
               | Some h' =>
                   <[playerNumber := h']> (proposedHints (activeHint room))
               end))
  end.

(** The set of players named by the hint's player-sourced letters, minus
    those that have an action recorded. *)
Definition playersWithOutstandingAction (activeHint : ResolvingHint) : gset Z :=
  let playerNumbers :=
    foldl (fun (s : gset Z) l =>
             match l with
             | SrcPlayer _ playerNumber => {[playerNumber]} ∪ s
             | _ => s
             end) ∅ (lettersAndSources (hint activeHint)) in
  foldl (fun (s : gset Z) action => s ∖ {[player action]})
        playerNumbers (playerActions activeHint).

(** One turn of the loop of [giveHint] that checks that the letters used in
    the hint actually exist. *)
Definition checkLetterAndSource {H} (room : StartedPhase H)
  (letterAndSource : LetterAndSource) : Result unit :=
  match letterAndSource with
  | SrcBonus letter =>
      if bool_decide (letter ∈ bonuses room) then Ok tt else Err IllegalHint
  | SrcDummy letter dummyNumber =>
      match lookupZ (dummies room) (dummyNumber - 1) with
      | None => Err TypeError
      | Some dummy =>
          if decide (currentLetter dummy = letter) then Ok tt
          else Err IllegalHint
      end
  | SrcPlayer letter playerNumber =>
      match lookupZ (players room) (playerNumber - 1) with
      | None => Err TypeError
      | Some player =>
          if decide (lookupZ (letters (hand player))
                             (activeIndex (hand player)) = Some letter)
          then Ok tt else Err IllegalHint
      end
  | SrcWildcard => Ok tt
  end.

(** The whole loop: the first failing letter throws. *)
Fixpoint checkHint {H} (room : StartedPhase H) (ls : list LetterAndSource)
  : Result unit :=
  match ls with
  | [] => Ok tt
  | l :: ls' => bindR (checkLetterAndSource room l) (fun _ => checkHint room ls')
  end.

(** The cards used up by a hint: 0-based positions of the dummies and of
    the first matching bonus letters. *)
Definition dummiesUsed (h : Hint) : gset Z :=
  foldl (fun (s : gset Z) l =>
           match l with
           | SrcDummy _ dummyNumber => {[dummyNumber - 1]} ∪ s
           | _ => s
           end) ∅ (lettersAndSources h).

Definition bonusesUsed (pool : list Letter) (h : Hint) : gset Z :=
  foldl (fun (s : gset Z) l =>
           match l with
           | SrcBonus letter =>
               {[findIndex (fun bonus => bool_decide (bonus = letter)) pool]} ∪ s
           | _ => s
           end) ∅ (lettersAndSources h).

(** [room.dummies.map((dummy, index) => ...)] of [fullyResolveHint], with
    the running [hintsRemaining] it updates on the way. *)
Fixpoint resolveDummies (used : gset Z) (index : Z) (ds : list Dummy)
  (hintsRemaining : Z) : M (list Dummy * Z) :=
  match ds with
  | [] => ret ([], hintsRemaining)
  | dummy :: ds' =>
      if bool_decide (index ∈ used) then
        let hintsRemaining' :=
          if decide (untilFreeHint dummy = 1) then hintsRemaining + 1
          else hintsRemaining in
        do letter <- randomLetter;
        do rest <- resolveDummies used (index + 1) ds' hintsRemaining';
        ret (mkDummy letter (untilFreeHint dummy - 1) :: fst rest, snd rest)
      else
        do rest <- resolveDummies used (index + 1) ds' hintsRemaining;
        ret (dummy :: fst rest, snd rest)
  end.

Definition fullyResolveHint (room : ResolvingHintPhase) : M ProposingHintPhase :=
  let logEntry :=
    mkLogEntry (hint (activeHint room))
               (Z.of_nat (length (hintLog room)) + hintsRemaining room)
               (activeIndexes (activeHint room))
               (playerActions (activeHint room)) in
  let used := bonusesUsed (bonuses room) (hint (activeHint room)) in
  do ds <- resolveDummies (dummiesUsed (hint (activeHint room))) 0
                          (dummies room) (hintsRemaining room - 1);
  ret (mkStarted (wordLength room) (players room) (fst ds)
         (filterIndexFrom (fun index => negb (bool_decide (index ∈ used))) 0
                          (bonuses room))
         (snd ds)
         (hintLog room ++ [logEntry])
         (mkProposing ∅)).

Definition applyResolution (room : ResolvingHintPhase) (action : ResolveAction)
  : M ResolvingHintPhase :=
  match kind action with
  | NONE => ret room
  | FLIP =>
      match lookupZ (players room) (player action - 1) with
      | None => throw TypeError
      | Some p =>
          do letters' <-
            (if decide (activeIndex (hand p) = wordLength room - 1)
             then do l <- randomLetter; ret (letters (hand p) ++ [l])
             else ret (letters (hand p)));
          let p' := mkPlayer (name p)
                      (mkHand letters' (guesses (hand p))
                              (activeIndex (hand p) + 1))
                      (hintsGiven p) in
          ret (mkStarted (wordLength room)
                 (<[Z.to_nat (player action - 1) := p']> (players room))
                 (dummies room) (bonuses room) (hintsRemaining room)
                 (hintLog room) (activeHint room))
      end
  | GUESS guess actual =>
      let bonuses' :=
        if decide (guess = actual) then bonuses room ++ [guess]
        else bonuses room in
      match lookupZ (players room) (player action - 1) with
      | None => throw TypeError
      | Some p =>
          do l <- randomLetter;
          let p' := mkPlayer (name p)
                      (mkHand (slice0 (letters (hand p)) (wordLength room) ++ [l])
                              (guesses (hand p)) (activeIndex (hand p)))
                      (hintsGiven p) in
          ret (mkStarted (wordLength room)
                 (<[Z.to_nat (player action - 1) := p']> (players room))
                 (dummies room) bonuses' (hintsRemaining room)
                 (hintLog room) (activeHint room))
      end
  end.

Definition performResolveAction (room : ResolvingHintPhase)
  (action : ResolveAction) : M HintingPhase :=
  let newRoom : ResolvingHintPhase :=
    withActiveHint room
      (mkResolving (hint (activeHint room))
                   (playerActions (activeHint room) ++ [action])
                   (activeIndexes (activeHint room))) in
  do newRoom' <- applyResolution newRoom action;
  if bool_decide (size (playersWithOutstandingAction (activeHint newRoom')) = 0%nat)
  then do r <- fullyResolveHint newRoom'; ret (proposingRoom r)
  else ret (resolvingRoom newRoom').

Definition moveToEndgame (room : HintingPhase) : EndgamePhase :=
  mkEndgame (wordLength room) (dummies room) (bonuses room) (hintLog room) 0
    (map (fun p =>
            mkEndgamePlayer (name p)
              (mkHand (slice0 (letters (hand p)) (wordLength room))
                      (guesses (hand p))
                      (wordLength room))
              (hintsGiven p) [] false)
         (players room)).

(** First loop of [availableLetters]: the player's own hand positions. *)
Fixpoint ownLettersUsed (gs : list EndgameLetterChoice) (used : gset Z)
  : Result (gset Z) :=
  match gs with
  | [] => Ok used
  | ChoicePlayer index :: gs' =>
      if bool_decide (index ∈ used) then Err InvalidLetters
      else ownLettersUsed gs' ({[index]} ∪ used)
  | _ :: gs' => ownLettersUsed gs' used
  end.

(** Second loop: the wildcard and the bonus letters claimed by anybody;
    the state is [wildcardAvailable] and the remaining [bonuses]. *)
Fixpoint claimGuesses (gs : list EndgameLetterChoice) (st : bool * list Letter)
  : Result (bool * list Letter) :=
  match gs with
  | [] => Ok st
  | ChoiceWildcard :: gs' =>
      if fst st then claimGuesses gs' (false, snd st) else Err InvalidLetters
  | ChoiceBonus letter :: gs' =>
      let ix := findIndex (fun bonus => bool_decide (bonus = letter)) (snd st) in
      if decide (ix < 0) then Err InvalidLetters
      else claimGuesses gs' (fst st, splice1 ix (snd st))
  | ChoicePlayer _ :: gs' => claimGuesses gs' st
  end.

Fixpoint claimPlayers (ps : list EndgamePlayer) (st : bool * list Letter)
  : Result (bool * list Letter) :=
  match ps with
  | [] => Ok st
  | otherPlayer :: ps' =>
      bindR (claimGuesses (guess otherPlayer) st) (claimPlayers ps')
  end.

Definition availableLetters (room : EndgamePhase) (playerNumber : Z)
  : Result (list EndgameLetterChoice) :=
  match lookupZ (eplayers room) (playerNumber - 1) with
  | None => Err TypeError
  | Some p =>
      bindR (ownLettersUsed (guess p) ∅) (fun usedOwnLetters =>
      bindR (claimPlayers (eplayers room) (true, ebonuses room)) (fun st =>
      Ok (map ChoicePlayer
              (filter (fun i => i ∉ usedOwnLetters) (seqZ 0 (ewordLength room)))
          ++ (if fst st then [ChoiceWildcard] else [])
          ++ map ChoiceBonus (snd st))))
  end.

Section Engine.

(** The helpers [mapNth] and [shuffle] come from [./utils], which is not
    part of the sources at hand; they are parameters of the engine.
    [mapNth arr n f] is constrained only at an index inside the array,
    where it replaces the element by its image under [f]: what it does
    elsewhere is not fixed by its uses, and the results below that need
    its value take the index inside the array.  [shuffle] returns the
    letters of its word in some order (section 4.2 of the specification:
    the word, shuffled randomly). *)
Variable mapNth : forall A : Type, list A -> Z -> (A -> A) -> list A.
Variable shuffle : string -> M (list Letter).

Hypothesis mapNth_in_range :
  forall (A : Type) (l : list A) (n : Z) (f : A -> A) (x : A),
    lookupZ l n = Some x -> mapNth A l n f = <[Z.to_nat n := f x]> l.

Hypothesis shuffle_permutes :
  forall (w : string) (g : Rng),
    exists ls g', shuffle w g = Ok (ls, g')
                  /\ Permutation ls (list_ascii_of_string w).

(** The callback of [room.players.map] in [startGameRoom]. *)
Definition dealHand (room : StartingPhase) (index : Z)
  (player : StartingPlayer) : M Player :=
  let n := Z.of_nat (length (splayers room)) in
  match lookupZ (splayers room) (Z.rem (index + n - 1) n) with
  | None => throw TypeError
  | Some previous =>
      match word previous with
      | None => throw RoomNotReady
      | Some w =>
          do ls <- shuffle w;
          ret (mkPlayer (sname player)
                 (mkHand ls (map (fun _ => None) (list_ascii_of_string w)) 0)
                 0)
      end
  end.

Definition startGameRoom (room : StartingPhase) : M HintingPhase :=
  do ps <- mapMFrom (dealHand room) 0 (splayers room);
  do countdowns <-
    liftR (dummyLettersForFreeHint (Z.of_nat (length (splayers room))));
  do ds <- mapMFrom (fun _ untilFreeHint =>
                       do l <- randomLetter; ret (mkDummy l untilFreeHint))
                    0 countdowns;
  ret (mkStarted (swordLength room) ps ds [] STARTING_HINTS []
                 (PROPOSING (mkProposing ∅))).

Definition giveHint (room : ProposingHintPhase) (h : Hint) : M HintingPhase :=
  check liftR (checkHint room (lettersAndSources h));
  let newRoom : ResolvingHintPhase :=
    mkStarted (wordLength room)
      (mapNth Player (players room) (givenByPlayer h - 1)
              (fun p => mkPlayer (name p) (hand p) (hintsGiven p + 1)))
      (dummies room) (bonuses room) (hintsRemaining room) (hintLog room)
      (mkResolving h [] (map (fun p => activeIndex (hand p)) (players room))) in
  if bool_decide (size (playersWithOutstandingAction (activeHint newRoom)) = 0%nat)
  then do r <- fullyResolveHint newRoom; ret (proposingRoom r)
  else ret (resolvingRoom newRoom).

(** [null] is the rejected candidate; another exception is rethrown. *)
Definition setFinalGuess (room : EndgamePhase) (playerNumber : Z)
  (g : list EndgameLetterChoice) : Result (option EndgamePhase) :=
  let newRoom :=
    mkEndgame (ewordLength room) (edummies room) (ebonuses room)
      (ehintLog room) (ehintsRemaining room)
      (mapNth EndgamePlayer (eplayers room) (playerNumber - 1)
              (fun p => mkEndgamePlayer (ename p) (ehand p) (ehintsGiven p)
                                        g (committed p))) in
  match availableLetters newRoom playerNumber with
  | Ok _ => Ok (Some newRoom)
  | Err InvalidLetters => Ok None
  | Err e => Err e
  end.

(** ** Properties stated by the specification *)

(** The source that a letter of a hint names is there: a dummy or a
    player of that number exists in the room. *)
Definition sourceExists {H} (room : StartedPhase H) (l : LetterAndSource)
  : Prop :=
  match l with
  | SrcDummy _ dummyNumber =>
      is_Some (lookupZ (dummies room) (dummyNumber - 1))
  | SrcPlayer _ playerNumber =>
      is_Some (lookupZ (players room) (playerNumber - 1))
  | SrcBonus _ | SrcWildcard => True
  end.

(** The letter does not match its source. *)
Definition mismatched {H} (room : StartedPhase H) (l : LetterAndSource)
  : Prop :=
  match l with
  | SrcBonus letter => letter ∉ bonuses room
  | SrcDummy letter dummyNumber =>
      exists dummy, lookupZ (dummies room) (dummyNumber - 1) = Some dummy
                    /\ currentLetter dummy <> letter
  | SrcPlayer letter playerNumber =>
      exists p, lookupZ (players room) (playerNumber - 1) = Some p
                /\ lookupZ (letters (hand p)) (activeIndex (hand p))
                   <> Some letter
  | SrcWildcard => False
  end.

Lemma checkLetterAndSource_mismatched {H} (room : StartedPhase H) l :
  mismatched room l -> checkLetterAndSource room l = Err IllegalHint.
Proof.
  destruct l as [letter n| |letter n|letter]; simpl.
  - intros (p & -> & Hne). destruct (decide _); [contradiction | reflexivity].
  - intros [].
  - intros (d & -> & Hne). destruct (decide _); [contradiction | reflexivity].
  - intros Hnot. rewrite bool_decide_eq_false_2 by assumption. reflexivity.
Qed.

Lemma checkLetterAndSource_exists {H} (room : StartedPhase H) l :
  sourceExists room l ->
  checkLetterAndSource room l = Ok tt
  \/ checkLetterAndSource room l = Err IllegalHint.
Proof.
  destruct l as [letter n| |letter n|letter]; simpl.
  - intros [p ->]. destruct (decide _); auto.
  - auto.
  - intros [d ->]. destruct (decide _); auto.
  - intros _. destruct (bool_decide _); auto.
Qed.

Lemma checkHint_first_mismatch {H} (room : StartedPhase H) pre l post :
  Forall (sourceExists room) pre -> mismatched room l ->
  checkHint room (pre ++ l :: post) = Err IllegalHint.
Proof.
  intros Hpre Hl. induction Hpre as [|x pre Hx _ IH]; simpl.
  - rewrite checkLetterAndSource_mismatched by assumption. reflexivity.
  - destruct (checkLetterAndSource_exists room x Hx) as [-> | ->];
      simpl; auto.
Qed.

Lemma checkHint_some_mismatch {H} (room : StartedPhase H) ls :
  Exists (mismatched room) ls -> exists e, checkHint room ls = Err e.
Proof.
  induction 1 as [l ls Hl | l ls _ IH]; simpl.
  - rewrite checkLetterAndSource_mismatched by assumption. eauto.
  - destruct (checkLetterAndSource room l) as [[]|e]; simpl; eauto.
Qed.

Lemma giveHint_check_fails room h g e :
  checkHint room (lettersAndSources h) = Err e -> giveHint room h g = Err e.
Proof. intros He. unfold giveHint, bind, liftR. rewrite He. reflexivity. Qed.

(** *** The players that still have to act *)

Definition hintPlayers (ls : list LetterAndSource) (s : gset Z) : gset Z :=
  foldl (fun (s : gset Z) l =>
           match l with
           | SrcPlayer _ playerNumber => {[playerNumber]} ∪ s
           | _ => s
           end) s ls.

Lemma elem_of_hintPlayers ls s n :
  n ∈ hintPlayers ls s
  <-> n ∈ s \/ exists letter, SrcPlayer letter n ∈ ls.
Proof.
  unfold hintPlayers. revert s.
  induction ls as [|l ls IH]; intros s; simpl.
  - split; [auto | intros [? | [letter Hin]]; [assumption | inversion Hin]].
  - rewrite IH. split.
    + intros [Hin | [letter Hin]].
      * destruct l as [letter m| | |]; auto.
        apply elem_of_union in Hin as [Hin | Hin]; auto.
        apply elem_of_singleton in Hin as ->.
        right. exists letter. left.
      * right. exists letter. right. assumption.
    + intros [Hin | [letter Hin]].
      * left. destruct l; auto. apply elem_of_union. auto.
      * apply elem_of_cons in Hin as [<- | Hin].
        -- left. apply elem_of_union. left. apply elem_of_singleton.
           reflexivity.
        -- right. eauto.
Qed.

Lemma elem_of_remove_actions (acts : list ResolveAction) (s : gset Z) n :
  n ∈ foldl (fun (s : gset Z) action => s ∖ {[player action]}) s acts
  <-> n ∈ s /\ forall a, a ∈ acts -> player a <> n.
Proof.
  revert s. induction acts as [|a acts IH]; intros s; simpl.
  - split; [intros ?; split; [assumption | intros a Ha; inversion Ha]
           | intros [? _]; assumption].
  - rewrite IH. split.
    + intros [Hin Hall]. apply elem_of_difference in Hin as [Hin Hne].
      split; [assumption |].
      intros a' Ha'. apply elem_of_cons in Ha' as [-> | Ha']; [| auto].
      intros Heq. apply Hne. apply elem_of_singleton. congruence.
    + intros [Hin Hall]. split.
      * apply elem_of_difference. split; [assumption |].
        intros Heq. apply elem_of_singleton in Heq.
        apply (Hall a); [left | congruence].
      * intros a' Ha'. apply Hall. right. assumption.
Qed.

(** A player is outstanding exactly when the hint cites one of its
    letters and no recorded action is its own: only the set of players
    that responded matters, not the order of the actions. *)
Lemma elem_of_playersWithOutstandingAction (ah : ResolvingHint) n :
  n ∈ playersWithOutstandingAction ah
  <-> (exists letter, SrcPlayer letter n ∈ lettersAndSources (hint ah))
      /\ forall a, a ∈ playerActions ah -> player a <> n.
Proof.
  unfold playersWithOutstandingAction.
  rewrite elem_of_remove_actions.
  fold (hintPlayers (lettersAndSources (hint ah)) ∅).
  rewrite elem_of_hintPlayers. split.
  - intros [[Hin | Hin] Hall]; [| auto].
    exfalso. exact (not_elem_of_empty n Hin).
  - intros [Hin Hall]. auto.
Qed.

Lemma outstanding_size_0 (ah : ResolvingHint) :
  size (playersWithOutstandingAction ah) = 0%nat
  <-> forall n letter, SrcPlayer letter n ∈ lettersAndSources (hint ah) ->
                       exists a, a ∈ playerActions ah /\ player a = n.
Proof.
  rewrite size_empty_iff. split.
  - intros Hempty n letter Hin.
    destruct (decide (n ∈ map player (playerActions ah))) as [Hn | Hn].
    + apply list_elem_of_In, in_map_iff in Hn as (a & Ha & Hin').
      exists a. split; [apply list_elem_of_In; assumption | assumption].
    + exfalso. apply (not_elem_of_empty (C:=gset Z) n), Hempty.
      apply elem_of_playersWithOutstandingAction. split; [eauto |].
      intros a Ha Heq. apply Hn. apply list_elem_of_In, in_map_iff.
      exists a. split; [assumption | apply list_elem_of_In; assumption].
  - intros Hall. apply elem_of_equiv_empty. intros n Hn.
    apply elem_of_playersWithOutstandingAction in Hn as [[letter Hin] Hno].
    destruct (Hall n letter Hin) as (a & Ha & Heq).
    exact (Hno a Ha Heq).
Qed.

(** *** Resolution completion *)

(** The number of free hints a resolution grants: the consumed dummies
    whose countdown stands at 1. *)
Fixpoint countFreeHints (used : gset Z) (index : Z) (ds : list Dummy) : Z :=
  match ds with
  | [] => 0
  | dummy :: ds' =>
      (if bool_decide (index ∈ used) && bool_decide (untilFreeHint dummy = 1)
       then 1 else 0)
      + countFreeHints used (index + 1) ds'
  end.

Lemma resolveDummies_spec (used : gset Z) (ds : list Dummy) :
  forall (index hr : Z) (g : Rng),
  exists ds' g',
    resolveDummies used index ds hr g
    = Ok ((ds', hr + countFreeHints used index ds), g')
    /\ length ds' = length ds
    /\ forall (k : nat) (d : Dummy), ds !! k = Some d ->
         (index + Z.of_nat k ∈ used ->
          exists gk, ds' !! k
                     = Some (mkDummy (drawLetter gk) (untilFreeHint d - 1)))
         /\ (index + Z.of_nat k ∉ used -> ds' !! k = Some d).
Proof.
  induction ds as [|dummy ds IH]; intros index hr g; simpl.
  - exists [], g. unfold ret. rewrite Z.add_0_r.
    split; [reflexivity | split; [reflexivity |]].
    intros k d Hk. inversion Hk.
  - destruct (bool_decide (index ∈ used)) eqn:Hused; simpl.
    + apply bool_decide_eq_true_1 in Hused.
      set (hr' := if decide (untilFreeHint dummy = 1) then hr + 1 else hr).
      destruct (IH (index + 1) hr' (rngTail g)) as (ds' & g' & Hrun & Hlen & Hat).
      exists (mkDummy (drawLetter g) (untilFreeHint dummy - 1) :: ds'), g'.
      split; [| split].
      * unfold bind, randomLetter, ret. rewrite Hrun. simpl.
        do 3 f_equal. subst hr'.
        destruct (decide (untilFreeHint dummy = 1)) as [H1 | H1].
        -- rewrite (bool_decide_eq_true_2 _ H1). lia.
        -- rewrite (bool_decide_eq_false_2 _ H1). lia.
      * simpl. rewrite Hlen. reflexivity.
      * intros [|k] d Hk; simpl in *.
        -- injection Hk as <-. rewrite Z.add_0_r. split; [eauto | tauto].
        -- replace (index + Z.of_nat (S k))
             with (index + 1 + Z.of_nat k) by lia.
           apply Hat, Hk.
    + apply bool_decide_eq_false_1 in Hused.
      destruct (IH (index + 1) hr g) as (ds' & g' & Hrun & Hlen & Hat).
      exists (dummy :: ds'), g'.
      split; [| split].
      * unfold bind, ret. rewrite Hrun. reflexivity.
      * simpl. rewrite Hlen. reflexivity.
      * intros [|k] d Hk; simpl in *.
        -- injection Hk as <-. rewrite Z.add_0_r. split; [tauto | auto].
        -- replace (index + Z.of_nat (S k))
             with (index + 1 + Z.of_nat k) by lia.
           apply Hat, Hk.
Qed.

Lemma countFreeHints_none (used : gset Z) (ds : list Dummy) :
  forall index,
    (forall (k : nat) d, ds !! k = Some d -> index + Z.of_nat k ∈ used ->
                         untilFreeHint d <> 1) ->
    countFreeHints used index ds = 0.
Proof.
  induction ds as [|dummy ds IH]; intros index Hall; simpl; [reflexivity |].
  rewrite IH.
  - destruct (bool_decide (index ∈ used)) eqn:Hused; simpl; [| reflexivity].
    apply bool_decide_eq_true_1 in Hused.
    rewrite bool_decide_eq_false_2; [reflexivity |].
    apply (Hall 0%nat); [reflexivity |]. rewrite Z.add_0_r. assumption.
  - intros k d Hk Hin. apply (Hall (S k)); [exact Hk |].
    replace (index + Z.of_nat (S k)) with (index + 1 + Z.of_nat k) by lia.
    assumption.
Qed.

Lemma countFreeHints_one (used : gset Z) (ds : list Dummy) :
  forall index (k : nat) d,
    ds !! k = Some d -> index + Z.of_nat k ∈ used -> untilFreeHint d = 1 ->
    (forall (k' : nat) d', k' <> k -> ds !! k' = Some d' ->
                           index + Z.of_nat k' ∈ used ->
                           untilFreeHint d' <> 1) ->
    countFreeHints used index ds = 1.
Proof.
  induction ds as [|dummy ds IH]; intros index k d Hk Hin H1 Hothers;
    [inversion Hk |].
  destruct k as [|k]; simpl in *.
  - injection Hk as ->. rewrite Z.add_0_r in Hin.
    rewrite (bool_decide_eq_true_2 _ Hin), (bool_decide_eq_true_2 _ H1).
    simpl. rewrite countFreeHints_none; [reflexivity |].
    intros k' d' Hk' Hin'. apply (Hothers (S k')); [lia | exact Hk' |].
    replace (index + Z.of_nat (S k')) with (index + 1 + Z.of_nat k') by lia.
    assumption.
  - rewrite (IH (index + 1) k d Hk); [| | assumption |].
    + destruct (bool_decide (index ∈ used)) eqn:Hused; simpl; [| reflexivity].
      apply bool_decide_eq_true_1 in Hused.
      rewrite bool_decide_eq_false_2; [reflexivity |].
      apply (Hothers 0%nat); [lia | reflexivity |].
      rewrite Z.add_0_r. assumption.
    + replace (index + 1 + Z.of_nat k)
        with (index + Z.of_nat (S k)) by lia.
      assumption.
    + intros k' d' Hne Hk' Hin'. apply (Hothers (S k')); [lia | exact Hk' |].
      replace (index + Z.of_nat (S k')) with (index + 1 + Z.of_nat k') by lia.
      assumption.
Qed.

(** What [fullyResolveHint] returns, field by field. *)
Lemma fullyResolveHint_spec (room : ResolvingHintPhase) (g : Rng) :
  exists ds' g',
    fullyResolveHint room g
    = Ok (mkStarted (wordLength room) (players room) ds'
            (filterIndexFrom
               (fun index =>
                  negb (bool_decide
                          (index ∈ bonusesUsed (bonuses room)
                                               (hint (activeHint room)))))
               0 (bonuses room))
            (hintsRemaining room - 1
             + countFreeHints (dummiesUsed (hint (activeHint room))) 0
                              (dummies room))
            (hintLog room
             ++ [mkLogEntry (hint (activeHint room))
                   (Z.of_nat (length (hintLog room)) + hintsRemaining room)
                   (activeIndexes (activeHint room))
                   (playerActions (activeHint room))])
            (mkProposing ∅), g')
    /\ length ds' = length (dummies room)
    /\ forall (k : nat) (d : Dummy), dummies room !! k = Some d ->
         (Z.of_nat k ∈ dummiesUsed (hint (activeHint room)) ->
          exists gk, ds' !! k
                     = Some (mkDummy (drawLetter gk) (untilFreeHint d - 1)))
         /\ (Z.of_nat k ∉ dummiesUsed (hint (activeHint room)) ->
             ds' !! k = Some d).
Proof.
  destruct (resolveDummies_spec (dummiesUsed (hint (activeHint room)))
              (dummies room) 0 (hintsRemaining room - 1) g)
    as (ds' & g' & Hrun & Hlen & Hat).
  exists ds', g'. split; [| split; [exact Hlen | exact Hat]].
  unfold fullyResolveHint, bind, ret. rewrite Hrun. reflexivity.
Qed.

(** *** Resolve actions *)

Lemma lookupZ_Some {A} (l : list A) (i : Z) (x : A) :
  lookupZ l i = Some x <-> 0 <= i /\ l !! Z.to_nat i = Some x.
Proof.
  unfold lookupZ. destruct (decide (0 <= i)); split.
  - auto.
  - intros [_ Hx]. exact Hx.
  - discriminate.
  - intros [Hi _]. contradiction.
Qed.

Lemma lookupZ_is_Some {A} (l : list A) (i : Z) :
  is_Some (lookupZ l i) <-> 0 <= i < Z.of_nat (length l).
Proof.
  unfold lookupZ. destruct (decide (0 <= i)) as [Hi | Hi].
  - rewrite lookup_lt_is_Some. lia.
  - split; [intros [x Hx]; discriminate | lia].
Qed.

(** The hand after an action of kind [k], as section 4.4 of the
    specification words it; [l] is the letter drawn in the process. *)
Definition spec_handEffect (wordLength : Z) (k : ResolveActionKind)
  (h : Hand) (l : Letter) : Hand :=
  match k with
  | NONE => h
  | FLIP =>
      mkHand (if decide (activeIndex h = wordLength - 1)
              then letters h ++ [l] else letters h)
             (guesses h) (activeIndex h + 1)
  | GUESS _ _ =>
      mkHand (slice0 (letters h) wordLength ++ [l]) (guesses h)
             (activeIndex h)
  end.

Lemma applyResolution_spec (room : ResolvingHintPhase) (a : ResolveAction)
  (g : Rng) (p : Player) :
  lookupZ (players room) (player a - 1) = Some p ->
  exists r' g',
    applyResolution room a g = Ok (r', g')
    /\ players r'
       = <[Z.to_nat (player a - 1) :=
             mkPlayer (name p)
                      (spec_handEffect (wordLength room) (kind a) (hand p)
                                       (drawLetter g))
                      (hintsGiven p)]> (players room)
    /\ bonuses r'
       = match kind a with
         | GUESS gu ac =>
             if decide (gu = ac) then bonuses room ++ [gu] else bonuses room
         | _ => bonuses room
         end
    /\ activeHint r' = activeHint room
    /\ wordLength r' = wordLength room
    /\ dummies r' = dummies room
    /\ hintsRemaining r' = hintsRemaining room
    /\ hintLog r' = hintLog room.
Proof.
  intros Hp. unfold applyResolution. rewrite Hp.
  apply lookupZ_Some in Hp as [_ Hp].
  destruct (kind a) as [| |gu ac]; simpl.
  - exists room, g. split; [reflexivity |].
    split; [| repeat split].
    destruct p as [n h k]; simpl. symmetry. apply list_insert_id, Hp.
  - unfold bind, randomLetter, ret.
    destruct (decide (activeIndex (hand p) = wordLength room - 1));
      eexists _, _; (split; [reflexivity |]); simpl; repeat split.
  - unfold bind, randomLetter, ret.
    eexists _, _. split; [reflexivity |]. simpl. repeat split.
Qed.

(** The actions recorded for the hint under resolution, or for the hint
    just resolved, where they have moved to the last log entry. *)
Definition recordedActions (room : HintingPhase) : list ResolveAction :=
  match activeHint room with
  | RESOLVING r => playerActions r
  | PROPOSING _ =>
      match last (hintLog room) with
      | Some entry => logPlayerActions entry
      | None => []
      end
  end.

Lemma performResolveAction_spec (room : ResolvingHintPhase)
  (a : ResolveAction) (g : Rng) (p : Player) :
  lookupZ (players room) (player a - 1) = Some p ->
  exists r1 g1,
    applyResolution
      (withActiveHint room
         (mkResolving (hint (activeHint room))
                      (playerActions (activeHint room) ++ [a])
                      (activeIndexes (activeHint room)))) a g
    = Ok (r1, g1)
    /\ activeHint r1
       = mkResolving (hint (activeHint room))
                     (playerActions (activeHint room) ++ [a])
                     (activeIndexes (activeHint room))
    /\ players r1
       = <[Z.to_nat (player a - 1) :=
             mkPlayer (name p)
                      (spec_handEffect (wordLength room) (kind a) (hand p)
                                       (drawLetter g))
                      (hintsGiven p)]> (players room)
    /\ wordLength r1 = wordLength room
    /\ dummies r1 = dummies room
    /\ hintsRemaining r1 = hintsRemaining room
    /\ hintLog r1 = hintLog room
    /\ performResolveAction room a g
       = if bool_decide (size (playersWithOutstandingAction (activeHint r1))
                         = 0%nat)
         then match fullyResolveHint r1 g1 with
              | Ok (r, g') => Ok (proposingRoom r, g')
              | Err e => Err e
              end
         else Ok (resolvingRoom r1, g1).
Proof.
  intros Hp.
  destruct (applyResolution_spec
              (withActiveHint room
                 (mkResolving (hint (activeHint room))
                              (playerActions (activeHint room) ++ [a])
                              (activeIndexes (activeHint room)))) a g p Hp)
    as (r1 & g1 & Hrun & Hps & _ & Hah & Hwl & Hds & Hhr & Hlog).
  exists r1, g1. simpl in *.
  repeat (split; [assumption |]).
  unfold performResolveAction, bind. rewrite Hrun.
  destruct (bool_decide _); [| reflexivity].
  unfold ret. destruct (fullyResolveHint r1 g1) as [[r g']|e]; reflexivity.
Qed.

Lemma resolve_two_players_in_order (room : ResolvingHintPhase)
  (ax ay : ResolveAction) (x y : Z) (g : Rng) :
  (forall n, (exists letter,
                 SrcPlayer letter n
                 ∈ lettersAndSources (hint (activeHint room)))
             <-> n = x \/ n = y) ->
  (forall a, a ∈ playerActions (activeHint room) ->
             player a <> x /\ player a <> y) ->
  x <> y ->
  is_Some (lookupZ (players room) (x - 1)) ->
  is_Some (lookupZ (players room) (y - 1)) ->
  (forall (k : nat) d,
      dummies room !! k = Some d ->
      Z.of_nat k ∈ dummiesUsed (hint (activeHint room)) ->
      untilFreeHint d <> 1) ->
  player ax = x -> player ay = y ->
  exists r1 g1 r2 g2,
    performResolveAction room ax g = Ok (resolvingRoom r1, g1)
    /\ performResolveAction r1 ay g1 = Ok (r2, g2)
    /\ activeHint r2 = PROPOSING (mkProposing ∅)
    /\ hintsRemaining r2 = hintsRemaining room - 1.
Proof.
  intros Hset Hnone Hxy [px Hpx] Hy Hdummies Hax Hay.
  rewrite <- Hax in Hpx.
  destruct (performResolveAction_spec room ax g px Hpx)
    as (r1 & g1 & _ & Hah1 & Hps1 & Hwl1 & Hds1 & Hhr1 & Hlog1 & Hrun1).
  assert (Hpy : is_Some (lookupZ (players r1) (player ay - 1))).
  { rewrite Hay. apply lookupZ_is_Some. rewrite Hps1, length_insert.
    apply lookupZ_is_Some, Hy. }
  destruct Hpy as [py Hpy].
  destruct (performResolveAction_spec r1 ay g1 py Hpy)
    as (r2 & g2 & _ & Hah2 & Hps2 & Hwl2 & Hds2 & Hhr2 & Hlog2 & Hrun2).
  rewrite bool_decide_eq_false_2 in Hrun1.
  2:{ rewrite outstanding_size_0, Hah1. simpl. intros Hall.
      destruct (proj2 (Hset y) (or_intror eq_refl)) as [letter Hin].
      destruct (Hall y letter Hin) as (a & Ha & Heq).
      apply elem_of_app in Ha as [Ha | Ha].
      - apply (Hnone a Ha), Heq.
      - apply list_elem_of_singleton in Ha. subst a. congruence. }
  rewrite bool_decide_eq_true_2 in Hrun2.
  2:{ rewrite outstanding_size_0, Hah2, Hah1. simpl. intros n letter Hin.
      destruct (proj1 (Hset n) (ex_intro _ letter Hin)) as [-> | ->].
      - exists ax. split; [| assumption].
        apply elem_of_app. left. apply elem_of_app. right. left.
      - exists ay. split; [| assumption].
        apply elem_of_app. right. left. }
  destruct (fullyResolveHint_spec r2 g2) as (ds' & g' & Hfull & _ & _).
  rewrite Hfull in Hrun2.
  eexists r1, g1, _, g'. split; [exact Hrun1 |]. split; [exact Hrun2 |].
  simpl. split; [reflexivity |].
  rewrite Hhr2, Hhr1, Hds2, Hds1, Hah2, Hah1. simpl.
  rewrite countFreeHints_none; [lia |].
  intros k d Hk Hin. rewrite Z.add_0_l in Hin. eauto.
Qed.

(** C2.  With a hint whose player-sourced letters name exactly the
    players 1 and 2, none of whom has acted yet: after the action of
    player 1 alone the room is still resolving; after the action of
    player 2 as well the room is proposing again, with no proposed
    hints, and [hintsRemaining] is one less, no consumed dummy standing
    at a countdown of 1.  The same holds with player 2 acting first. *)
Theorem resolve_completion_two_players (room : ResolvingHintPhase)
  (a1 a2 : ResolveAction) (g : Rng) :
  (forall n, (exists letter,
                 SrcPlayer letter n
                 ∈ lettersAndSources (hint (activeHint room)))
             <-> n = 1 \/ n = 2) ->
  (forall a, a ∈ playerActions (activeHint room) ->
             player a <> 1 /\ player a <> 2) ->
  (2 <= length (players room))%nat ->
  (forall (k : nat) d,
      dummies room !! k = Some d ->
      Z.of_nat k ∈ dummiesUsed (hint (activeHint room)) ->
      untilFreeHint d <> 1) ->
  player a1 = 1 -> player a2 = 2 ->
  (exists r1 g1 r2 g2,
      performResolveAction room a1 g = Ok (resolvingRoom r1, g1)
      /\ performResolveAction r1 a2 g1 = Ok (r2, g2)
      /\ activeHint r2 = PROPOSING (mkProposing ∅)
      /\ hintsRemaining r2 = hintsRemaining room - 1)
  /\ (exists r1 g1 r2 g2,
         performResolveAction room a2 g = Ok (resolvingRoom r1, g1)
         /\ performResolveAction r1 a1 g1 = Ok (r2, g2)
         /\ activeHint r2 = PROPOSING (mkProposing ∅)
         /\ hintsRemaining r2 = hintsRemaining room - 1).
Proof.
  intros Hset Hnone Hlen Hdummies H1 H2.
  assert (Hp1 : is_Some (lookupZ (players room) (1 - 1)))
    by (apply lookupZ_is_Some; lia).
  assert (Hp2 : is_Some (lookupZ (players room) (2 - 1)))
    by (apply lookupZ_is_Some; lia).
  split.
  - apply (resolve_two_players_in_order room a1 a2 1 2); auto; lia.
  - apply (resolve_two_players_in_order room a2 a1 2 1); auto; try lia.
    + intros n. rewrite Hset. tauto.
    + intros a Ha. destruct (Hnone a Ha). auto.
Qed.

(** C10.  Any action that names a player of the room goes through, with
    no test of the active hint or of the actions already recorded: no
    error is raised, the action is appended to the recorded actions and
    the hand of the named player takes the effect of the flip or of the
    guess. *)
Theorem performResolveAction_unchecked (room : ResolvingHintPhase)
  (a : ResolveAction) (g : Rng) :
  1 <= player a <= Z.of_nat (length (players room)) ->
  exists p r' g',
    lookupZ (players room) (player a - 1) = Some p
    /\ performResolveAction room a g = Ok (r', g')
    /\ recordedActions r' = playerActions (activeHint room) ++ [a]
    /\ players r'
       = <[Z.to_nat (player a - 1) :=
             mkPlayer (name p)
                      (spec_handEffect (wordLength room) (kind a) (hand p)
                                       (drawLetter g))
                      (hintsGiven p)]> (players room).
Proof.
  intros Hrange.
  assert (Hp : is_Some (lookupZ (players room) (player a - 1)))
    by (apply lookupZ_is_Some; lia).
  destruct Hp as [p Hp].
  destruct (performResolveAction_spec room a g p Hp)
    as (r1 & g1 & _ & Hah1 & Hps1 & _ & _ & _ & _ & Hrun).
  exists p. destruct (bool_decide _).
  - destruct (fullyResolveHint_spec r1 g1) as (ds' & g' & Hfull & _ & _).
    rewrite Hfull in Hrun. eexists _, g'.
    split; [exact Hp |]. split; [exact Hrun |].
    unfold recordedActions. simpl. rewrite last_snoc, Hah1. simpl.
    split; [reflexivity | exact Hps1].
  - exists (resolvingRoom r1), g1.
    split; [exact Hp |]. split; [exact Hrun |].
    unfold recordedActions. simpl. rewrite Hah1. simpl.
    split; [reflexivity | exact Hps1].
Qed.

(** *** Dummies consumed by a hint *)

(** The hint cites the dummy at 0-based position [k], that is dummy
    number [k + 1]. *)
Definition dummyConsumed (h : Hint) (k : nat) : Prop :=
  exists letter, SrcDummy letter (Z.of_nat k + 1) ∈ lettersAndSources h.

Lemma elem_of_dummiesUsed_from (ls : list LetterAndSource) (s : gset Z) i :
  i ∈ foldl (fun (s : gset Z) l =>
               match l with
               | SrcDummy _ dummyNumber => {[dummyNumber - 1]} ∪ s
               | _ => s
               end) s ls
  <-> i ∈ s \/ exists letter, SrcDummy letter (i + 1) ∈ ls.
Proof.
  revert s. induction ls as [|l ls IH]; intros s; simpl.
  - split; [auto | intros [? | [letter Hin]]; [assumption | inversion Hin]].
  - rewrite IH. split.
    + intros [Hin | [letter Hin]].
      * destruct l as [| |letter m|]; auto.
        apply elem_of_union in Hin as [Hin | Hin]; auto.
        apply elem_of_singleton in Hin as ->.
        right. exists letter. replace (m - 1 + 1) with m by lia. left.
      * right. exists letter. right. assumption.
    + intros [Hin | [letter Hin]].
      * left. destruct l; auto. apply elem_of_union. auto.
      * apply elem_of_cons in Hin as [<- | Hin].
        -- left. apply elem_of_union. left. apply elem_of_singleton. lia.
        -- right. eauto.
Qed.

Lemma elem_of_dummiesUsed (h : Hint) (k : nat) :
  Z.of_nat k ∈ dummiesUsed h <-> dummyConsumed h k.
Proof.
  unfold dummiesUsed, dummyConsumed. rewrite elem_of_dummiesUsed_from.
  split; [| auto].
  intros [Hin | Hin]; [| assumption].
  exfalso. exact (not_elem_of_empty _ Hin).
Qed.

(** C5 (amended).  Resolution completion replaces the letter of every
    consumed dummy by a letter drawn at random and lowers its countdown
    by 1, and leaves the other dummies as they are; [hintsRemaining]
    changes by -1 plus one free hint for each consumed dummy whose
    countdown stood at 1, so the net change is 0 when exactly one
    consumed dummy stood at 1. *)
Theorem fullyResolveHint_dummies (room : ResolvingHintPhase) (g : Rng) :
  exists r' g',
    fullyResolveHint room g = Ok (r', g')
    /\ length (dummies r') = length (dummies room)
    /\ (forall (k : nat) (d : Dummy), dummies room !! k = Some d ->
          (dummyConsumed (hint (activeHint room)) k ->
           exists gk,
             dummies r' !! k
             = Some (mkDummy (drawLetter gk) (untilFreeHint d - 1)))
          /\ (~ dummyConsumed (hint (activeHint room)) k ->
              dummies r' !! k = Some d))
    /\ hintsRemaining r'
       = hintsRemaining room - 1
         + countFreeHints (dummiesUsed (hint (activeHint room))) 0
                          (dummies room)
    /\ (forall (k : nat) (d : Dummy),
          dummies room !! k = Some d ->
          dummyConsumed (hint (activeHint room)) k ->
          untilFreeHint d = 1 ->
          (forall (k' : nat) d',
              k' <> k -> dummies room !! k' = Some d' ->
              dummyConsumed (hint (activeHint room)) k' ->
              untilFreeHint d' <> 1) ->
          hintsRemaining r' = hintsRemaining room).
Proof.
  destruct (fullyResolveHint_spec room g) as (ds' & g' & Hrun & Hlen & Hat).
  eexists _, g'. split; [exact Hrun |]. simpl.
  split; [exact Hlen |]. split; [| split; [reflexivity |]].
  - intros k d Hk. destruct (Hat k d Hk) as [Hused Hnot]. split.
    + intros Hc. apply Hused, elem_of_dummiesUsed, Hc.
    + intros Hc. apply Hnot. rewrite elem_of_dummiesUsed. exact Hc.
  - intros k d Hk Hc H1 Hothers.
    rewrite (countFreeHints_one _ _ 0 k d Hk); [lia | | exact H1 |].
    + rewrite Z.add_0_l. apply elem_of_dummiesUsed, Hc.
    + intros k' d' Hne Hk' Hin. rewrite Z.add_0_l in Hin.
      apply (Hothers k' d' Hne Hk'), elem_of_dummiesUsed, Hin.
Qed.

(** *** Hints that involve no player *)

(** The letter matches an available source. *)
Definition matchesSource {H} (room : StartedPhase H) (l : LetterAndSource)
  : Prop :=
  match l with
  | SrcBonus letter => letter ∈ bonuses room
  | SrcDummy letter dummyNumber =>
      exists dummy, lookupZ (dummies room) (dummyNumber - 1) = Some dummy
                    /\ currentLetter dummy = letter
  | SrcPlayer letter playerNumber =>
      exists p, lookupZ (players room) (playerNumber - 1) = Some p
                /\ lookupZ (letters (hand p)) (activeIndex (hand p))
                   = Some letter
  | SrcWildcard => True
  end.

Lemma checkLetterAndSource_Ok {H} (room : StartedPhase H) l :
  checkLetterAndSource room l = Ok tt <-> matchesSource room l.
Proof.
  destruct l as [letter n| |letter n|letter]; simpl.
  - destruct (lookupZ (players room) (n - 1)) as [p|].
    + destruct (decide _) as [Heq | Hne]; split; eauto; try discriminate.
      intros (p' & [= <-] & Heq). contradiction.
    + split; [discriminate | intros (p & [=] & _)].
  - tauto.
  - destruct (lookupZ (dummies room) (n - 1)) as [d|].
    + destruct (decide _) as [Heq | Hne]; split; eauto; try discriminate.
      intros (d' & [= <-] & Heq). contradiction.
    + split; [discriminate | intros (d & [=] & _)].
  - destruct (bool_decide (letter ∈ bonuses room)) eqn:Hin.
    + apply bool_decide_eq_true_1 in Hin. tauto.
    + apply bool_decide_eq_false_1 in Hin. split; [discriminate | tauto].
Qed.

Lemma checkHint_Ok {H} (room : StartedPhase H) ls :
  checkHint room ls = Ok tt <-> Forall (matchesSource room) ls.
Proof.
  induction ls as [|l ls IH]; simpl.
  - split; auto.
  - rewrite Forall_cons, <- IH, <- checkLetterAndSource_Ok.
    destruct (checkLetterAndSource room l) as [[]|e]; simpl.
    + tauto.
    + split; [discriminate | intros [[=] _]].
Qed.

(** *** Legality gating *)

(** The letter names no available source: it does not match its source,
    or the dummy or player it names is not in the room.  The wildcard is
    never unavailable. *)
Definition unavailable {H} (room : StartedPhase H) (l : LetterAndSource)
  : Prop :=
  mismatched room l \/ ~ sourceExists room l.

Lemma unavailable_not_matches {H} (room : StartedPhase H) l :
  unavailable room l -> ~ matchesSource room l.
Proof.
  destruct l as [letter n| |letter n|letter]; simpl.
  - intros [(p & Hp & Hne) | Hmiss] (p' & Hp' & Heq).
    + rewrite Hp in Hp'. injection Hp' as <-. contradiction.
    + apply Hmiss. simpl. rewrite Hp'. eauto.
  - intros [[] | Hmiss] _. apply Hmiss. exact I.
  - intros [(d & Hd & Hne) | Hmiss] (d' & Hd' & Heq).
    + rewrite Hd in Hd'. injection Hd' as <-. contradiction.
    + apply Hmiss. simpl. rewrite Hd'. eauto.
  - intros [Hnot | Hmiss] Hin; [contradiction |]. apply Hmiss. exact I.
Qed.

Lemma checkLetterAndSource_missing {H} (room : StartedPhase H) l :
  ~ sourceExists room l -> checkLetterAndSource room l = Err TypeError.
Proof.
  destruct l as [letter n| |letter n|letter]; simpl.
  - destruct (lookupZ (players room) (n - 1)); [| reflexivity].
    intros Hmiss. destruct Hmiss. eauto.
  - intros Hmiss. destruct Hmiss. exact I.
  - destruct (lookupZ (dummies room) (n - 1)); [| reflexivity].
    intros Hmiss. destruct Hmiss. eauto.
  - intros Hmiss. destruct Hmiss. exact I.
Qed.

(** What a failing turn of the check loop says of its letter. *)
Lemma checkLetterAndSource_error {H} (room : StartedPhase H) l e :
  checkLetterAndSource room l = Err e ->
  l <> SrcWildcard
  /\ ((mismatched room l /\ e = IllegalHint)
      \/ (~ sourceExists room l /\ e = TypeError)).
Proof.
  destruct l as [letter n| |letter n|letter]; simpl.
  - destruct (lookupZ (players room) (n - 1)) as [p|] eqn:Hp.
    + destruct (decide _) as [Heq | Hne]; [discriminate |].
      intros [= <-]. split; [discriminate |]. left. eauto.
    + intros [= <-]. split; [discriminate |]. right.
      split; [| reflexivity]. intros [p Hp']. discriminate.
  - discriminate.
  - destruct (lookupZ (dummies room) (n - 1)) as [d|] eqn:Hd.
    + destruct (decide _) as [Heq | Hne]; [discriminate |].
      intros [= <-]. split; [discriminate |]. left. eauto.
    + intros [= <-]. split; [discriminate |]. right.
      split; [| reflexivity]. intros [d Hd']. discriminate.
  - destruct (bool_decide (letter ∈ bonuses room)) eqn:Hin; [discriminate |].
    apply bool_decide_eq_false_1 in Hin.
    intros [= <-]. split; [discriminate |]. left. auto.
Qed.

Lemma checkHint_first_missing {H} (room : StartedPhase H) pre l post :
  Forall (matchesSource room) pre -> ~ sourceExists room l ->
  checkHint room (pre ++ l :: post) = Err TypeError.
Proof.
  intros Hpre Hl. induction Hpre as [|x pre Hx _ IH]; simpl.
  - rewrite checkLetterAndSource_missing by assumption. reflexivity.
  - rewrite (proj2 (checkLetterAndSource_Ok room x) Hx). exact IH.
Qed.

(** A failing check stops at its first failing letter; the letters before
    it match their sources. *)
Lemma checkHint_error {H} (room : StartedPhase H) ls e :
  checkHint room ls = Err e ->
  exists pre l post,
    ls = pre ++ l :: post
    /\ Forall (matchesSource room) pre
    /\ checkLetterAndSource room l = Err e.
Proof.
  induction ls as [|x ls IH]; simpl; [discriminate |].
  destruct (checkLetterAndSource room x) as [[]|e'] eqn:Hx; simpl.
  - intros Hrest. destruct (IH Hrest) as (pre & l & post & -> & Hpre & Hl).
    exists (x :: pre), l, post. split; [reflexivity |].
    split; [| exact Hl]. constructor; [| exact Hpre].
    apply checkLetterAndSource_Ok, Hx.
  - intros [= <-]. exists [], x, ls. auto.
Qed.

(** After the check nothing throws. *)
Lemma giveHint_check_passes room h g :
  checkHint room (lettersAndSources h) = Ok tt ->
  exists r g', giveHint room h g = Ok (r, g').
Proof.
  intros Hcheck. unfold giveHint, bind, liftR. rewrite Hcheck.
  cbv beta iota.
  destruct (bool_decide _); [| unfold ret; eauto].
  match goal with
  | |- context [fullyResolveHint ?r g] =>
      destruct (fullyResolveHint_spec r g) as (ds' & g' & Hrun & _);
      rewrite Hrun
  end.
  unfold ret. eauto.
Qed.

(** C1 (amended).  [giveHint] throws and returns no room, so the immutable
    input room is all there is, whenever a letter of the hint names no
    available source: a bonus letter absent from the pool, a dummy whose
    current letter differs, a player whose exposed letter differs, or a
    dummy or player that is not in the room.  The exception is the
    illegal-hint error when the first such letter is a mismatch (already
    when the sources named before it exist), and the failed read of the
    missing dummy or player when the first such letter names one.  A
    wildcard is always legal: for a hint given by a player of the room
    [giveHint] throws for no other reason than a letter, not the
    wildcard, that names no available source, and a hint of wildcards
    only is accepted. *)
Theorem giveHint_rejects_mismatch (room : ProposingHintPhase) (h : Hint)
  (g : Rng) :
  (Exists (unavailable room) (lettersAndSources h) ->
   exists e, giveHint room h g = Err e
             /\ (e = IllegalHint \/ e = TypeError))
  /\ (forall pre l post,
        lettersAndSources h = pre ++ l :: post ->
        Forall (sourceExists room) pre -> mismatched room l ->
        giveHint room h g = Err IllegalHint)
  /\ (forall pre l post,
        lettersAndSources h = pre ++ l :: post ->
        Forall (matchesSource room) pre -> ~ sourceExists room l ->
        giveHint room h g = Err TypeError)
  /\ (1 <= givenByPlayer h <= Z.of_nat (length (players room)) ->
      forall e,
        giveHint room h g = Err e ->
        exists pre l post,
          lettersAndSources h = pre ++ l :: post
          /\ l <> SrcWildcard
          /\ Forall (matchesSource room) pre
          /\ ((mismatched room l /\ e = IllegalHint)
              \/ (~ sourceExists room l /\ e = TypeError)))
  /\ (1 <= givenByPlayer h <= Z.of_nat (length (players room)) ->
      Forall (fun l => l = SrcWildcard) (lettersAndSources h) ->
      exists r g', giveHint room h g = Ok (r, g')).
Proof.
  assert (Hfails : forall e,
             giveHint room h g = Err e ->
             checkHint room (lettersAndSources h) = Err e).
  { intros e Hrun.
    destruct (checkHint room (lettersAndSources h)) as [[]|e'] eqn:Hcheck.
    - destruct (giveHint_check_passes room h g Hcheck) as (r & g' & Hok).
      rewrite Hok in Hrun. discriminate.
    - rewrite (giveHint_check_fails room h g e' Hcheck) in Hrun.
      congruence. }
  assert (Hwhy : forall e,
             giveHint room h g = Err e ->
             exists pre l post,
               lettersAndSources h = pre ++ l :: post
               /\ l <> SrcWildcard
               /\ Forall (matchesSource room) pre
               /\ ((mismatched room l /\ e = IllegalHint)
                   \/ (~ sourceExists room l /\ e = TypeError))).
  { intros e Hrun.
    destruct (checkHint_error room _ e (Hfails e Hrun))
      as (pre & l & post & Heq & Hpre & Hl).
    destruct (checkLetterAndSource_error room l e Hl) as [Hw Hcase].
    exists pre, l, post. auto. }
  split; [| split; [| split; [| split; [intros _; exact Hwhy |]]]].
  - intros Hex.
    destruct (checkHint room (lettersAndSources h)) as [[]|e] eqn:Hcheck.
    + apply checkHint_Ok in Hcheck. apply Exists_exists in Hex.
      destruct Hex as (l & Hin & Hl).
      destruct (unavailable_not_matches room l Hl).
      rewrite Forall_forall in Hcheck. apply Hcheck, Hin.
    + pose proof (giveHint_check_fails room h g e Hcheck) as Hrun.
      exists e. split; [exact Hrun |].
      destruct (Hwhy e Hrun) as (_ & _ & _ & _ & _ & _ & [[_ ->] | [_ ->]]);
        auto.
  - intros pre l post Heq Hpre Hl.
    apply giveHint_check_fails. rewrite Heq.
    apply checkHint_first_mismatch; assumption.
  - intros pre l post Heq Hpre Hl.
    apply giveHint_check_fails. rewrite Heq.
    apply checkHint_first_missing; assumption.
  - intros _ Hwild. apply giveHint_check_passes, checkHint_Ok.
    eapply Forall_impl; [exact Hwild |]. intros l ->. exact I.
Qed.

Lemma outstanding_no_players (h : Hint) (idxs : list Z) :
  (forall letter n, SrcPlayer letter n ∉ lettersAndSources h) ->
  size (playersWithOutstandingAction (mkResolving h [] idxs)) = 0%nat.
Proof.
  intros Hno. apply outstanding_size_0. simpl.
  intros n letter Hin. destruct (Hno letter n Hin).
Qed.

Lemma giveHint_no_players (room : ProposingHintPhase) (h : Hint) (g : Rng) :
  Forall (matchesSource room) (lettersAndSources h) ->
  (forall letter n, SrcPlayer letter n ∉ lettersAndSources h) ->
  exists ds' g',
    giveHint room h g
    = Ok (mkStarted (wordLength room)
            (mapNth Player (players room) (givenByPlayer h - 1)
                    (fun p => mkPlayer (name p) (hand p) (hintsGiven p + 1)))
            ds'
            (filterIndexFrom
               (fun index =>
                  negb (bool_decide (index ∈ bonusesUsed (bonuses room) h)))
               0 (bonuses room))
            (hintsRemaining room - 1
             + countFreeHints (dummiesUsed h) 0 (dummies room))
            (hintLog room
             ++ [mkLogEntry h
                   (Z.of_nat (length (hintLog room)) + hintsRemaining room)
                   (map (fun p => activeIndex (hand p)) (players room)) []])
            (PROPOSING (mkProposing ∅)), g')
    /\ length ds' = length (dummies room)
    /\ forall (k : nat) (d : Dummy), dummies room !! k = Some d ->
         (dummyConsumed h k ->
          exists gk, ds' !! k
                     = Some (mkDummy (drawLetter gk) (untilFreeHint d - 1)))
         /\ (~ dummyConsumed h k -> ds' !! k = Some d).
Proof.
  intros Hlegal Hno.
  unfold giveHint, bind, liftR.
  rewrite (proj2 (checkHint_Ok room _) Hlegal). cbv beta iota.
  cbn [activeHint].
  rewrite (bool_decide_eq_true_2 _ (outstanding_no_players h _ Hno)).
  match goal with
  | |- context [fullyResolveHint ?r g] =>
      destruct (fullyResolveHint_spec r g) as (ds' & g' & Hrun & Hlen & Hat);
      rewrite Hrun
  end.
  simpl in *. exists ds', g'.
  split; [reflexivity |]. split; [exact Hlen |].
  intros k d Hk. destruct (Hat k d Hk) as [Hused Hnot]. split.
  - intros Hc. apply Hused, elem_of_dummiesUsed, Hc.
  - intros Hc. apply Hnot. rewrite elem_of_dummiesUsed. exact Hc.
Qed.

(** *** Bonus letters consumed by a hint *)

Lemma findIndexFrom_bound {A} (p : A -> bool) (l : list A) :
  forall i, findIndexFrom p i l = -1 \/ i <= findIndexFrom p i l.
Proof.
  induction l as [|x l IH]; intros i; simpl; [auto |].
  destruct (p x); [right; lia |].
  destruct (IH (i + 1)); [auto | right; lia].
Qed.

Lemma findIndexFrom_hit {A} (p : A -> bool) (l : list A) :
  forall i (k : nat) x,
    0 <= i -> findIndexFrom p i l = i + Z.of_nat k -> l !! k = Some x ->
    p x = true.
Proof.
  induction l as [|x0 l IH]; intros i k x Hi Hfind Hk; [inversion Hk |].
  simpl in Hfind. destruct (p x0) eqn:Hp0.
  - assert (k = 0%nat) as -> by lia. injection Hk as <-. exact Hp0.
  - destruct k as [|k].
    + destruct (findIndexFrom_bound p l (i + 1)); lia.
    + apply (IH (i + 1) k x); [lia | lia | exact Hk].
Qed.

Lemma findIndexFrom_first (L : Letter) (pre post : list Letter) :
  forall i, L ∉ pre ->
    findIndexFrom (fun bonus => bool_decide (bonus = L)) i (pre ++ L :: post)
    = i + Z.of_nat (length pre).
Proof.
  induction pre as [|x pre IH]; intros i Hnot; simpl.
  - rewrite bool_decide_eq_true_2 by reflexivity. lia.
  - rewrite bool_decide_eq_false_2.
    + rewrite IH; [lia |]. intros Hin. apply Hnot. right. exact Hin.
    + intros ->. apply Hnot. left.
Qed.

Lemma filterIndexFrom_app {A} (keep : Z -> bool) (l1 l2 : list A) :
  forall i,
    filterIndexFrom keep i (l1 ++ l2)
    = filterIndexFrom keep i l1
      ++ filterIndexFrom keep (i + Z.of_nat (length l1)) l2.
Proof.
  induction l1 as [|x l1 IH]; intros i; simpl.
  - rewrite Z.add_0_r. reflexivity.
  - rewrite IH.
    replace (i + 1 + Z.of_nat (length l1))
      with (i + Z.of_nat (S (length l1))) by lia.
    destruct (keep i); reflexivity.
Qed.

Lemma count_filterIndexFrom_kept (keep : Z -> bool) (L : Letter)
  (l : list Letter) :
  forall i,
    (forall k : nat, l !! k = Some L -> keep (i + Z.of_nat k) = true) ->
    count_occ Letter_eq_dec (filterIndexFrom keep i l) L
    = count_occ Letter_eq_dec l L.
Proof.
  induction l as [|x l IH]; intros i Hkeep; simpl; [reflexivity |].
  assert (Htail : count_occ Letter_eq_dec (filterIndexFrom keep (i + 1) l) L
                  = count_occ Letter_eq_dec l L).
  { apply IH. intros k Hk.
    replace (i + 1 + Z.of_nat k) with (i + Z.of_nat (S k)) by lia.
    apply Hkeep. exact Hk. }
  destruct (Letter_eq_dec x L) as [-> | Hne].
  - pose proof (Hkeep 0%nat eq_refl) as H0. rewrite Z.add_0_r in H0.
    rewrite H0. simpl.
    destruct (Letter_eq_dec L L); [| contradiction]. rewrite Htail.
    reflexivity.
  - destruct (keep i); simpl; [| exact Htail].
    destruct (Letter_eq_dec x L); [contradiction | exact Htail].
Qed.

(** The hint cites the bonus letter [L]. *)
Definition bonusCited (h : Hint) (L : Letter) : Prop :=
  SrcBonus L ∈ lettersAndSources h.

Lemma elem_of_bonusesUsed_from (pool : list Letter)
  (ls : list LetterAndSource) (s : gset Z) i :
  i ∈ foldl (fun (s : gset Z) l =>
               match l with
               | SrcBonus letter =>
                   {[findIndex (fun bonus => bool_decide (bonus = letter))
                               pool]} ∪ s
               | _ => s
               end) s ls
  <-> i ∈ s
      \/ exists L, SrcBonus L ∈ ls
                   /\ i = findIndex (fun bonus => bool_decide (bonus = L))
                                    pool.
Proof.
  revert s. induction ls as [|l ls IH]; intros s; simpl.
  - split; [auto | intros [? | (L & Hin & _)]; [assumption | inversion Hin]].
  - rewrite IH. split.
    + intros [Hin | (L & Hin & Heq)].
      * destruct l as [| | |letter]; auto.
        apply elem_of_union in Hin as [Hin | Hin]; auto.
        apply elem_of_singleton in Hin.
        right. exists letter. split; [left | exact Hin].
      * right. exists L. split; [right; assumption | exact Heq].
    + intros [Hin | (L & Hin & Heq)].
      * left. destruct l; auto. apply elem_of_union. auto.
      * apply elem_of_cons in Hin as [<- | Hin].
        -- left. apply elem_of_union. left. apply elem_of_singleton.
           exact Heq.
        -- right. eauto.
Qed.

Lemma elem_of_bonusesUsed (pool : list Letter) (h : Hint) i :
  i ∈ bonusesUsed pool h
  <-> exists L, bonusCited h L
                /\ i = findIndex (fun bonus => bool_decide (bonus = L)) pool.
Proof.
  unfold bonusesUsed, bonusCited. rewrite elem_of_bonusesUsed_from.
  split; [| auto].
  intros [Hin | Hin]; [| assumption].
  exfalso. exact (not_elem_of_empty _ Hin).
Qed.

(** A used position that holds the letter [L] is the first position of
    [L], and [L] is cited. *)
Lemma bonusesUsed_at (pool : list Letter) (h : Hint) (k : nat) (L : Letter) :
  pool !! k = Some L -> Z.of_nat k ∈ bonusesUsed pool h ->
  bonusCited h L
  /\ Z.of_nat k = findIndex (fun bonus => bool_decide (bonus = L)) pool.
Proof.
  intros Hk Hin. apply elem_of_bonusesUsed in Hin as (L' & Hcited & Heq).
  assert (L = L') as <-; [| auto].
  symmetry in Heq. unfold findIndex in Heq.
  apply (findIndexFrom_hit _ pool 0 k L) in Heq; [| lia | exact Hk].
  apply bool_decide_eq_true_1 in Heq. exact Heq.
Qed.

Lemma bonuses_not_cited (pool : list Letter) (h : Hint) (L : Letter) :
  ~ bonusCited h L ->
  count_occ Letter_eq_dec
    (filterIndexFrom
       (fun index => negb (bool_decide (index ∈ bonusesUsed pool h))) 0 pool)
    L
  = count_occ Letter_eq_dec pool L.
Proof.
  intros Hnot. apply count_filterIndexFrom_kept. intros k Hk.
  rewrite Z.add_0_l. apply negb_true_iff, bool_decide_eq_false_2.
  intros Hin. apply Hnot. eapply bonusesUsed_at; eassumption.
Qed.

Lemma bonuses_cited (pool : list Letter) (h : Hint) (L : Letter) :
  bonusCited h L -> L ∈ pool ->
  S (count_occ Letter_eq_dec
       (filterIndexFrom
          (fun index => negb (bool_decide (index ∈ bonusesUsed pool h)))
          0 pool)
       L)
  = count_occ Letter_eq_dec pool L.
Proof.
  intros Hcited Hin.
  apply list_elem_of_split_l in Hin as (pre & post & Hpool & Hpre).
  assert (Hfirst : findIndex (fun bonus => bool_decide (bonus = L)) pool
                   = Z.of_nat (length pre)).
  { unfold findIndex. rewrite Hpool, findIndexFrom_first by assumption. lia. }
  set (keep := fun index => negb (bool_decide (index ∈ bonusesUsed pool h))).
  assert (Hdrop : keep (Z.of_nat (length pre)) = false).
  { subst keep. simpl. apply negb_false_iff, bool_decide_eq_true_2.
    apply elem_of_bonusesUsed. exists L. auto. }
  rewrite Hpool at 1 2. rewrite filterIndexFrom_app. simpl.
  rewrite Z.add_0_l, Hdrop, !count_occ_app. simpl.
  destruct (Letter_eq_dec L L); [| contradiction].
  rewrite !count_filterIndexFrom_kept.
  - lia.
  - intros k Hk. subst keep. simpl.
    apply negb_true_iff, bool_decide_eq_false_2. intros Hused.
    replace (Z.of_nat (length pre) + 1 + Z.of_nat k)
      with (Z.of_nat (length pre + 1 + k)) in Hused by lia.
    apply (bonusesUsed_at pool h _ L) in Hused as [_ Heq]; [lia |].
    rewrite Hpool. rewrite lookup_app_r by lia.
    replace (length pre + 1 + k - length pre)%nat with (S k) by lia.
    exact Hk.
  - intros k Hk. exfalso. apply Hpre.
    apply list_elem_of_lookup. eauto.
Qed.

(** Filtering by position keeps the order of the letters. *)
Lemma filterIndexFrom_sublist {A} (keep : Z -> bool) (l : list A) :
  forall i, sublist (filterIndexFrom keep i l) l.
Proof.
  induction l as [|x l IH]; intros i; simpl.
  - constructor.
  - destruct (keep i).
    + apply sublist_skip, IH.
    + apply sublist_cons, IH.
Qed.

(** C6.  A legal hint (every letter matches its source, the giver is a
    player of the room) without player-sourced letters is resolved on
    the spot with no player action: [giveHint] returns a proposing room
    with no proposed hints, the log entry of the hint appended,
    [hintsRemaining] decremented (up to the free hints of consumed
    dummies, so by exactly 1 when no consumed dummy stood at 1), the
    consumed dummies redrawn, and one copy of every bonus letter the
    hint cites taken out of the pool, which otherwise keeps its letters
    and their order. *)
Theorem giveHint_auto_resolves (room : ProposingHintPhase) (h : Hint)
  (g : Rng) :
  Forall (matchesSource room) (lettersAndSources h) ->
  (forall letter n, SrcPlayer letter n ∉ lettersAndSources h) ->
  1 <= givenByPlayer h <= Z.of_nat (length (players room)) ->
  exists p r' g',
    lookupZ (players room) (givenByPlayer h - 1) = Some p
    /\ giveHint room h g = Ok (r', g')
    /\ activeHint r' = PROPOSING (mkProposing ∅)
    /\ players r'
       = <[Z.to_nat (givenByPlayer h - 1) :=
             mkPlayer (name p) (hand p) (hintsGiven p + 1)]> (players room)
    /\ hintLog r'
       = hintLog room
         ++ [mkLogEntry h
               (Z.of_nat (length (hintLog room)) + hintsRemaining room)
               (map (fun p => activeIndex (hand p)) (players room)) []]
    /\ hintsRemaining r'
       = hintsRemaining room - 1
         + countFreeHints (dummiesUsed h) 0 (dummies room)
    /\ ((forall (k : nat) (d : Dummy),
            dummies room !! k = Some d -> dummyConsumed h k ->
            untilFreeHint d <> 1) ->
        hintsRemaining r' = hintsRemaining room - 1)
    /\ sublist (bonuses r') (bonuses room)
    /\ (forall L : Letter,
           (bonusCited h L ->
            S (count_occ Letter_eq_dec (bonuses r') L)
            = count_occ Letter_eq_dec (bonuses room) L)
           /\ (~ bonusCited h L ->
               count_occ Letter_eq_dec (bonuses r') L
               = count_occ Letter_eq_dec (bonuses room) L))
    /\ length (dummies r') = length (dummies room)
    /\ (forall (k : nat) (d : Dummy), dummies room !! k = Some d ->
          (dummyConsumed h k ->
           exists gk,
             dummies r' !! k
             = Some (mkDummy (drawLetter gk) (untilFreeHint d - 1)))
          /\ (~ dummyConsumed h k -> dummies r' !! k = Some d)).
Proof.
  intros Hlegal Hno Hgiver.
  assert (Hp : is_Some (lookupZ (players room) (givenByPlayer h - 1)))
    by (apply lookupZ_is_Some; lia).
  destruct Hp as [p Hp]. exists p.
  destruct (giveHint_no_players room h g Hlegal Hno)
    as (ds' & g' & Hrun & Hlen & Hat).
  eexists _, g'. split; [exact Hp |]. split; [exact Hrun |]. simpl.
  split; [reflexivity |].
  split; [rewrite (mapNth_in_range _ _ _ _ p Hp); reflexivity |].
  split; [reflexivity |]. split; [reflexivity |].
  split; [| split; [apply filterIndexFrom_sublist |
                    split; [| split; [exact Hlen | exact Hat]]]].
  - intros Hnone. rewrite countFreeHints_none; [lia |].
    intros k d Hk Hin. rewrite Z.add_0_l in Hin.
    apply (Hnone k d Hk), elem_of_dummiesUsed, Hin.
  - intros L. split.
    + intros Hcited. apply bonuses_cited; [exact Hcited |].
      rewrite Forall_forall in Hlegal. exact (Hlegal _ Hcited).
    + apply bonuses_not_cited.
Qed.

(** C9.  Resolution completion takes exactly one copy of a cited bonus
    letter out of the pool, however many times the hint cites it, and
    none of a letter the hint does not cite; and [giveHint] accepts a
    hint that cites one bonus letter any number of times as soon as the
    pool holds that letter once, after which one copy is gone. *)
Theorem bonus_cited_twice_consumed_once :
  (forall (room : ResolvingHintPhase) (g : Rng) (L : Letter),
      exists r' g',
        fullyResolveHint room g = Ok (r', g')
        /\ (bonusCited (hint (activeHint room)) L -> L ∈ bonuses room ->
            S (count_occ Letter_eq_dec (bonuses r') L)
            = count_occ Letter_eq_dec (bonuses room) L)
        /\ (~ bonusCited (hint (activeHint room)) L ->
            count_occ Letter_eq_dec (bonuses r') L
            = count_occ Letter_eq_dec (bonuses room) L))
  /\ (forall (room : ProposingHintPhase) (giver : Z) (n : nat) (g : Rng)
             (L : Letter),
         L ∈ bonuses room ->
         1 <= giver <= Z.of_nat (length (players room)) ->
         checkHint room (repeat (SrcBonus L) (S n)) = Ok tt
         /\ exists r' g',
             giveHint room (mkHint giver (repeat (SrcBonus L) (S n))) g
             = Ok (r', g')
             /\ S (count_occ Letter_eq_dec (bonuses r') L)
                = count_occ Letter_eq_dec (bonuses room) L).
Proof.
  split.
  - intros room g L.
    destruct (fullyResolveHint_spec room g) as (ds' & g' & Hrun & _ & _).
    eexists _, g'. split; [exact Hrun |]. simpl. split.
    + apply bonuses_cited.
    + apply bonuses_not_cited.
  - intros room giver n g L Hin Hgiver.
    assert (Hlegal : Forall (matchesSource room) (repeat (SrcBonus L) (S n))).
    { apply Forall_forall. intros l Hl.
      apply list_elem_of_In, repeat_spec in Hl. subst l. exact Hin. }
    assert (Hno : forall letter m,
               SrcPlayer letter m ∉ repeat (SrcBonus L) (S n)).
    { intros letter m Hl.
      apply list_elem_of_In, repeat_spec in Hl. discriminate. }
    split; [apply checkHint_Ok, Hlegal |].
    destruct (giveHint_no_players room (mkHint giver _) g Hlegal Hno)
      as (ds' & g' & Hrun & _ & _).
    eexists _, g'. split; [exact Hrun |]. simpl.
    apply bonuses_cited; [| exact Hin]. left.
Qed.

(** *** Starting the game *)

Lemma mapMFrom_spec {A B} (f : Z -> A -> M B) (Q : nat -> A -> B -> Prop)
  (l : list A) :
  forall (n : nat) (g : Rng),
    (forall (k : nat) x g0, l !! k = Some x ->
       exists y g1, f (Z.of_nat (n + k)) x g0 = Ok (y, g1) /\ Q (n + k)%nat x y) ->
    exists ys g',
      mapMFrom f (Z.of_nat n) l g = Ok (ys, g')
      /\ length ys = length l
      /\ forall (k : nat) x, l !! k = Some x ->
           exists y, ys !! k = Some y /\ Q (n + k)%nat x y.
Proof.
  induction l as [|x l IH]; intros n g Hf; simpl.
  - exists [], g. split; [reflexivity |]. split; [reflexivity |].
    intros k x Hk. inversion Hk.
  - destruct (Hf 0%nat x g eq_refl) as (y & g1 & Hy & HQ).
    rewrite Nat.add_0_r in Hy, HQ.
    destruct (IH (S n) g1) as (ys & g' & Hys & Hlen & Hat).
    { intros k x' g0 Hk. destruct (Hf (S k) x' g0 Hk) as (y' & g2 & Hy' & HQ').
      replace (S n + k)%nat with (n + S k)%nat by lia. eauto. }
    exists (y :: ys), g'. unfold bind, ret. rewrite Hy.
    replace (Z.of_nat n + 1) with (Z.of_nat (S n)) by lia.
    rewrite Hys. split; [reflexivity |].
    split; [simpl; rewrite Hlen; reflexivity |].
    intros [|k] x' Hk; simpl in *.
    + injection Hk as <-. rewrite Nat.add_0_r. eauto.
    + destruct (Hat k x' Hk) as (y' & Hy' & HQ').
      replace (n + S k)%nat with (S n + k)%nat by lia. eauto.
Qed.

Lemma newDummies_spec (countdowns : list Z) :
  forall (i : Z) (g : Rng),
  exists ds g',
    mapMFrom (fun _ untilFreeHint =>
                do l <- randomLetter; ret (mkDummy l untilFreeHint))
             i countdowns g = Ok (ds, g')
    /\ map untilFreeHint ds = countdowns
    /\ Forall (fun d => exists gk, currentLetter d = drawLetter gk) ds.
Proof.
  induction countdowns as [|c cs IH]; intros i g; simpl.
  - exists [], g. split; [reflexivity |]. split; [reflexivity | constructor].
  - destruct (IH (i + 1) (rngTail g)) as (ds & g' & Hds & Hmap & Hall).
    exists (mkDummy (drawLetter g) c :: ds), g'.
    unfold bind, randomLetter, ret in *. rewrite Hds.
    split; [reflexivity |]. split; [simpl; rewrite Hmap; reflexivity |].
    constructor; [simpl; eauto | exact Hall].
Qed.

Lemma isRoomReady_true (room : StartingPhase) :
  isRoomReady room = true
  <-> (forall p, p ∈ splayers room -> word p <> None)
      /\ 2 <= Z.of_nat (length (splayers room)) <= 6.
Proof.
  unfold isRoomReady, MIN_PLAYERS, MAX_PLAYERS.
  rewrite !andb_true_iff, !bool_decide_eq_true, forallb_forall. split.
  - intros [[Hall Hmin] Hmax]. split; [| lia].
    intros p Hp Hnone. apply list_elem_of_In in Hp.
    specialize (Hall p Hp). rewrite Hnone in Hall. discriminate.
  - intros [Hall Hlen]. split; [split |]; try lia.
    intros p Hp. apply list_elem_of_In in Hp.
    specialize (Hall p Hp). destruct (word p); [reflexivity | contradiction].
Qed.

(** The hand dealt to the player at position [i]: the word of the
    previous player, circularly, in the order [shuffle] gives it. *)
Definition dealtFrom (room : StartingPhase) (i : nat) (p : StartingPlayer)
  (q : Player) : Prop :=
  exists previous w,
    splayers room
      !! ((i + length (splayers room) - 1) mod length (splayers room))%nat
    = Some previous
    /\ word previous = Some w
    /\ name q = sname p
    /\ Permutation (letters (hand q)) (list_ascii_of_string w)
    /\ guesses (hand q) = repeat None (length (list_ascii_of_string w))
    /\ activeIndex (hand q) = 0
    /\ hintsGiven q = 0.

Lemma map_const_repeat {A B} (b : B) (l : list A) :
  map (fun _ => b) l = repeat b (length l).
Proof. induction l; simpl; [reflexivity | f_equal; assumption]. Qed.

Lemma dealHand_spec (room : StartingPhase) (k : nat) (p : StartingPlayer)
  (g : Rng) :
  (forall p, p ∈ splayers room -> word p <> None) ->
  splayers room !! k = Some p ->
  exists q g', dealHand room (Z.of_nat (0 + k)) p g = Ok (q, g')
               /\ dealtFrom room (0 + k) p q.
Proof.
  intros Hwords Hk. simpl.
  pose proof (lookup_lt_Some _ _ _ Hk) as Hlt.
  set (len := length (splayers room)) in *.
  assert (Hidx : Z.rem (Z.of_nat k + Z.of_nat len - 1) (Z.of_nat len)
                 = Z.of_nat ((k + len - 1) mod len)).
  { rewrite Z.rem_mod_nonneg by lia.
    rewrite Nat2Z.inj_mod. f_equal. lia. }
  assert (Hprev : is_Some (splayers room !! ((k + len - 1) mod len)%nat)).
  { apply lookup_lt_is_Some. apply Nat.mod_upper_bound. lia. }
  destruct Hprev as [previous Hprev].
  assert (Hw : is_Some (word previous)).
  { destruct (word previous) eqn:Hword; [eauto |].
    exfalso. apply (Hwords previous); [| exact Hword].
    apply list_elem_of_lookup. eauto. }
  destruct Hw as [w Hw].
  destruct (shuffle_permutes w g) as (ls & g' & Hshuffle & Hperm).
  unfold dealHand. fold len. rewrite Hidx.
  unfold lookupZ. destruct (decide _) as [_ | Hneg]; [| lia].
  rewrite Nat2Z.id, Hprev, Hw. unfold bind, ret. rewrite Hshuffle.
  eexists _, g'. split; [reflexivity |].
  exists previous, w. fold len. simpl.
  split; [exact Hprev |]. split; [exact Hw |]. split; [reflexivity |].
  split; [exact Hperm |]. split; [apply map_const_repeat |]. auto.
Qed.

Lemma startGameRoom_spec (room : StartingPhase) (g : Rng) :
  isRoomReady room = true ->
  exists ps countdowns ds g',
    startGameRoom room g
    = Ok (mkStarted (swordLength room) ps ds [] STARTING_HINTS []
                    (PROPOSING (mkProposing ∅)), g')
    /\ length ps = length (splayers room)
    /\ (forall (i : nat) p, splayers room !! i = Some p ->
          exists q, ps !! i = Some q /\ dealtFrom room i p q)
    /\ dummyLettersForFreeHint (Z.of_nat (length (splayers room)))
       = Ok countdowns
    /\ map untilFreeHint ds = countdowns
    /\ Forall (fun d => exists gk, currentLetter d = drawLetter gk) ds.
Proof.
  intros Hready. apply isRoomReady_true in Hready as [Hwords Hlen].
  destruct (mapMFrom_spec (dealHand room) (dealtFrom room) (splayers room)
              0%nat g) as (ps & g1 & Hps & Hpslen & Hpsat).
  { intros k x g0 Hk. apply dealHand_spec; assumption. }
  assert (Hcs : exists countdowns,
             dummyLettersForFreeHint (Z.of_nat (length (splayers room)))
             = Ok countdowns).
  { assert (Hcases : Z.of_nat (length (splayers room)) = 2
                     \/ Z.of_nat (length (splayers room)) = 3
                     \/ Z.of_nat (length (splayers room)) = 4
                     \/ Z.of_nat (length (splayers room)) = 5
                     \/ Z.of_nat (length (splayers room)) = 6) by lia.
    destruct Hcases as [-> | [-> | [-> | [-> | ->]]]]; simpl; eauto. }
  destruct Hcs as [countdowns Hcs].
  destruct (newDummies_spec countdowns 0 g1) as (ds & g' & Hds & Hmap & Hall).
  exists ps, countdowns, ds, g'.
  split; [| repeat split; assumption].
  unfold startGameRoom, bind. change (Z.of_nat 0) with 0 in Hps.
  rewrite Hps.
  unfold liftR. rewrite Hcs. cbv beta iota.
  unfold bind in Hds. rewrite Hds. reflexivity.
Qed.

(** C3 (amended).  [startGameRoom] takes the countdowns of the dummies
    from the fixed table [dummyLettersForFreeHint], keyed by the number
    of players, one dummy (with a letter drawn at random) per countdown:
    a room of 4 players gets 2 dummies with the countdowns 7 and 8, a
    room of 2 players gets 4 dummies with the countdowns 7, 8, 9, 10. *)
Theorem startGameRoom_dummies (room : StartingPhase) (g : Rng) :
  isRoomReady room = true ->
  exists r' g',
    startGameRoom room g = Ok (r', g')
    /\ dummyLettersForFreeHint (Z.of_nat (length (splayers room)))
       = Ok (map untilFreeHint (dummies r'))
    /\ Forall (fun d => exists gk, currentLetter d = drawLetter gk)
              (dummies r')
    /\ (length (splayers room) = 4%nat ->
        map untilFreeHint (dummies r') = [7; 8])
    /\ (length (splayers room) = 2%nat ->
        map untilFreeHint (dummies r') = [7; 8; 9; 10]).
Proof.
  intros Hready.
  destruct (startGameRoom_spec room g Hready)
    as (ps & countdowns & ds & g' & Hrun & _ & _ & Hcs & Hmap & Hall).
  eexists _, g'. split; [exact Hrun |]. simpl. rewrite Hmap.
  split; [exact Hcs |]. split; [exact Hall |].
  split; intros Hlen; rewrite Hlen in Hcs; simpl in Hcs; congruence.
Qed.

(** C4 (amended).  For a ready room (2 to 6 players, every word set)
    [startGameRoom] returns a hinting room where the hand of the player
    at position [i] holds the letters of the word of the previous player,
    circularly, in some order, with one null guess per letter of that
    word (so [wordLength] nulls when the word has that length), active
    index 0 and no hint given; the bonus list is empty, 11 hints remain,
    the log is empty and the active hint is proposing with no proposed
    hints. *)
Theorem startGameRoom_deals_previous_word (room : StartingPhase) (g : Rng) :
  isRoomReady room = true ->
  exists r' g',
    startGameRoom room g = Ok (r', g')
    /\ wordLength r' = swordLength room
    /\ length (players r') = length (splayers room)
    /\ (forall (i : nat) p, splayers room !! i = Some p ->
          exists q previous w,
            players r' !! i = Some q
            /\ splayers room
                 !! ((i + length (splayers room) - 1)
                     mod length (splayers room))%nat
               = Some previous
            /\ word previous = Some w
            /\ name q = sname p
            /\ Permutation (letters (hand q)) (list_ascii_of_string w)
            /\ guesses (hand q)
               = repeat None (length (list_ascii_of_string w))
            /\ (Z.of_nat (length (list_ascii_of_string w))
                = swordLength room ->
                guesses (hand q)
                = repeat None (Z.to_nat (swordLength room)))
            /\ activeIndex (hand q) = 0
            /\ hintsGiven q = 0)
    /\ bonuses r' = []
    /\ hintsRemaining r' = 11
    /\ hintLog r' = []
    /\ activeHint r' = PROPOSING (mkProposing ∅).
Proof.
  intros Hready.
  destruct (startGameRoom_spec room g Hready)
    as (ps & countdowns & ds & g' & Hrun & Hlen & Hat & _).
  eexists _, g'. split; [exact Hrun |]. simpl.
  split; [reflexivity |]. split; [exact Hlen |].
  split; [| repeat split].
  intros i p Hi.
  destruct (Hat i p Hi)
    as (q & Hq & previous & w & Hprev & Hw & Hname & Hperm & Hg & Hai & Hhg).
  exists q, previous, w. repeat (split; [assumption |]).
  split; [| auto].
  intros Hwl. rewrite Hg, <- Hwl, Nat2Z.id. reflexivity.
Qed.

(** *** Moving to the endgame *)

(** C8.  [moveToEndgame] keeps the word length, the dummies, the bonus
    letters and the hint log, sets [hintsRemaining] to 0, and gives each
    player [hand.letters.slice(0, wordLength)], that is the first
    [wordLength] letters of its hand for a word length that is not
    negative, [wordLength] as active index, its guesses per position as
    they were, an empty final guess and no commitment. *)
Theorem moveToEndgame_spec (room : HintingPhase) :
  ewordLength (moveToEndgame room) = wordLength room
  /\ edummies (moveToEndgame room) = dummies room
  /\ ebonuses (moveToEndgame room) = bonuses room
  /\ ehintLog (moveToEndgame room) = hintLog room
  /\ ehintsRemaining (moveToEndgame room) = 0
  /\ length (eplayers (moveToEndgame room)) = length (players room)
  /\ forall (k : nat) (p : Player), players room !! k = Some p ->
       exists q,
         eplayers (moveToEndgame room) !! k = Some q
         /\ ename q = name p
         /\ ehintsGiven q = hintsGiven p
         /\ letters (ehand q) = slice0 (letters (hand p)) (wordLength room)
         /\ (0 <= wordLength room ->
             letters (ehand q)
             = take (Z.to_nat (wordLength room)) (letters (hand p)))
         /\ activeIndex (ehand q) = wordLength room
         /\ guesses (ehand q) = guesses (hand p)
         /\ guess q = []
         /\ committed q = false.
Proof.
  unfold moveToEndgame. simpl.
  repeat (split; [reflexivity |]).
  split; [apply length_map |].
  intros k p Hk. eexists. split.
  - change map with (@fmap list _). rewrite list_lookup_fmap, Hk.
    reflexivity.
  - simpl. repeat (split; [reflexivity |]).
    split; [| repeat split].
    intros Hwl. unfold slice0.
    destruct (decide (0 <= wordLength room)); [reflexivity | lia].
Qed.

(** *** Claiming letters in the endgame *)

Lemma ownLettersUsed_error (gs : list EndgameLetterChoice) :
  forall used e, ownLettersUsed gs used = Err e -> e = InvalidLetters.
Proof.
  induction gs as [|c gs IH]; intros used e; simpl; [discriminate |].
  destruct c as [index| |letter]; eauto.
  destruct (bool_decide _); [congruence | eauto].
Qed.

Lemma claimGuesses_error (gs : list EndgameLetterChoice) :
  forall st e, claimGuesses gs st = Err e -> e = InvalidLetters.
Proof.
  induction gs as [|c gs IH]; intros st e; simpl; [discriminate |].
  destruct c as [index| |letter]; eauto.
  - destruct (fst st); [eauto | congruence].
  - destruct (decide _); [congruence | eauto].
Qed.

Lemma claimPlayers_error (ps : list EndgamePlayer) :
  forall st e, claimPlayers ps st = Err e -> e = InvalidLetters.
Proof.
  induction ps as [|p ps IH]; intros st e; simpl; [discriminate |].
  destruct (claimGuesses (guess p) st) as [st'|e'] eqn:Hp; simpl.
  - apply IH.
  - intros [= <-]. eapply claimGuesses_error, Hp.
Qed.

(** Once the wildcard is taken it stays taken. *)
Lemma claimGuesses_taken (gs : list EndgameLetterChoice) :
  forall bs st', claimGuesses gs (false, bs) = Ok st' -> fst st' = false.
Proof.
  induction gs as [|c gs IH]; intros bs st'; simpl.
  - intros [= <-]. reflexivity.
  - destruct c as [index| |letter]; [apply IH | discriminate |].
    destruct (decide _); [discriminate | apply IH].
Qed.

(** A guess that claims the wildcard takes it, or is invalid. *)
Lemma claimGuesses_wildcard (gs : list EndgameLetterChoice) :
  ChoiceWildcard ∈ gs ->
  forall st st', claimGuesses gs st = Ok st' -> fst st' = false.
Proof.
  induction gs as [|c gs IH]; intros Hin st st'; [inversion Hin |].
  apply elem_of_cons in Hin as [<- | Hin]; simpl.
  - destruct (fst st); [apply claimGuesses_taken | discriminate].
  - destruct c as [index| |letter].
    + apply IH, Hin.
    + destruct (fst st); [apply claimGuesses_taken | discriminate].
    + destruct (decide _); [discriminate | apply IH, Hin].
Qed.

Lemma claimGuesses_wildcard_taken (gs : list EndgameLetterChoice) :
  ChoiceWildcard ∈ gs ->
  forall bs, claimGuesses gs (false, bs) = Err InvalidLetters.
Proof.
  intros Hin bs.
  destruct (claimGuesses gs (false, bs)) as [st'|e] eqn:Hrun.
  - exfalso. revert bs st' Hrun.
    induction gs as [|c gs IH]; intros bs st' Hrun; [inversion Hin |].
    apply elem_of_cons in Hin as [<- | Hin]; simpl in Hrun;
      [discriminate |].
    destruct c as [index| |letter]; [eauto | discriminate |].
    destruct (decide _); [discriminate | eauto].
  - f_equal. eapply claimGuesses_error, Hrun.
Qed.

Lemma claimPlayers_wildcard_taken (ps : list EndgamePlayer) :
  forall (j : nat) q bs,
    ps !! j = Some q -> ChoiceWildcard ∈ guess q ->
    claimPlayers ps (false, bs) = Err InvalidLetters.
Proof.
  induction ps as [|p ps IH]; intros j q bs Hj Hq; [inversion Hj |].
  simpl. destruct j as [|j]; simpl in Hj.
  - injection Hj as ->. rewrite claimGuesses_wildcard_taken by assumption.
    reflexivity.
  - destruct (claimGuesses (guess p) (false, bs)) as [[w bs']|e] eqn:Hp;
      simpl.
    + apply claimGuesses_taken in Hp. simpl in Hp. subst w. eauto.
    + f_equal. eapply claimGuesses_error, Hp.
Qed.

(** Two players that both claim the wildcard make the replay invalid. *)
Lemma claimPlayers_two_wildcards (ps : list EndgamePlayer) :
  forall (i j : nat) p q st,
    (i < j)%nat -> ps !! i = Some p -> ps !! j = Some q ->
    ChoiceWildcard ∈ guess p -> ChoiceWildcard ∈ guess q ->
    claimPlayers ps st = Err InvalidLetters.
Proof.
  induction ps as [|x ps IH]; intros i j p q st Hij Hi Hj Hp Hq;
    [inversion Hi |].
  destruct j as [|j]; [lia |]. simpl in Hj. simpl.
  destruct (claimGuesses (guess x) st) as [[w bs']|e] eqn:Hx; simpl.
  - destruct i as [|i]; simpl in Hi.
    + injection Hi as ->.
      apply (claimGuesses_wildcard _ Hp) in Hx. simpl in Hx. subst w.
      eapply claimPlayers_wildcard_taken; eassumption.
    + apply (IH i j p q); [lia | assumption..].
  - f_equal. eapply claimGuesses_error, Hx.
Qed.

(** C7.  For a player of the room, [setFinalGuess] either rejects the
    guess with the sentinel or returns the room with that player's
    [guess] replaced and nothing else changed; it throws nothing.  It
    rejects a guess that claims the wildcard whenever the installed
    guess of another player claims the wildcard already; the input room,
    where that first guess is installed, is the one that stays. *)
Theorem setFinalGuess_wildcard_exclusive (room : EndgamePhase)
  (playerNumber : Z) (g : list EndgameLetterChoice) :
  1 <= playerNumber <= Z.of_nat (length (eplayers room)) ->
  exists p,
    lookupZ (eplayers room) (playerNumber - 1) = Some p
    /\ (setFinalGuess room playerNumber g = Ok None
        \/ setFinalGuess room playerNumber g
           = Ok (Some
                   (mkEndgame (ewordLength room) (edummies room)
                      (ebonuses room) (ehintLog room) (ehintsRemaining room)
                      (<[Z.to_nat (playerNumber - 1) :=
                           mkEndgamePlayer (ename p) (ehand p)
                             (ehintsGiven p) g (committed p)]>
                         (eplayers room)))))
    /\ (ChoiceWildcard ∈ g ->
        (exists (other : nat) q,
            Z.of_nat other <> playerNumber - 1
            /\ eplayers room !! other = Some q
            /\ ChoiceWildcard ∈ guess q) ->
        setFinalGuess room playerNumber g = Ok None).
Proof.
  intros Hrange.
  assert (Hp : is_Some (lookupZ (eplayers room) (playerNumber - 1)))
    by (apply lookupZ_is_Some; lia).
  destruct Hp as [p Hp]. exists p. split; [exact Hp |].
  unfold setFinalGuess. rewrite (mapNth_in_range _ _ _ _ p Hp).
  apply lookupZ_Some in Hp as [Hnonneg Hp].
  pose proof (lookup_lt_Some _ _ _ Hp) as Hlt.
  set (p' := mkEndgamePlayer (ename p) (ehand p) (ehintsGiven p) g
                             (committed p)).
  set (ps' := <[Z.to_nat (playerNumber - 1) := p']> (eplayers room)).
  assert (Hp' : ps' !! Z.to_nat (playerNumber - 1) = Some p')
    by (apply list_lookup_insert_eq; exact Hlt).
  unfold availableLetters. cbn [eplayers ebonuses ewordLength].
  fold ps'.
  replace (lookupZ ps' (playerNumber - 1)) with (Some p')
    by (symmetry; apply lookupZ_Some; auto).
  cbn [guess p'].
  destruct (ownLettersUsed g ∅) as [used|e] eqn:Hown; simpl.
  2:{ apply ownLettersUsed_error in Hown. subst e. auto. }
  destruct (claimPlayers ps' (true, ebonuses room)) as [st|e] eqn:Hclaim;
    simpl.
  - split; [right; reflexivity |].
    intros Hg (other & q & Hne & Hq & Hwild). exfalso.
    assert (Hq' : ps' !! other = Some q).
    { subst ps'. rewrite list_lookup_insert_ne by lia. exact Hq. }
    assert (Hcases : (Z.to_nat (playerNumber - 1) < other)%nat
                     \/ (other < Z.to_nat (playerNumber - 1))%nat) by lia.
    destruct Hcases as [Hlt' | Hlt'].
    + rewrite (claimPlayers_two_wildcards ps' _ _ p' q _ Hlt' Hp' Hq' Hg Hwild)
        in Hclaim.
      discriminate.
    + rewrite (claimPlayers_two_wildcards ps' _ _ q p' _ Hlt' Hq' Hp' Hwild Hg)
        in Hclaim.
      discriminate.
  - apply claimPlayers_error in Hclaim. subst e. auto.
Qed.

End Engine.

(** ** A concrete instance of the helpers, and sample rooms *)

(** A [mapNth] that copies the array and replaces the element at [n] when
    there is one. *)
Definition mapNthInRange (A : Type) (l : list A) (n : Z) (f : A -> A)
  : list A :=
  match lookupZ l n with
  | Some x => <[Z.to_nat n := f x]> l
  | None => l
  end.

(** A [shuffle] that hands the letters of the word back to front. *)
Definition shuffleRev (w : string) : M (list Letter) :=
  ret (rev (list_ascii_of_string w)).

Lemma mapNthInRange_in_range (A : Type) (l : list A) (n : Z) (f : A -> A)
  (x : A) :
  lookupZ l n = Some x -> mapNthInRange A l n f = <[Z.to_nat n := f x]> l.
Proof. intros Hx. unfold mapNthInRange. rewrite Hx. reflexivity. Qed.

Lemma shuffleRev_permutes (w : string) (g : Rng) :
  exists ls g', shuffleRev w g = Ok (ls, g')
                /\ Permutation ls (list_ascii_of_string w).
Proof.
  exists (rev (list_ascii_of_string w)), g.
  split; [reflexivity | symmetry; apply Permutation_rev].
Qed.

Definition rng0 : Rng := fun i => i.

Definition alice : Player :=
  mkPlayer "alice" (mkHand ["A"; "B"; "C"]%char [None; None; None] 0) 0.
Definition bob : Player :=
  mkPlayer "bob" (mkHand ["C"; "D"; "E"]%char [None; None; None] 0) 0.
Definition carol : Player :=
  mkPlayer "carol" (mkHand ["H"; "I"; "K"]%char [None; None; None] 0) 0.

(** Three players, one dummy showing E with countdown 7, the bonus letter
    G, 11 hints left. *)
Definition proposingSample : ProposingHintPhase :=
  mkStarted 3 [alice; bob; carol] [mkDummy "E"%char 7] ["G"%char] 11 []
            (mkProposing ∅).

(** Carol's hint uses the exposed letters of alice and bob and the dummy. *)
Definition hintFor12 : Hint :=
  mkHint 3 [SrcPlayer "A"%char 1; SrcPlayer "C"%char 2; SrcDummy "E"%char 1].

Definition resolvingSample : ResolvingHintPhase :=
  mkStarted 3 [alice; bob; carol] [mkDummy "E"%char 7] ["G"%char] 11 []
            (mkResolving hintFor12 [] [0; 0; 0]).

(** Both dummies stand at a countdown of 1 and the hint cites both. *)
Definition twoDummiesAtOne : ResolvingHintPhase :=
  mkStarted 3 [alice; bob; carol] [mkDummy "E"%char 1; mkDummy "F"%char 1]
            [] 5 []
            (mkResolving
               (mkHint 3 [SrcDummy "E"%char 1; SrcDummy "F"%char 2])
               [] [0; 0; 0]).

Definition oneDummyAtOne : ResolvingHintPhase :=
  mkStarted 3 [alice; bob; carol] [mkDummy "E"%char 1; mkDummy "F"%char 4]
            [] 5 []
            (mkResolving
               (mkHint 3 [SrcDummy "E"%char 1; SrcDummy "F"%char 2])
               [] [0; 0; 0]).

Definition startingRoom (wordLength : Z) (ws : list (string * string))
  : StartingPhase :=
  mkStartingPhase wordLength
    (map (fun nw => mkStartingPlayer (fst nw) (Some (snd nw))) ws).

Definition twoPlayers : StartingPhase :=
  startingRoom 3 [("alice", "CAT"); ("bob", "DOG")]%string.
Definition fourPlayers : StartingPhase :=
  startingRoom 3
    [("alice", "CAT"); ("bob", "DOG"); ("carol", "PIG"); ("dave", "HEN")]%string.
Definition onePlayer : StartingPhase :=
  setPlayerWord (newStartingPhase "alice" 3) "alice" (Some "CAT"%string).
Definition shortWords : StartingPhase :=
  startingRoom 5 [("alice", "AB"); ("bob", "CD")]%string.

Definition endgamePlayer (p : Player) (g : list EndgameLetterChoice)
  : EndgamePlayer :=
  mkEndgamePlayer (name p) (hand p) (hintsGiven p) g false.

(** Alice's installed guess claims the wildcard. *)
Definition endgameSample : EndgamePhase :=
  mkEndgame 3 [] ["G"%char] [] 0
    [endgamePlayer alice [ChoicePlayer 0; ChoiceWildcard];
     endgamePlayer bob []].

(** *** The engine on the samples *)

Example giveHint_involving_players :
  exists g', giveHint mapNthInRange proposingSample hintFor12 rng0
             = Ok (resolvingRoom
                     (mkStarted 3
                        [alice; bob;
                         mkPlayer "carol" (hand carol) 1]
                        [mkDummy "E"%char 7] ["G"%char] 11 []
                        (mkResolving hintFor12 [] [0; 0; 0])), g').
Proof. exists rng0. vm_compute. reflexivity. Qed.

Example setFinalGuess_accepts :
  setFinalGuess mapNthInRange endgameSample 2 [ChoicePlayer 1; ChoiceBonus "G"%char]
  = Ok (Some
          (mkEndgame 3 [] ["G"%char] [] 0
             [endgamePlayer alice [ChoicePlayer 0; ChoiceWildcard];
              endgamePlayer bob [ChoicePlayer 1; ChoiceBonus "G"%char]])).
Proof. vm_compute. reflexivity. Qed.

Example setFinalGuess_out_of_room :
  setFinalGuess mapNthInRange endgameSample 3 [] = Err TypeError.
Proof. vm_compute. reflexivity. Qed.

(** *** Legality gating on the samples *)

(** Alice's exposed letter is A; a hint that claims B from her is thrown
    out as illegal.  A hint that names a fifth dummy after a wildcard
    fails on reading that dummy, and a hint of two wildcards is
    accepted. *)
Lemma giveHint_rejects_mismatch_witness :
  giveHint mapNthInRange proposingSample (mkHint 2 [SrcPlayer "B"%char 1])
           rng0
  = Err IllegalHint
  /\ giveHint mapNthInRange proposingSample
              (mkHint 2 [SrcWildcard; SrcDummy "A"%char 5]) rng0
     = Err TypeError
  /\ exists r g',
      giveHint mapNthInRange proposingSample
               (mkHint 2 [SrcWildcard; SrcWildcard]) rng0
      = Ok (r, g').
Proof.
  split; [| split].
  - apply (proj1 (proj2 (giveHint_rejects_mismatch mapNthInRange
                           proposingSample
                           (mkHint 2 [SrcPlayer "B"%char 1]) rng0))
                 [] (SrcPlayer "B"%char 1) []);
      [reflexivity | constructor |].
    exists alice. split; [reflexivity | discriminate].
  - apply (proj1 (proj2 (proj2 (giveHint_rejects_mismatch mapNthInRange
                                  proposingSample
                                  (mkHint 2 [SrcWildcard;
                                             SrcDummy "A"%char 5]) rng0)))
                 [SrcWildcard] (SrcDummy "A"%char 5) []);
      [reflexivity | repeat constructor |].
    intros [d Hd]. discriminate.
  - apply (proj2 (proj2 (proj2 (proj2
             (giveHint_rejects_mismatch mapNthInRange proposingSample
                (mkHint 2 [SrcWildcard; SrcWildcard]) rng0))))).
    + simpl. lia.
    + repeat constructor.
Defined.

(** The bonus letter B is absent from the pool, yet the exception is not
    the illegal-hint error: the hint first names a fifth dummy, which the
    room does not have, and reading its letter fails. *)
Lemma giveHint_missing_dummy_counterexample :
  Exists (mismatched proposingSample) [SrcDummy "A"%char 5; SrcBonus "B"%char]
  /\ giveHint mapNthInRange proposingSample
              (mkHint 1 [SrcDummy "A"%char 5; SrcBonus "B"%char]) rng0
     = Err TypeError
  /\ giveHint mapNthInRange proposingSample
              (mkHint 1 [SrcDummy "A"%char 5; SrcBonus "B"%char]) rng0
     <> Err IllegalHint.
Proof.
  split; [| split; [reflexivity | discriminate]].
  apply Exists_cons_tl, Exists_cons_hd. simpl.
  intros Hin. apply list_elem_of_singleton in Hin. discriminate.
Qed.

(** *** Resolve completion on the samples *)

Lemma resolve_completion_two_players_witness :
  (exists r1 g1 r2 g2,
      performResolveAction resolvingSample (mkAction 1 FLIP) rng0
      = Ok (resolvingRoom r1, g1)
      /\ performResolveAction r1 (mkAction 2 NONE) g1 = Ok (r2, g2)
      /\ activeHint r2 = PROPOSING (mkProposing ∅)
      /\ hintsRemaining r2 = hintsRemaining resolvingSample - 1)
  /\ (exists r1 g1 r2 g2,
         performResolveAction resolvingSample (mkAction 2 NONE) rng0
         = Ok (resolvingRoom r1, g1)
         /\ performResolveAction r1 (mkAction 1 FLIP) g1 = Ok (r2, g2)
         /\ activeHint r2 = PROPOSING (mkProposing ∅)
         /\ hintsRemaining r2 = hintsRemaining resolvingSample - 1).
Proof.
  apply (resolve_completion_two_players resolvingSample
           (mkAction 1 FLIP) (mkAction 2 NONE) rng0).
  - intros n. simpl. split.
    + intros [letter Hin].
      repeat (apply elem_of_cons in Hin as [Hin | Hin];
              [first [discriminate | injection Hin as _ ->; auto] | ]).
      inversion Hin.
    + intros [-> | ->].
      * exists "A"%char. left.
      * exists "C"%char. right. left.
  - intros a Ha. inversion Ha.
  - simpl. lia.
  - intros [|k] d Hk _; simpl in Hk.
    + injection Hk as <-. discriminate.
    + inversion Hk.
  - reflexivity.
  - reflexivity.
Defined.

(** Carol is not cited by the hint, and her flip is applied all the same. *)
Lemma performResolveAction_unchecked_witness :
  exists p r' g',
    lookupZ (players resolvingSample) (3 - 1) = Some p
    /\ performResolveAction resolvingSample (mkAction 3 FLIP) rng0
       = Ok (r', g')
    /\ recordedActions r' = [mkAction 3 FLIP]
    /\ players r'
       = <[2%nat := mkPlayer (name p)
                      (spec_handEffect 3 FLIP (hand p) (drawLetter rng0))
                      (hintsGiven p)]> [alice; bob; carol].
Proof.
  apply (performResolveAction_unchecked resolvingSample (mkAction 3 FLIP) rng0).
  simpl. lia.
Defined.

Example unchecked_flip_of_uninvolved_player :
  exists g',
    performResolveAction resolvingSample (mkAction 3 FLIP) rng0
    = Ok (resolvingRoom
            (mkStarted 3
               [alice; bob;
                mkPlayer "carol"
                         (mkHand ["H"; "I"; "K"]%char [None; None; None] 1) 0]
               [mkDummy "E"%char 7] ["G"%char] 11 []
               (mkResolving hintFor12 [mkAction 3 FLIP] [0; 0; 0])), g').
Proof. exists rng0. vm_compute. reflexivity. Qed.

(** *** Dummies on the samples *)

(** Two consumed dummies stand at 1: the resolution nets one hint more,
    not zero. *)
Lemma fullyResolveHint_two_free_hints_counterexample :
  dummyConsumed (hint (activeHint twoDummiesAtOne)) 0
  /\ dummies twoDummiesAtOne !! 0%nat = Some (mkDummy "E"%char 1)
  /\ match fullyResolveHint twoDummiesAtOne rng0 with
     | Ok (r', _) =>
         hintsRemaining r' = hintsRemaining twoDummiesAtOne + 1
         /\ hintsRemaining r' <> hintsRemaining twoDummiesAtOne
     | Err _ => False
     end.
Proof.
  split; [exists "E"%char; left |]. split; [reflexivity |].
  vm_compute. split; [reflexivity | discriminate].
Qed.

Lemma fullyResolveHint_dummies_witness :
  exists r' g',
    fullyResolveHint oneDummyAtOne rng0 = Ok (r', g')
    /\ hintsRemaining r' = hintsRemaining oneDummyAtOne.
Proof.
  destruct (fullyResolveHint_dummies oneDummyAtOne rng0)
    as (r' & g' & Hrun & _ & _ & _ & Hnet).
  exists r', g'. split; [exact Hrun |].
  apply (Hnet 0%nat (mkDummy "E"%char 1)).
  - reflexivity.
  - exists "E"%char. left.
  - reflexivity.
  - intros [|[|k']] d' Hne Hk _; simpl in Hk.
    + contradiction.
    + injection Hk as <-. discriminate.
    + inversion Hk.
Defined.

(** *** Starting the game on the samples *)

(** A ready room of four players gets two dummies, with the countdowns 7
    and 8, not a single dummy with the countdown 8. *)
Lemma startGameRoom_four_players_counterexample :
  isRoomReady fourPlayers = true
  /\ length (splayers fourPlayers) = 4%nat
  /\ match startGameRoom shuffleRev fourPlayers rng0 with
     | Ok (r', _) =>
         map untilFreeHint (dummies r') = [7; 8]
         /\ length (dummies r') <> 1%nat
         /\ map untilFreeHint (dummies r') <> [8]
     | Err _ => False
     end.
Proof.
  split; [reflexivity |]. split; [reflexivity |].
  vm_compute. split; [reflexivity |]. split; discriminate.
Qed.

Lemma startGameRoom_dummies_witness :
  isRoomReady twoPlayers = true
  /\ exists r' g',
      startGameRoom shuffleRev twoPlayers rng0 = Ok (r', g')
      /\ map untilFreeHint (dummies r') = [7; 8; 9; 10].
Proof.
  split; [reflexivity |].
  destruct (startGameRoom_dummies shuffleRev shuffleRev_permutes twoPlayers
              rng0 eq_refl)
    as (r' & g' & Hrun & _ & _ & _ & H2).
  exists r', g'. split; [exact Hrun | apply H2; reflexivity].
Defined.

(** Every word of the room is set, but a room of one player does not
    start; and a room whose words are shorter than its word length deals
    one null guess per letter of the word, not [wordLength] of them. *)
Lemma startGameRoom_not_ready_counterexample :
  (forallb (fun p => match word p with Some _ => true | None => false end)
           (splayers onePlayer) = true
   /\ startGameRoom shuffleRev onePlayer rng0 = Err WrongNumberOfPlayers)
  /\ (isRoomReady shortWords = true
      /\ match startGameRoom shuffleRev shortWords rng0 with
         | Ok (r', _) =>
             wordLength r' = 5
             /\ map (fun p => guesses (hand p)) (players r')
                = [[None; None]; [None; None]]
         | Err _ => False
         end).
Proof.
  split; (split; [reflexivity |]); [reflexivity |].
  vm_compute. split; reflexivity.
Qed.

Lemma startGameRoom_deals_previous_word_witness :
  isRoomReady twoPlayers = true
  /\ exists r' g' q,
      startGameRoom shuffleRev twoPlayers rng0 = Ok (r', g')
      /\ players r' !! 0%nat = Some q
      /\ Permutation (letters (hand q)) (list_ascii_of_string "DOG")
      /\ guesses (hand q) = [None; None; None]
      /\ hintsRemaining r' = 11.
Proof.
  split; [reflexivity |].
  destruct (startGameRoom_deals_previous_word shuffleRev shuffleRev_permutes
              twoPlayers rng0 eq_refl)
    as (r' & g' & Hrun & _ & _ & Hat & _ & Hhr & _).
  destruct (Hat 0%nat (mkStartingPlayer "alice" (Some "CAT"%string)) eq_refl)
    as (q & previous & w & Hq & Hprev & Hw & _ & Hperm & Hg & _).
  injection Hprev as <-. injection Hw as <-.
  exists r', g', q. auto.
Defined.

(** *** Hints without players on the samples *)

Lemma giveHint_auto_resolves_witness :
  exists r' g',
    giveHint mapNthInRange proposingSample
             (mkHint 3 [SrcDummy "E"%char 1; SrcBonus "G"%char; SrcWildcard])
             rng0
    = Ok (r', g')
    /\ activeHint r' = PROPOSING (mkProposing ∅)
    /\ hintsRemaining r' = 11 - 1 + 0
    /\ length (hintLog r') = 1%nat
    /\ S (count_occ Letter_eq_dec (bonuses r') "G"%char)
       = count_occ Letter_eq_dec (bonuses proposingSample) "G"%char.
Proof.
  destruct (giveHint_auto_resolves mapNthInRange mapNthInRange_in_range
              proposingSample
              (mkHint 3 [SrcDummy "E"%char 1; SrcBonus "G"%char; SrcWildcard])
              rng0)
    as (p & r' & g' & _ & Hrun & Hah & _ & Hlog & Hhr & _ & _ & Hbonus & _).
  - repeat constructor. exists (mkDummy "E"%char 7). split; reflexivity.
  - intros letter n Hin.
    repeat (apply elem_of_cons in Hin as [Hin | Hin]; [discriminate |]).
    inversion Hin.
  - simpl. lia.
  - exists r', g'. split; [exact Hrun |]. split; [exact Hah |].
    split; [exact Hhr |]. split; [rewrite Hlog; reflexivity |].
    apply (proj1 (Hbonus "G"%char)). right. left.
Defined.

Lemma bonus_cited_twice_consumed_once_witness :
  checkHint proposingSample [SrcBonus "G"%char; SrcBonus "G"%char] = Ok tt
  /\ exists r' g',
      giveHint mapNthInRange proposingSample
               (mkHint 3 [SrcBonus "G"%char; SrcBonus "G"%char]) rng0
      = Ok (r', g')
      /\ S (count_occ Letter_eq_dec (bonuses r') "G"%char)
         = count_occ Letter_eq_dec ["G"%char] "G"%char.
Proof.
  apply (proj2 (bonus_cited_twice_consumed_once mapNthInRange)
               proposingSample 3 1%nat rng0 "G"%char).
  - left.
  - simpl. lia.
Defined.

(** *** The endgame on the samples *)

Lemma moveToEndgame_spec_witness :
  ehintsRemaining (moveToEndgame (resolvingRoom resolvingSample)) = 0
  /\ exists q,
      eplayers (moveToEndgame (resolvingRoom resolvingSample)) !! 0%nat
      = Some q
      /\ letters (ehand q) = ["A"; "B"; "C"]%char
      /\ activeIndex (ehand q) = 3
      /\ guess q = []
      /\ committed q = false.
Proof.
  destruct (moveToEndgame_spec (resolvingRoom resolvingSample))
    as (_ & _ & _ & _ & Hhr & _ & Hat).
  split; [exact Hhr |].
  destruct (Hat 0%nat alice eq_refl)
    as (q & Hq & _ & _ & _ & Hletters & Hai & _ & Hguess & Hcommitted).
  exists q. split; [exact Hq |].
  split; [apply Hletters; simpl; lia |]. auto.
Defined.

(** Alice holds the wildcard; bob's guess that claims it too is rejected. *)
Lemma setFinalGuess_wildcard_exclusive_witness :
  setFinalGuess mapNthInRange endgameSample 2 [ChoicePlayer 0; ChoiceWildcard]
  = Ok None.
Proof.
  destruct (setFinalGuess_wildcard_exclusive mapNthInRange
              mapNthInRange_in_range endgameSample 2
              [ChoicePlayer 0; ChoiceWildcard])
    as (p & _ & _ & Hreject).
  - simpl. lia.
  - apply Hreject.
    + right. left.
    + exists 0%nat, (endgamePlayer alice [ChoicePlayer 0; ChoiceWildcard]).
      split; [discriminate |]. split; [reflexivity |]. right. left.
Defined.

(** * The rest of the engine

    The functions of [gameLogic.tsx] that the properties above do not
    reach, and the join guard of [gameHook.tsx], with what the code shows
    of their behaviour. *)

(** ** Further definitions *)

(** [enum ResolveActionChoice] *)
Module ResolveActionChoice.
Inductive t : Type :=
| UNINVOLVED   (* The player was not involved, so there is nothing to do. *)
| DONE         (* The player already made a choice. *)
| FLIP         (* The player must choose to flip or not flip their card. *)
| GUESS.       (* The player must guess their bonus letter. *)
End ResolveActionChoice.

(** What [whichResolveActionRequired] returns or throws: the error
    "Inconsistent state: hand has illegal length", with that length, or the
    fault of reading the hand of a player that is not there. *)
Inductive RequiredAction : Type :=
| Required (choice : ResolveActionChoice.t)
| InconsistentState (handLength : Z)
| RequiredFault.

Definition whichResolveActionRequired (room : ResolvingHintPhase)
  (playerName : string) : RequiredAction :=
  let h := hint (activeHint room) in
  match getPlayerNumber room playerName with
  | None => Required ResolveActionChoice.UNINVOLVED
  | Some playerNumber =>
      if negb (existsb (fun letterAndSource =>
                          match letterAndSource with
                          | SrcPlayer _ n => bool_decide (n = playerNumber)
                          | _ => false
                          end) (lettersAndSources h))
      then Required ResolveActionChoice.UNINVOLVED
      else if existsb (fun action => bool_decide (player action = playerNumber))
                      (playerActions (activeHint room))
      then Required ResolveActionChoice.DONE
      else
        match lookupZ (players room) (playerNumber - 1) with
        | None => RequiredFault
        | Some p =>
            let handLength := Z.of_nat (length (letters (hand p))) in
            if decide (wordLength room <> handLength) then
              if decide (handLength <> wordLength room + 1)
              then InconsistentState handLength
              else Required ResolveActionChoice.GUESS
            else Required ResolveActionChoice.FLIP
        end
  end.

(** Modelled from the spec: the type [HintSpecs] of [./gameTypes] is not
    part of the sources at hand; its fields are those [specsOfHint]
    returns. *)
Record HintSpecs : Type := mkHintSpecs {
  specLength : Z;
  specPlayers : Z;
  specWildcard : bool;
  specDummies : Z;
  specBonuses : Z;
}.

(** The keys of the three objects that [specsOfHint] fills, and its flag;
    [Object.keys(o).length] is the number of distinct keys. *)
Definition specPlayerKeys (ls : list LetterAndSource) : gset Z :=
  foldl (fun (s : gset Z) l =>
           match l with
           | SrcPlayer _ playerNumber => {[playerNumber]} ∪ s
           | _ => s
           end) ∅ ls.
Definition specDummyKeys (ls : list LetterAndSource) : gset Z :=
  foldl (fun (s : gset Z) l =>
           match l with
           | SrcDummy _ dummyNumber => {[dummyNumber]} ∪ s
           | _ => s
           end) ∅ ls.
Definition specBonusKeys (ls : list LetterAndSource) : gset ascii :=
  foldl (fun (s : gset ascii) l =>
           match l with
           | SrcBonus letter => {[letter]} ∪ s
           | _ => s
           end) ∅ ls.
Definition specWildcardFlag (ls : list LetterAndSource) : bool :=
  foldl (fun (w : bool) l =>
           match l with
           | SrcWildcard => true
           | _ => w
           end) false ls.

Definition specsOfHint (h : Hint) : HintSpecs :=
  mkHintSpecs (Z.of_nat (length (lettersAndSources h)))
              (Z.of_nat (size (specPlayerKeys (lettersAndSources h))))
              (specWildcardFlag (lettersAndSources h))
              (Z.of_nat (size (specDummyKeys (lettersAndSources h))))
              (Z.of_nat (size (specBonusKeys (lettersAndSources h)))).

(** [enum JoinRoomStatus] of [gameHook.tsx] *)
Inductive JoinRoomStatus : Type :=
| JOINING     (* We are actively trying to join the room. *)
| JOINED      (* We are a member of the room! *)
| ROOM_FULL.  (* The room is full :( *)

(** The status that [useJoinRoom] derives from the room and the name of the
    player, and the room it submits while joining. *)
Definition joinRoomStatus (room : StartingPhase) (playerName : string)
  : JoinRoomStatus :=
  if existsb (fun p => bool_decide (sname p = playerName)) (splayers room)
  then JOINED
  else if bool_decide (MAX_PLAYERS <= Z.of_nat (length (splayers room)))
  then ROOM_FULL
  else JOINING.

Definition joinRoomCommit (room : StartingPhase) (playerName : string)
  : option StartingPhase :=
  match joinRoomStatus room playerName with
  | JOINING => Some (addPlayerToRoom room playerName)
  | _ => None
  end.

(** ** Setting up a room *)

Lemma existsb_name_false (ps : list StartingPlayer) (playerName : string) :
  existsb (fun p => bool_decide (sname p = playerName)) ps = false
  <-> forall p, p ∈ ps -> sname p <> playerName.
Proof.
  induction ps as [|x ps IH]; simpl.
  - split; [intros _ p Hp; inversion Hp | reflexivity].
  - rewrite orb_false_iff, IH, bool_decide_eq_false. split.
    + intros [Hx Hps] p Hp. apply elem_of_cons in Hp as [-> | Hp]; auto.
    + intros Hall. split; [apply Hall; left |].
      intros p Hp. apply Hall. right. exact Hp.
Qed.

(** X1.  [setPlayerWord] keeps the word length, the number and the names
    of the players; it changes nothing when no player has the name, and a
    second call for the same name overrides the first. *)
Theorem setPlayerWord_names_and_overwrite (room : StartingPhase)
  (playerName : string) (w1 w2 : option string) :
  swordLength (setPlayerWord room playerName w2) = swordLength room
  /\ map sname (splayers (setPlayerWord room playerName w2))
     = map sname (splayers room)
  /\ ((forall p, p ∈ splayers room -> sname p <> playerName) ->
      setPlayerWord room playerName w2 = room)
  /\ setPlayerWord (setPlayerWord room playerName w1) playerName w2
     = setPlayerWord room playerName w2.
Proof.
  unfold setPlayerWord. simpl. split; [reflexivity |]. split; [| split].
  - rewrite map_map. apply map_ext. intros p.
    destruct (decide (sname p = playerName)) as [<- | _]; reflexivity.
  - intros Habsent. destruct room as [wl ps]. simpl in *. f_equal.
    rewrite <- (map_id ps) at 2. apply map_ext_in.
    intros p Hp. apply list_elem_of_In in Hp.
    destruct (decide (sname p = playerName)) as [Heq | _]; [| reflexivity].
    destruct (Habsent p Hp Heq).
  - f_equal. rewrite map_map. apply map_ext. intros p.
    destruct (decide (sname p = playerName)) as [Heq | Hne]; simpl.
    + destruct (decide (playerName = playerName)); [reflexivity | contradiction].
    + destruct (decide (sname p = playerName)); [contradiction | reflexivity].
Qed.

(** X2.  [removePlayerFromRoom] drops every player of that name and keeps
    the others; it undoes [addPlayerToRoom] for a name that was not in the
    room. *)
Theorem removePlayerFromRoom_undoes_add (room : StartingPhase)
  (playerName : string) :
  (forall p, p ∈ splayers (removePlayerFromRoom room playerName)
             <-> p ∈ splayers room /\ sname p <> playerName)
  /\ ((forall p, p ∈ splayers room -> sname p <> playerName) ->
      removePlayerFromRoom (addPlayerToRoom room playerName) playerName
      = room).
Proof.
  split.
  - intros p. unfold removePlayerFromRoom. simpl.
    rewrite list_elem_of_filter. tauto.
  - intros Habsent. unfold removePlayerFromRoom, addPlayerToRoom.
    destruct room as [wl ps]. simpl in *. f_equal.
    rewrite filter_app, filter_cons, filter_nil. simpl.
    rewrite decide_False by (intros Hne; apply Hne; reflexivity).
    rewrite app_nil_r.
    induction ps as [|x ps IH]; [reflexivity |].
    rewrite filter_cons, decide_True by (apply Habsent; left).
    f_equal. apply IH. intros p Hp. apply Habsent. right. exact Hp.
Qed.

(** X3.  The join guard of [useJoinRoom]: a room is submitted exactly when
    the name is not in the room and the room holds fewer than
    [MAX_PLAYERS] players; the room submitted then holds at most
    [MAX_PLAYERS] players, has the player joined, and is not ready. *)
Theorem joinRoomCommit_within_cap (room : StartingPhase) (playerName : string) :
  (joinRoomCommit room playerName = None
   <-> (exists p, p ∈ splayers room /\ sname p = playerName)
       \/ MAX_PLAYERS <= Z.of_nat (length (splayers room)))
  /\ forall room',
       joinRoomCommit room playerName = Some room' ->
       Z.of_nat (length (splayers room')) <= MAX_PLAYERS
       /\ joinRoomStatus room' playerName = JOINED
       /\ joinRoomCommit room' playerName = None
       /\ isRoomReady room' = false.
Proof.
  unfold joinRoomCommit, joinRoomStatus.
  destruct (existsb _ (splayers room)) eqn:Hin.
  - split.
    + split; [intros _; left | reflexivity].
      apply existsb_exists in Hin as (p & Hp & Heq).
      apply bool_decide_eq_true_1 in Heq.
      exists p. split; [apply list_elem_of_In; exact Hp | exact Heq].
    + discriminate.
  - pose proof (proj1 (existsb_name_false _ _) Hin) as Habsent.
    clear Hin. rename Habsent into Hin.
    destruct (bool_decide (MAX_PLAYERS <= _)) eqn:Hfull.
    + apply bool_decide_eq_true_1 in Hfull. split; [| discriminate].
      split; [intros _; right; exact Hfull | reflexivity].
    + apply bool_decide_eq_false_1 in Hfull. split.
      * split; [discriminate |].
        intros [(p & Hp & Heq) | Hcap]; [destruct (Hin p Hp Heq) | lia].
      * intros room' [= <-]. unfold addPlayerToRoom. simpl.
        rewrite length_app. simpl.
        assert (Hjoined :
                  existsb (fun p => bool_decide (sname p = playerName))
                          (splayers room ++ [mkStartingPlayer playerName None])
                  = true).
        { rewrite existsb_app. simpl.
          rewrite (bool_decide_eq_true_2 (playerName = playerName) eq_refl).
          rewrite orb_true_r. reflexivity. }
        rewrite Hjoined. split; [lia |]. split; [reflexivity |].
        split; [reflexivity |].
        unfold isRoomReady. simpl. rewrite forallb_app. simpl.
        rewrite andb_false_r. reflexivity.
Qed.

Section EngineMore.

(** The parameters of the engine, as before. *)
Variable mapNth : forall A : Type, list A -> Z -> (A -> A) -> list A.
Variable shuffle : string -> M (list Letter).

Hypothesis mapNth_inside :
  forall (A : Type) (l : list A) (n : Z) (f : A -> A) (x : A),
    lookupZ l n = Some x -> mapNth A l n f = <[Z.to_nat n := f x]> l.

Hypothesis shuffle_perm :
  forall (w : string) (g : Rng),
    exists ls g', shuffle w g = Ok (ls, g')
                  /\ Permutation ls (list_ascii_of_string w).

(** [setHandGuess], on a room of the hinting phase.  The fallback for a
    hand without [guesses] does not arise: a hand of this model always has
    the array, and an array, even empty, is truthy. *)
Definition setHandGuess {H} (room : StartedPhase H) (playerNumber : Z)
  (index : Z) (g : option Letter) : StartedPhase H :=
  mkStarted (wordLength room)
    (mapNth Player (players room) (playerNumber - 1)
       (fun p =>
          mkPlayer (name p)
            (mkHand (letters (hand p))
                    (mapNth (option Letter) (guesses (hand p)) index
                            (fun _ => g))
                    (activeIndex (hand p)))
            (hintsGiven p)))
    (dummies room) (bonuses room) (hintsRemaining room) (hintLog room)
    (activeHint room).

Definition commitFinalGuess (room : EndgamePhase) (playerNumber : Z)
  : EndgamePhase :=
  mkEndgame (ewordLength room) (edummies room) (ebonuses room)
    (ehintLog room) (ehintsRemaining room)
    (mapNth EndgamePlayer (eplayers room) (playerNumber - 1)
       (fun p => mkEndgamePlayer (ename p) (ehand p) (ehintsGiven p)
                                 (guess p) true)).

(** ** Starting a room that is not ready *)

Lemma mapMFrom_fails {A B} (f : Z -> A -> M B) (e : Error) (l : list A) :
  forall (n : nat) (g : Rng),
    (forall (k : nat) x g0, l !! k = Some x ->
       (exists y g1, f (Z.of_nat (n + k)) x g0 = Ok (y, g1))
       \/ f (Z.of_nat (n + k)) x g0 = Err e) ->
    (exists (k : nat) x, l !! k = Some x
                         /\ forall g0, f (Z.of_nat (n + k)) x g0 = Err e) ->
    mapMFrom f (Z.of_nat n) l g = Err e.
Proof.
  induction l as [|x l IH]; intros n g Hall (k & xk & Hk & Hfail);
    [inversion Hk |].
  simpl. unfold bind.
  destruct (Hall 0%nat x g eq_refl) as [(y & g1 & Hy) | Hy];
    rewrite Nat.add_0_r in Hy; rewrite Hy; [| reflexivity].
  destruct k as [|k].
  - injection Hk as <-. specialize (Hfail g).
    rewrite Nat.add_0_r in Hfail. congruence.
  - replace (Z.of_nat n + 1) with (Z.of_nat (S n)) by lia.
    rewrite IH; [reflexivity | |].
    + intros k' x' g0 Hk'.
      replace (S n + k')%nat with (n + S k')%nat by lia.
      apply Hall. exact Hk'.
    + exists k, xk. split; [exact Hk |]. intros g0.
      replace (S n + k)%nat with (n + S k)%nat by lia. apply Hfail.
Qed.

(** The hand dealt at position [k] depends on the word of the previous
    player alone. *)
Lemma dealHand_cases (room : StartingPhase) (k : nat) (p : StartingPlayer)
  (g : Rng) :
  splayers room !! k = Some p ->
  exists previous,
    splayers room
      !! ((k + length (splayers room) - 1) mod length (splayers room))%nat
    = Some previous
    /\ dealHand shuffle room (Z.of_nat k) p g
       = match word previous with
         | None => Err RoomNotReady
         | Some w =>
             match shuffle w g with
             | Ok (ls, g') =>
                 Ok (mkPlayer (sname p)
                       (mkHand ls
                          (map (fun _ => None) (list_ascii_of_string w)) 0)
                       0, g')
             | Err e => Err e
             end
         end.
Proof.
  intros Hk.
  pose proof (lookup_lt_Some _ _ _ Hk) as Hlt.
  set (len := length (splayers room)) in *.
  assert (Hidx : Z.rem (Z.of_nat k + Z.of_nat len - 1) (Z.of_nat len)
                 = Z.of_nat ((k + len - 1) mod len)).
  { rewrite Z.rem_mod_nonneg by lia.
    rewrite Nat2Z.inj_mod. f_equal. lia. }
  assert (Hprev : is_Some (splayers room !! ((k + len - 1) mod len)%nat)).
  { apply lookup_lt_is_Some. apply Nat.mod_upper_bound. lia. }
  destruct Hprev as [previous Hprev]. exists previous.
  split; [exact Hprev |].
  unfold dealHand. fold len. rewrite Hidx.
  unfold lookupZ. destruct (decide _) as [_ | Hneg]; [| lia].
  rewrite Nat2Z.id, Hprev.
  destruct (word previous) as [w|]; [| reflexivity].
  unfold bind, ret. destruct (shuffle w g) as [[ls g']|e]; reflexivity.
Qed.

(** Every player is the previous player of some position. *)
Lemma previous_player_onto (len j : nat) :
  (j < len)%nat ->
  exists k : nat, (k < len)%nat /\ ((k + len - 1) mod len)%nat = j.
Proof.
  intros Hj. destruct (decide (S j < len)%nat) as [Hlt | Hge].
  - exists (S j). split; [exact Hlt |].
    replace (S j + len - 1)%nat with (j + 1 * len)%nat by lia.
    rewrite Nat.Div0.mod_add. apply Nat.mod_small. exact Hj.
  - exists 0%nat. split; [lia |].
    replace (0 + len - 1)%nat with j by lia. apply Nat.mod_small. exact Hj.
Qed.

Lemma forallb_word_false (ps : list StartingPlayer) :
  forallb (fun p => match word p with Some _ => true | None => false end) ps
  = false
  <-> exists (j : nat) p, ps !! j = Some p /\ word p = None.
Proof.
  induction ps as [|x ps IH]; simpl.
  - split; [discriminate | intros (j & p & Hj & _); inversion Hj].
  - rewrite andb_false_iff, IH. split.
    + intros [Hx | (j & p & Hj & Hp)].
      * exists 0%nat, x. split; [reflexivity |].
        destruct (word x); [discriminate | reflexivity].
      * exists (S j), p. auto.
    + intros ([|j] & p & Hj & Hp); simpl in Hj.
      * injection Hj as ->. left. rewrite Hp. reflexivity.
      * right. eauto.
Qed.

Lemma dummyLettersForFreeHint_wrong (n : nat) :
  ~ (2 <= Z.of_nat n <= 6) ->
  dummyLettersForFreeHint (Z.of_nat n) = Err WrongNumberOfPlayers.
Proof.
  intros Hout.
  destruct n as [|[|[|[|[|[|[|n]]]]]]]; try reflexivity; try lia.
  unfold dummyLettersForFreeHint.
  destruct (Z.of_nat (S (S (S (S (S (S (S n)))))))) as [|q|q] eqn:Hq;
    try reflexivity.
  destruct q as [[q|q|]|[q|q|]|]; try reflexivity; try lia;
    destruct q; try reflexivity; lia.
Qed.

Lemma startGameRoom_error (room : StartingPhase) (g : Rng) :
  isRoomReady room = false ->
  startGameRoom shuffle room g
  = Err (if forallb (fun p => match word p with
                              | Some _ => true
                              | None => false
                              end) (splayers room)
         then WrongNumberOfPlayers else RoomNotReady).
Proof.
  intros Hnot.
  destruct (forallb _ (splayers room)) eqn:Hwords.
  - assert (Hall : forall p, p ∈ splayers room -> word p <> None).
    { intros p Hp Hnone. apply list_elem_of_In in Hp.
      rewrite forallb_forall in Hwords. specialize (Hwords p Hp).
      rewrite Hnone in Hwords. discriminate. }
    destruct (mapMFrom_spec (dealHand shuffle room) (dealtFrom room)
                (splayers room) 0%nat g) as (ps & g1 & Hps & _ & _).
    { intros k x g0 Hk. apply dealHand_spec; assumption. }
    unfold startGameRoom, bind. change (Z.of_nat 0) with 0 in Hps.
    rewrite Hps. unfold liftR.
    rewrite dummyLettersForFreeHint_wrong; [reflexivity |].
    intros Hlen. unfold isRoomReady, MIN_PLAYERS, MAX_PLAYERS in Hnot.
    rewrite Hwords in Hnot. simpl in Hnot.
    apply andb_false_iff in Hnot as [Hmin | Hmax].
    + apply bool_decide_eq_false_1 in Hmin. lia.
    + apply bool_decide_eq_false_1 in Hmax. lia.
  - apply forallb_word_false in Hwords as (j & pj & Hj & Hnone).
    unfold startGameRoom, bind. change 0 with (Z.of_nat 0).
    rewrite (mapMFrom_fails (dealHand shuffle room) RoomNotReady
               (splayers room) 0%nat g); [reflexivity | |].
    + intros k x g0 Hk. simpl.
      destruct (dealHand_cases room k x g0 Hk) as (previous & _ & ->).
      destruct (word previous) as [w|]; [| auto].
      destruct (shuffle_perm w g0) as (ls & g' & -> & _). eauto.
    + destruct (previous_player_onto (length (splayers room)) j
                  (lookup_lt_Some _ _ _ Hj)) as (k & Hk & Hprev).
      apply lookup_lt_is_Some in Hk as [x Hx].
      exists k, x. split; [exact Hx |]. intros g0. simpl.
      destruct (dealHand_cases room k x g0 Hx) as (previous & Hp & ->).
      rewrite Hprev, Hj in Hp. injection Hp as <-. rewrite Hnone.
      reflexivity.
Qed.

(** X4.  [startGameRoom] returns a room exactly when [isRoomReady] holds.
    Otherwise it throws "Room is not ready" when some player has no word,
    and "wrong number of players" when every word is set but the players
    are not between 2 and 6. *)
Theorem startGameRoom_succeeds_iff_ready (room : StartingPhase) (g : Rng) :
  ((exists r g', startGameRoom shuffle room g = Ok (r, g'))
   <-> isRoomReady room = true)
  /\ (isRoomReady room = false ->
      startGameRoom shuffle room g
      = Err (if forallb (fun p => match word p with
                                  | Some _ => true
                                  | None => false
                                  end) (splayers room)
             then WrongNumberOfPlayers else RoomNotReady)).
Proof.
  split; [| apply startGameRoom_error].
  split.
  - intros (r & g' & Hrun).
    destruct (isRoomReady room) eqn:Hready; [reflexivity |].
    rewrite (startGameRoom_error room g Hready) in Hrun. discriminate.
  - intros Hready.
    destruct (startGameRoom_spec shuffle shuffle_perm room g Hready)
      as (ps & countdowns & ds & g' & Hrun & _).
    eauto.
Qed.


(** ** Player numbers and proposed hints *)

Lemma getPlayerNumberFrom_Some (ps : list Player) (playerName : string) :
  forall (i n : Z),
    getPlayerNumberFrom i ps playerName = Some n
    <-> exists (k : nat) p,
          n = i + Z.of_nat k + 1
          /\ ps !! k = Some p /\ name p = playerName
          /\ forall (k' : nat) p', (k' < k)%nat -> ps !! k' = Some p' ->
                                   name p' <> playerName.
Proof.
  induction ps as [|x ps IH]; intros i n; simpl.
  - split; [discriminate | intros (k & p & _ & Hk & _); inversion Hk].
  - destruct (decide (name x = playerName)) as [Hx | Hx].
    + split.
      * intros [= <-]. exists 0%nat, x.
        split; [lia |]. split; [reflexivity |]. split; [exact Hx |].
        intros k' p' Hlt. lia.
      * intros (k & p & Hn & Hk & Hp & Hfirst).
        destruct k as [|k]; [f_equal; lia |].
        destruct (Hfirst 0%nat x); [lia | reflexivity | exact Hx].
    + rewrite IH. split.
      * intros (k & p & Hn & Hk & Hp & Hfirst).
        exists (S k), p. split; [lia |]. split; [exact Hk |].
        split; [exact Hp |].
        intros [|k'] p' Hlt Hk'; simpl in Hk'.
        -- injection Hk' as <-. exact Hx.
        -- apply (Hfirst k' p'); [lia | exact Hk'].
      * intros (k & p & Hn & Hk & Hp & Hfirst).
        destruct k as [|k]; simpl in Hk.
        -- injection Hk as <-. contradiction.
        -- exists k, p. split; [lia |]. split; [exact Hk |].
           split; [exact Hp |].
           intros k' p' Hlt Hk'. apply (Hfirst (S k') p'); [lia | exact Hk'].
Qed.

Lemma getPlayerNumberFrom_None (ps : list Player) (playerName : string) :
  forall i : Z,
    getPlayerNumberFrom i ps playerName = None
    <-> forall p, p ∈ ps -> name p <> playerName.
Proof.
  induction ps as [|x ps IH]; intros i; simpl.
  - split; [intros _ p Hp; inversion Hp | reflexivity].
  - destruct (decide (name x = playerName)) as [Hx | Hx].
    + split; [discriminate |]. intros Hall. destruct (Hall x); [left | exact Hx].
    + rewrite IH. split.
      * intros Hall p Hp. apply elem_of_cons in Hp as [-> | Hp]; auto.
      * intros Hall p Hp. apply Hall. right. exact Hp.
Qed.

(** The player number depends on the names of the players alone. *)
Lemma getPlayerNumberFrom_names (ps qs : list Player) (playerName : string) :
  map name ps = map name qs ->
  forall i, getPlayerNumberFrom i ps playerName
            = getPlayerNumberFrom i qs playerName.
Proof.
  revert qs. induction ps as [|x ps IH]; intros [|y qs] Hmap i;
    try discriminate; [reflexivity |].
  simpl in *. injection Hmap as Hxy Hmap. rewrite Hxy.
  destruct (decide (name y = playerName)); [reflexivity | apply IH, Hmap].
Qed.

(** X6.  [getPlayerNumber] returns the 1-based position of the first
    player of that name, which is a player of the room with that name, and
    [null] exactly when no player has the name. *)
Theorem getPlayerNumber_first_of_name {H} (room : StartedPhase H)
  (playerName : string) :
  (forall n, getPlayerNumber room playerName = Some n <->
             exists (k : nat) p,
               n = Z.of_nat k + 1
               /\ lookupZ (players room) (n - 1) = Some p
               /\ name p = playerName
               /\ forall (k' : nat) p', (k' < k)%nat ->
                                        players room !! k' = Some p' ->
                                        name p' <> playerName)
  /\ (getPlayerNumber room playerName = None
      <-> forall p, p ∈ players room -> name p <> playerName).
Proof.
  unfold getPlayerNumber. split; [| apply getPlayerNumberFrom_None].
  intros n. rewrite getPlayerNumberFrom_Some. split.
  - intros (k & p & Hn & Hk & Hp & Hfirst). exists k, p.
    split; [lia |]. split; [| auto].
    apply lookupZ_Some. split; [lia |].
    replace (Z.to_nat (n - 1)) with k by lia. exact Hk.
  - intros (k & p & Hn & Hk & Hp & Hfirst). exists k, p.
    split; [lia |]. split; [| auto].
    apply lookupZ_Some in Hk as [_ Hk].
    replace (Z.to_nat (n - 1)) with k in Hk by lia. exact Hk.
Qed.

(** X7.  [setProposedHint] throws "player not in room" exactly for a name
    that no player has.  For the player number [n] of the name it stores
    the hint under [n] and touches no other entry and no other field of
    the room; clearing afterwards removes the entry again. *)
Theorem setProposedHint_store_and_clear (room : ProposingHintPhase)
  (playerName : string) (h : Hint) :
  (getPlayerNumber room playerName = None
   <-> setProposedHint room playerName (Some h) = Err PlayerNotInRoom)
  /\ forall n,
       getPlayerNumber room playerName = Some n ->
       exists r1 r2,
         setProposedHint room playerName (Some h) = Ok r1
         /\ proposedHints (activeHint r1) !! n = Some h
         /\ (forall m, m <> n ->
                       proposedHints (activeHint r1) !! m
                       = proposedHints (activeHint room) !! m)
         /\ r1 = withActiveHint room (activeHint r1)
         /\ setProposedHint r1 playerName None = Ok r2
         /\ r2 = withActiveHint room
                   (mkProposing (delete n (proposedHints (activeHint room)))).
Proof.
  unfold setProposedHint. split.
  - destruct (getPlayerNumber room playerName);
      split; (discriminate || reflexivity).
  - intros n Hn. rewrite Hn.
    eexists _, _. split; [reflexivity |]. simpl.
    split; [apply lookup_insert_eq |].
    split; [intros m Hm; apply lookup_insert_ne; congruence |].
    split; [reflexivity |].
    unfold getPlayerNumber in *. simpl. rewrite Hn.
    split; [reflexivity |].
    unfold withActiveHint. simpl. rewrite delete_insert_eq. reflexivity.
Qed.

(** ** Giving a hint *)

Lemma outstanding_fresh (h : Hint) (idxs : list Z) (n : Z) :
  n ∈ playersWithOutstandingAction (mkResolving h [] idxs)
  <-> exists letter, SrcPlayer letter n ∈ lettersAndSources h.
Proof.
  rewrite elem_of_playersWithOutstandingAction. simpl. split.
  - intros [Hin _]. exact Hin.
  - intros Hin. split; [exact Hin |]. intros a Ha. inversion Ha.
Qed.

(** X8.  For a hint given by a player of the room, [giveHint] returns a
    room exactly when every letter of the hint matches its source; it
    throws otherwise. *)
Theorem giveHint_succeeds_iff_legal (room : ProposingHintPhase) (h : Hint)
  (g : Rng) :
  1 <= givenByPlayer h <= Z.of_nat (length (players room)) ->
  ((exists r g', giveHint mapNth room h g = Ok (r, g'))
   <-> Forall (matchesSource room) (lettersAndSources h))
  /\ (~ Forall (matchesSource room) (lettersAndSources h) ->
      exists e, giveHint mapNth room h g = Err e).
Proof.
  intros _.
  assert (Hfail : ~ Forall (matchesSource room) (lettersAndSources h) ->
                  exists e, giveHint mapNth room h g = Err e).
  { intros Hnot.
    destruct (checkHint room (lettersAndSources h)) as [[]|e] eqn:Hcheck.
    - destruct Hnot. apply checkHint_Ok, Hcheck.
    - exists e. apply giveHint_check_fails, Hcheck. }
  split; [| exact Hfail]. split.
  - intros (r & g' & Hrun).
    destruct (checkHint room (lettersAndSources h)) as [[]|e] eqn:Hcheck.
    + apply checkHint_Ok, Hcheck.
    + rewrite (giveHint_check_fails mapNth room h g e Hcheck) in Hrun.
      discriminate.
  - intros Hlegal. unfold giveHint, bind, liftR.
    rewrite (proj2 (checkHint_Ok room _) Hlegal). cbv beta iota.
    destruct (bool_decide _); [| unfold ret; eauto].
    match goal with
    | |- context [fullyResolveHint ?r g] =>
        destruct (fullyResolveHint_spec r g) as (ds' & g' & Hrun & _);
        rewrite Hrun
    end.
    unfold ret. eauto.
Qed.

(** X9.  A legal hint that cites at least one player, given by a player of
    the room, opens the resolution: [giveHint] draws nothing at random and
    returns a resolving room with no action recorded, the active index of
    every player snapshotted, one more hint given by the giver, and the
    other players, the dummies, the bonus letters, the remaining hints and
    the log as they were; the players it waits for are those the hint
    cites. *)
Theorem giveHint_opens_resolution (room : ProposingHintPhase) (h : Hint)
  (g : Rng) (letter : Letter) (n : Z) :
  Forall (matchesSource room) (lettersAndSources h) ->
  SrcPlayer letter n ∈ lettersAndSources h ->
  1 <= givenByPlayer h <= Z.of_nat (length (players room)) ->
  exists p r,
    lookupZ (players room) (givenByPlayer h - 1) = Some p
    /\ giveHint mapNth room h g = Ok (resolvingRoom r, g)
    /\ activeHint r
       = mkResolving h [] (map (fun p => activeIndex (hand p)) (players room))
    /\ players r
       = <[Z.to_nat (givenByPlayer h - 1) :=
             mkPlayer (name p) (hand p) (hintsGiven p + 1)]> (players room)
    /\ wordLength r = wordLength room
    /\ dummies r = dummies room
    /\ bonuses r = bonuses room
    /\ hintsRemaining r = hintsRemaining room
    /\ hintLog r = hintLog room
    /\ forall m, m ∈ playersWithOutstandingAction (activeHint r)
                 <-> exists l, SrcPlayer l m ∈ lettersAndSources h.
Proof.
  intros Hlegal Hcited Hgiver.
  assert (Hp : is_Some (lookupZ (players room) (givenByPlayer h - 1)))
    by (apply lookupZ_is_Some; lia).
  destruct Hp as [p Hp]. exists p.
  unfold giveHint, bind, liftR.
  rewrite (proj2 (checkHint_Ok room _) Hlegal). cbv beta iota.
  cbn [activeHint].
  rewrite bool_decide_eq_false_2.
  2:{ rewrite size_empty_iff. intros Hempty.
      apply (not_elem_of_empty (C:=gset Z) n), Hempty.
      apply outstanding_fresh. eauto. }
  eexists. split; [exact Hp |]. split; [reflexivity |]. simpl.
  split; [reflexivity |].
  split; [rewrite (mapNth_inside _ _ _ _ p Hp); reflexivity |].
  repeat (split; [reflexivity |]).
  intros m. apply outstanding_fresh.
Qed.

(** ** The players a resolution waits for *)

Lemma outstanding_snoc (h : Hint) (acts : list ResolveAction)
  (a : ResolveAction) (idxs : list Z) :
  playersWithOutstandingAction (mkResolving h (acts ++ [a]) idxs)
  = playersWithOutstandingAction (mkResolving h acts idxs) ∖ {[player a]}.
Proof.
  unfold playersWithOutstandingAction. simpl.
  rewrite foldl_app. reflexivity.
Qed.

(** X10.  An action of a player of the room takes exactly that player out
    of the set of players the resolution waits for.  The room stays
    resolving, with the set so reduced, when another player is still
    awaited, and is proposing again when none is. *)
Theorem performResolveAction_awaits_the_others (room : ResolvingHintPhase)
  (a : ResolveAction) (g : Rng) :
  1 <= player a <= Z.of_nat (length (players room)) ->
  exists r' g',
    performResolveAction room a g = Ok (r', g')
    /\ match activeHint r' with
       | RESOLVING rh =>
           playersWithOutstandingAction rh
           = playersWithOutstandingAction (activeHint room) ∖ {[player a]}
           /\ exists m, m <> player a
                        /\ m ∈ playersWithOutstandingAction (activeHint room)
       | PROPOSING ph =>
           ph = mkProposing ∅
           /\ forall m, m ∈ playersWithOutstandingAction (activeHint room) ->
                        m = player a
       end.
Proof.
  intros Hrange.
  assert (Hp : is_Some (lookupZ (players room) (player a - 1)))
    by (apply lookupZ_is_Some; lia).
  destruct Hp as [p Hp].
  destruct (performResolveAction_spec room a g p Hp)
    as (r1 & g1 & _ & Hah1 & _ & _ & _ & _ & _ & Hrun).
  assert (Hout : playersWithOutstandingAction (activeHint r1)
                 = playersWithOutstandingAction (activeHint room)
                   ∖ {[player a]}).
  { rewrite Hah1. destruct (activeHint room) as [h acts idxs].
    apply outstanding_snoc. }
  destruct (bool_decide _) eqn:Hdone.
  - apply bool_decide_eq_true_1, size_empty_iff in Hdone.
    destruct (fullyResolveHint_spec r1 g1) as (ds' & g' & Hfull & _ & _).
    rewrite Hfull in Hrun. eexists _, g'. split; [exact Hrun |]. simpl.
    split; [reflexivity |].
    intros m Hm. destruct (decide (m = player a)) as [-> | Hne];
      [reflexivity |].
    exfalso. apply (not_elem_of_empty (C:=gset Z) m), Hdone.
    rewrite Hout. apply elem_of_difference. split; [exact Hm |].
    intros Hin. apply elem_of_singleton in Hin. contradiction.
  - apply bool_decide_eq_false_1 in Hdone.
    exists (resolvingRoom r1), g1. split; [exact Hrun |]. simpl.
    split; [exact Hout |].
    destruct (set_choose_L (playersWithOutstandingAction (activeHint r1)))
      as [m Hm].
    { intros Hempty. apply Hdone. rewrite Hempty. apply size_empty. }
    rewrite Hout in Hm. apply elem_of_difference in Hm as [Hm Hne].
    exists m. split; [| exact Hm].
    intros ->. apply Hne, elem_of_singleton. reflexivity.
Qed.

(** ** The action required of a player *)

Lemma existsb_cited (ls : list LetterAndSource) (n : Z) :
  existsb (fun letterAndSource =>
             match letterAndSource with
             | SrcPlayer _ m => bool_decide (m = n)
             | _ => false
             end) ls = true
  <-> exists letter, SrcPlayer letter n ∈ ls.
Proof.
  rewrite existsb_exists. split.
  - intros (l & Hl & Hn). destruct l as [letter m| | |]; try discriminate.
    apply bool_decide_eq_true_1 in Hn. subst m.
    exists letter. apply list_elem_of_In, Hl.
  - intros (letter & Hl). exists (SrcPlayer letter n).
    split; [apply list_elem_of_In, Hl | apply bool_decide_eq_true_2; reflexivity].
Qed.

Lemma existsb_acted (acts : list ResolveAction) (n : Z) :
  existsb (fun action => bool_decide (player action = n)) acts = true
  <-> exists a, a ∈ acts /\ player a = n.
Proof.
  rewrite existsb_exists. split.
  - intros (a & Ha & Hn). apply bool_decide_eq_true_1 in Hn.
    exists a. split; [apply list_elem_of_In, Ha | exact Hn].
  - intros (a & Ha & Hn). exists a.
    split; [apply list_elem_of_In, Ha | apply bool_decide_eq_true_2, Hn].
Qed.

Lemma getPlayerNumber_lookup {H} (room : StartedPhase H) (playerName : string)
  (n : Z) :
  getPlayerNumber room playerName = Some n ->
  1 <= n /\ exists p, lookupZ (players room) (n - 1) = Some p
                      /\ name p = playerName.
Proof.
  unfold getPlayerNumber. intros Hn.
  apply getPlayerNumberFrom_Some in Hn as (k & p & Hn & Hk & Hp & _).
  split; [lia |]. exists p. split; [| exact Hp].
  apply lookupZ_Some. split; [lia |].
  replace (Z.to_nat (n - 1)) with k by lia. exact Hk.
Qed.

(** X11.  [whichResolveActionRequired] agrees with
    [playersWithOutstandingAction].  A name that is not in the room, or
    whose player the hint does not cite, is uninvolved; a cited player
    that is no longer awaited is done; an awaited player must flip when
    its hand has [wordLength] letters, must guess when it has one more,
    and the call throws the inconsistent-state error for any other
    length. *)
Theorem whichResolveActionRequired_agrees (room : ResolvingHintPhase)
  (playerName : string) :
  (getPlayerNumber room playerName = None ->
   whichResolveActionRequired room playerName
   = Required ResolveActionChoice.UNINVOLVED)
  /\ forall n,
       getPlayerNumber room playerName = Some n ->
       exists p,
         lookupZ (players room) (n - 1) = Some p
         /\ name p = playerName
         /\ ((~ exists letter,
                  SrcPlayer letter n
                  ∈ lettersAndSources (hint (activeHint room))) ->
             whichResolveActionRequired room playerName
             = Required ResolveActionChoice.UNINVOLVED)
         /\ ((exists letter,
                 SrcPlayer letter n
                 ∈ lettersAndSources (hint (activeHint room))) ->
             n ∉ playersWithOutstandingAction (activeHint room) ->
             whichResolveActionRequired room playerName
             = Required ResolveActionChoice.DONE)
         /\ (n ∈ playersWithOutstandingAction (activeHint room) ->
             (Z.of_nat (length (letters (hand p))) = wordLength room ->
              whichResolveActionRequired room playerName
              = Required ResolveActionChoice.FLIP)
             /\ (Z.of_nat (length (letters (hand p))) = wordLength room + 1 ->
                 whichResolveActionRequired room playerName
                 = Required ResolveActionChoice.GUESS)
             /\ (Z.of_nat (length (letters (hand p))) <> wordLength room ->
                 Z.of_nat (length (letters (hand p))) <> wordLength room + 1 ->
                 whichResolveActionRequired room playerName
                 = InconsistentState
                     (Z.of_nat (length (letters (hand p)))))).
Proof.
  unfold whichResolveActionRequired. split.
  - intros ->. reflexivity.
  - intros n Hn. rewrite Hn.
    destruct (getPlayerNumber_lookup room playerName n Hn)
      as (_ & p & Hp & Hname).
    exists p. split; [exact Hp |]. split; [exact Hname |].
    rewrite Hp.
    destruct (existsb _ (lettersAndSources _)) eqn:Hcited; simpl.
    + apply existsb_cited in Hcited.
      split; [intros Hnot; contradiction |].
      destruct (existsb _ (playerActions _)) eqn:Hacted.
      * apply existsb_acted in Hacted as (a & Ha & Hpa).
        split; [reflexivity |].
        intros Hout. exfalso.
        apply elem_of_playersWithOutstandingAction in Hout as [_ Hno].
        exact (Hno a Ha Hpa).
      * split.
        -- intros _ Hnot. exfalso. apply Hnot.
           apply elem_of_playersWithOutstandingAction.
           split; [exact Hcited |].
           intros a Ha Hpa.
           assert (Htrue : existsb
                             (fun action => bool_decide (player action = n))
                             (playerActions (activeHint room)) = true)
             by (apply existsb_acted; eauto).
           congruence.
        -- intros _.
           destruct (decide (wordLength room <> _)) as [Hne | Heq].
           ++ destruct (decide (_ <> wordLength room + 1)) as [Hne' | Heq'].
              ** split; [intros Heq; destruct Hne; congruence |].
                 split; [intros Heq; contradiction | reflexivity].
              ** split; [intros Heq; destruct Hne; congruence |].
                 split; [reflexivity |].
                 intros _ Hne'. destruct (Heq' Hne').
           ++ assert (Hlen : wordLength room
                             = Z.of_nat (length (letters (hand p))))
                by (destruct (decide (wordLength room
                                      = Z.of_nat (length (letters (hand p)))));
                    [assumption | contradiction]).
              split; [reflexivity |].
              split; [intros Heq'; lia | intros Hne; congruence].
    + assert (Hnot : ~ exists letter,
                 SrcPlayer letter n
                 ∈ lettersAndSources (hint (activeHint room))).
      { intros Hex. apply existsb_cited in Hex. congruence. }
      split; [reflexivity |].
      split; [intros Hex; contradiction |].
      intros Hout.
      apply elem_of_playersWithOutstandingAction in Hout as [Hex _].
      contradiction.
Qed.

(** ** Player numbers are stable *)

Lemma map_name_insert (ps : list Player) (i : nat) (p q : Player) :
  ps !! i = Some p -> name q = name p ->
  map name (<[i := q]> ps) = map name ps.
Proof.
  intros Hi Hname. change map with (@fmap list _).
  rewrite list_fmap_insert, Hname. apply list_insert_id.
  rewrite list_lookup_fmap, Hi. reflexivity.
Qed.

Lemma performResolveAction_names (room : ResolvingHintPhase)
  (a : ResolveAction) (g : Rng) (r' : HintingPhase) (g' : Rng) :
  1 <= player a <= Z.of_nat (length (players room)) ->
  performResolveAction room a g = Ok (r', g') ->
  map name (players r') = map name (players room).
Proof.
  intros Hrange Hrun.
  assert (Hp : is_Some (lookupZ (players room) (player a - 1)))
    by (apply lookupZ_is_Some; lia).
  destruct Hp as [p Hp].
  destruct (performResolveAction_spec room a g p Hp)
    as (r1 & g1 & _ & _ & Hps1 & _ & _ & _ & _ & Hrun').
  apply lookupZ_Some in Hp as [_ Hp].
  assert (Hnames : map name (players r1) = map name (players room))
    by (rewrite Hps1; apply (map_name_insert _ _ p); [exact Hp | reflexivity]).
  rewrite Hrun in Hrun'. destruct (bool_decide _).
  - destruct (fullyResolveHint_spec r1 g1) as (ds' & g2 & Hfull & _ & _).
    rewrite Hfull in Hrun'. injection Hrun' as -> _. exact Hnames.
  - injection Hrun' as -> _. exact Hnames.
Qed.

Lemma giveHint_names (room : ProposingHintPhase) (h : Hint) (g : Rng)
  (r' : HintingPhase) (g' : Rng) :
  1 <= givenByPlayer h <= Z.of_nat (length (players room)) ->
  giveHint mapNth room h g = Ok (r', g') ->
  map name (players r') = map name (players room).
Proof.
  intros Hrange.
  assert (Hp : is_Some (lookupZ (players room) (givenByPlayer h - 1)))
    by (apply lookupZ_is_Some; lia).
  destruct Hp as [p Hp].
  unfold giveHint, bind, liftR.
  destruct (checkHint room (lettersAndSources h)) as [[]|e]; [| discriminate].
  cbv beta iota. rewrite (mapNth_inside _ _ _ _ p Hp).
  apply lookupZ_Some in Hp as [_ Hp].
  destruct (bool_decide _).
  - match goal with
    | |- context [fullyResolveHint ?r g] =>
        destruct (fullyResolveHint_spec r g) as (ds' & g2 & Hfull & _ & _);
        rewrite Hfull
    end.
    unfold ret. intros [= <- _]. simpl.
    apply (map_name_insert _ _ p); [exact Hp | reflexivity].
  - unfold ret. intros [= <- _]. simpl.
    apply (map_name_insert _ _ p); [exact Hp | reflexivity].
Qed.

(** X12.  The number of a player is the same before and after a
    transition of the hinting phase: an action of a player of the room
    always goes through and keeps the number of every name, and so does a
    hint that [giveHint] accepts from a player of the room. *)
Theorem player_numbers_stable :
  (forall (room : ResolvingHintPhase) (a : ResolveAction) (g : Rng),
      1 <= player a <= Z.of_nat (length (players room)) ->
      exists r' g',
        performResolveAction room a g = Ok (r', g')
        /\ forall playerName,
             getPlayerNumber r' playerName = getPlayerNumber room playerName)
  /\ (forall (room : ProposingHintPhase) (h : Hint) (g : Rng) r' g',
         1 <= givenByPlayer h <= Z.of_nat (length (players room)) ->
         giveHint mapNth room h g = Ok (r', g') ->
         forall playerName,
           getPlayerNumber r' playerName = getPlayerNumber room playerName).
Proof.
  split.
  - intros room a g Hrange.
    assert (Hp : is_Some (lookupZ (players room) (player a - 1)))
      by (apply lookupZ_is_Some; lia).
    destruct Hp as [p Hp].
    assert (Hrun : exists r' g', performResolveAction room a g = Ok (r', g')).
    { destruct (performResolveAction_spec room a g p Hp)
        as (r1 & g1 & _ & _ & _ & _ & _ & _ & _ & Hrun).
      destruct (bool_decide _); [| eauto].
      destruct (fullyResolveHint_spec r1 g1) as (ds' & g2 & Hfull & _ & _).
      rewrite Hfull in Hrun. eauto. }
    destruct Hrun as (r' & g' & Hrun). exists r', g'.
    split; [exact Hrun |]. intros playerName.
    apply getPlayerNumberFrom_names.
    apply (performResolveAction_names room a g r' g' Hrange Hrun).
  - intros room h g r' g' Hrange Hrun playerName.
    apply getPlayerNumberFrom_names.
    apply (giveHint_names room h g r' g' Hrange Hrun).
Qed.

(** X13.  While another player is awaited, an action of a player of the
    room changes the required action of that player only: the player, if
    the hint cites it, is done, and every other name is required what it
    was required before. *)
Theorem performResolveAction_marks_done (room : ResolvingHintPhase)
  (a : ResolveAction) (g : Rng) (m : Z) :
  1 <= player a <= Z.of_nat (length (players room)) ->
  m <> player a ->
  m ∈ playersWithOutstandingAction (activeHint room) ->
  exists r1 g1,
    performResolveAction room a g = Ok (resolvingRoom r1, g1)
    /\ (forall playerName,
          getPlayerNumber room playerName = Some (player a) ->
          (exists letter,
              SrcPlayer letter (player a)
              ∈ lettersAndSources (hint (activeHint room))) ->
          whichResolveActionRequired r1 playerName
          = Required ResolveActionChoice.DONE)
    /\ (forall playerName n,
          getPlayerNumber room playerName = Some n -> n <> player a ->
          whichResolveActionRequired r1 playerName
          = whichResolveActionRequired room playerName)
    /\ (forall playerName,
          getPlayerNumber room playerName = None ->
          whichResolveActionRequired r1 playerName
          = Required ResolveActionChoice.UNINVOLVED).
Proof.
  intros Hrange Hne Hm.
  assert (Hp : is_Some (lookupZ (players room) (player a - 1)))
    by (apply lookupZ_is_Some; lia).
  destruct Hp as [p Hp].
  destruct (performResolveAction_spec room a g p Hp)
    as (r1 & g1 & _ & Hah1 & Hps1 & Hwl1 & _ & _ & _ & Hrun).
  rewrite bool_decide_eq_false_2 in Hrun.
  2:{ rewrite size_empty_iff. intros Hempty.
      apply (not_elem_of_empty (C:=gset Z) m), Hempty.
      rewrite Hah1. destruct (activeHint room) as [h acts idxs].
      rewrite outstanding_snoc. apply elem_of_difference.
      split; [exact Hm |]. intros Hin. apply elem_of_singleton in Hin.
      contradiction. }
  exists r1, g1. split; [exact Hrun |].
  pose proof Hp as Hp0. apply lookupZ_Some in Hp0 as [_ Hp0].
  assert (Hnum : forall playerName,
             getPlayerNumber r1 playerName = getPlayerNumber room playerName).
  { intros playerName. apply getPlayerNumberFrom_names. rewrite Hps1.
    apply (map_name_insert _ _ p); [exact Hp0 | reflexivity]. }
  unfold whichResolveActionRequired.
  split; [| split].
  - intros playerName Hn Hcited. rewrite Hnum, Hn, Hah1.
    cbn [hint playerActions].
    rewrite (proj2 (existsb_cited _ _) Hcited). cbn [negb].
    rewrite existsb_app. simpl.
    rewrite (bool_decide_eq_true_2 (player a = player a) eq_refl).
    rewrite orb_true_r. reflexivity.
  - intros playerName n Hn Hna. rewrite Hnum, Hn, Hah1, Hwl1.
    cbn [hint playerActions].
    rewrite existsb_app. simpl.
    rewrite (bool_decide_eq_false_2 (player a = n)) by congruence.
    rewrite !orb_false_r.
    destruct (getPlayerNumber_lookup room playerName n Hn) as (Hn1 & _).
    assert (Hlook : lookupZ (players r1) (n - 1)
                    = lookupZ (players room) (n - 1)).
    { unfold lookupZ. destruct (decide (0 <= n - 1)); [| reflexivity].
      rewrite Hps1. apply list_lookup_insert_ne. lia. }
    rewrite Hlook. reflexivity.
  - intros playerName Hn. rewrite Hnum, Hn. reflexivity.
Qed.

(** ** The hint log *)

Lemma countFreeHints_bounds (used : gset Z) (ds : list Dummy) :
  forall index,
    0 <= countFreeHints used index ds <= Z.of_nat (length ds).
Proof.
  induction ds as [|d ds IH]; intros index; simpl; [lia |].
  specialize (IH (index + 1)).
  destruct (bool_decide (index ∈ used) && bool_decide (untilFreeHint d = 1));
    lia.
Qed.

(** X14.  Resolution completion appends one entry to the log and keeps
    the entries before it.  The entry records the hint, its actions and
    active indexes, and as [totalHints] the log length plus the remaining
    hints from before; afterwards the log length plus the remaining hints
    exceeds that total by the free hints granted, which are between 0 and
    the number of dummies. *)
Theorem fullyResolveHint_total_hints (room : ResolvingHintPhase) (g : Rng) :
  exists r' g' entry,
    fullyResolveHint room g = Ok (r', g')
    /\ hintLog r' = hintLog room ++ [entry]
    /\ logHint entry = hint (activeHint room)
    /\ logPlayerActions entry = playerActions (activeHint room)
    /\ logActiveIndexes entry = activeIndexes (activeHint room)
    /\ totalHints entry
       = Z.of_nat (length (hintLog room)) + hintsRemaining room
    /\ Z.of_nat (length (hintLog r')) + hintsRemaining r'
       = totalHints entry
         + countFreeHints (dummiesUsed (hint (activeHint room))) 0
                          (dummies room)
    /\ totalHints entry
       <= Z.of_nat (length (hintLog r')) + hintsRemaining r'
       <= totalHints entry + Z.of_nat (length (dummies room)).
Proof.
  destruct (fullyResolveHint_spec room g) as (ds' & g' & Hrun & _ & _).
  eexists _, g', _. split; [exact Hrun |]. simpl.
  repeat (split; [reflexivity |]).
  rewrite length_app. simpl.
  pose proof (countFreeHints_bounds (dummiesUsed (hint (activeHint room)))
                (dummies room) 0).
  lia.
Qed.

(** ** The shape of a hand *)

(** A hand of the hinting phase: [wordLength] letters while the active
    index is inside the word, one letter more once it has moved past the
    end. *)
Definition handWellFormed (wordLength : Z) (h : Hand) : Prop :=
  (0 <= activeIndex h < wordLength
   /\ Z.of_nat (length (letters h)) = wordLength)
  \/ (wordLength <= activeIndex h
      /\ Z.of_nat (length (letters h)) = wordLength + 1).

Lemma spec_handEffect_wellFormed (wl : Z) (k : ResolveActionKind) (h : Hand)
  (l : Letter) :
  0 <= wl -> handWellFormed wl h ->
  (forall gu ac, k = GUESS gu ac ->
                 Z.of_nat (length (letters h)) = wl + 1) ->
  handWellFormed wl (spec_handEffect wl k h l).
Proof.
  intros Hwl Hwf Hguess. unfold handWellFormed in *.
  destruct k as [| |gu ac]; simpl.
  - exact Hwf.
  - destruct (decide (activeIndex h = wl - 1)) as [Hlast | Hnot]; simpl.
    + right. rewrite length_app. simpl. lia.
    + destruct Hwf as [[Hai Hlen] | [Hai Hlen]]; [left | right]; lia.
  - specialize (Hguess gu ac eq_refl).
    right. unfold slice0. destruct (decide (0 <= wl)); [| lia].
    rewrite length_app, length_take. simpl.
    destruct Hwf as [[Hai Hlen] | [Hai Hlen]]; lia.
Qed.

(** X15.  With a word length that is not negative, the shape of the hands
    is kept by every flip and every declined action, and by a guess of a
    player whose hand holds the extra letter: all hands of the room
    returned are well formed when those of the room given are. *)
Theorem performResolveAction_keeps_hands (room : ResolvingHintPhase)
  (a : ResolveAction) (g : Rng) :
  0 <= wordLength room ->
  Forall (fun p => handWellFormed (wordLength room) (hand p)) (players room) ->
  1 <= player a <= Z.of_nat (length (players room)) ->
  (forall p gu ac,
      lookupZ (players room) (player a - 1) = Some p ->
      kind a = GUESS gu ac ->
      Z.of_nat (length (letters (hand p))) = wordLength room + 1) ->
  exists r' g',
    performResolveAction room a g = Ok (r', g')
    /\ wordLength r' = wordLength room
    /\ Forall (fun p => handWellFormed (wordLength r') (hand p)) (players r').
Proof.
  intros Hwl Hall Hrange Hguess.
  assert (Hp : is_Some (lookupZ (players room) (player a - 1)))
    by (apply lookupZ_is_Some; lia).
  destruct Hp as [p Hp].
  destruct (performResolveAction_spec room a g p Hp)
    as (r1 & g1 & _ & _ & Hps1 & Hwl1 & _ & _ & _ & Hrun).
  assert (Hall1 : Forall (fun p => handWellFormed (wordLength room) (hand p))
                         (players r1)).
  { rewrite Hps1. apply Forall_insert; [exact Hall |]. simpl.
    apply spec_handEffect_wellFormed; [exact Hwl | | eauto].
    apply lookupZ_Some in Hp as [_ Hp].
    rewrite Forall_lookup in Hall. exact (Hall _ _ Hp). }
  destruct (bool_decide _).
  - destruct (fullyResolveHint_spec r1 g1) as (ds' & g' & Hfull & _ & _).
    rewrite Hfull in Hrun. eexists _, g'. split; [exact Hrun |]. simpl.
    rewrite Hwl1. split; [reflexivity | exact Hall1].
  - exists (resolvingRoom r1), g1. split; [exact Hrun |]. simpl.
    rewrite Hwl1. split; [reflexivity | exact Hall1].
Qed.

(** X16.  [startGameRoom] deals well-formed hands when every word has
    [wordLength] letters and the word length is at least 1; and on a room
    whose hands are well formed [whichResolveActionRequired] never throws:
    it requires a guess of an awaited player exactly when the active index
    of the player has moved past the end of the word. *)
Theorem wellFormed_hands_from_the_start :
  (forall (room : StartingPhase) (g : Rng),
      isRoomReady room = true ->
      1 <= swordLength room ->
      (forall p w, p ∈ splayers room -> word p = Some w ->
                   Z.of_nat (String.length w) = swordLength room) ->
      exists r' g',
        startGameRoom shuffle room g = Ok (r', g')
        /\ Forall (fun p => handWellFormed (wordLength r') (hand p))
                  (players r'))
  /\ (forall (room : ResolvingHintPhase) (playerName : string),
         Forall (fun p => handWellFormed (wordLength room) (hand p))
                (players room) ->
         exists choice,
           whichResolveActionRequired room playerName = Required choice
           /\ forall n p,
                getPlayerNumber room playerName = Some n ->
                lookupZ (players room) (n - 1) = Some p ->
                n ∈ playersWithOutstandingAction (activeHint room) ->
                (choice = ResolveActionChoice.GUESS
                 <-> wordLength room <= activeIndex (hand p))
                /\ (choice = ResolveActionChoice.FLIP
                    <-> activeIndex (hand p) < wordLength room)).
Proof.
  split.
  - intros room g Hready Hwl Hwords.
    destruct (startGameRoom_spec shuffle shuffle_perm room g Hready)
      as (ps & countdowns & ds & g' & Hrun & Hlen & Hat & _).
    eexists _, g'. split; [exact Hrun |]. simpl.
    apply Forall_lookup. intros i q Hq.
    assert (Hi : is_Some (splayers room !! i)).
    { apply lookup_lt_is_Some. rewrite <- Hlen.
      apply lookup_lt_Some in Hq. exact Hq. }
    destruct Hi as [p Hi].
    destruct (Hat i p Hi)
      as (q' & Hq' & previous & w & Hprev & Hw & _ & Hperm & _ & Hai & _).
    rewrite Hq in Hq'. injection Hq' as <-.
    left. rewrite Hai. split; [lia |].
    rewrite (Permutation_length Hperm).
    rewrite <- (Hwords previous w); [| apply list_elem_of_lookup; eauto | exact Hw].
    f_equal. clear. induction w as [|c w IH]; simpl; [reflexivity | f_equal; exact IH].
  - intros room playerName Hall.
    unfold whichResolveActionRequired.
    destruct (getPlayerNumber room playerName) as [n|] eqn:Hn.
    2:{ eexists. split; [reflexivity |]. intros n p [=]. }
    destruct (getPlayerNumber_lookup room playerName n Hn)
      as (_ & p & Hp & _).
    rewrite Hp.
    assert (Hwf : handWellFormed (wordLength room) (hand p)).
    { apply lookupZ_Some in Hp as [_ Hp].
      rewrite Forall_lookup in Hall. exact (Hall _ _ Hp). }
    destruct (existsb _ (lettersAndSources _)) eqn:Hcited; simpl.
    2:{ eexists. split; [reflexivity |]. intros n' p' [= <-] _ Hout.
        apply elem_of_playersWithOutstandingAction in Hout as [Hex _].
        apply existsb_cited in Hex. congruence. }
    destruct (existsb _ (playerActions _)) eqn:Hacted.
    { eexists. split; [reflexivity |]. intros n' p' [= <-] _ Hout.
      apply existsb_acted in Hacted as (a & Ha & Hpa).
      apply elem_of_playersWithOutstandingAction in Hout as [_ Hno].
      destruct (Hno a Ha Hpa). }
    unfold handWellFormed in Hwf.
    destruct (decide (wordLength room <> _)) as [Hne | Heq].
    + destruct (decide (_ <> wordLength room + 1)) as [Hne' | Heq'];
        [lia |].
      eexists. split; [reflexivity |].
      intros n' p' [= <-] Hp' _. rewrite Hp in Hp'. injection Hp' as <-.
      split; split; intros; first [reflexivity | discriminate | lia].
    + eexists. split; [reflexivity |].
      intros n' p' [= <-] Hp' _. rewrite Hp in Hp'. injection Hp' as <-.
      split; split; intros; first [reflexivity | discriminate | lia].
Qed.

(** ** Letters drawn at random *)

(** X17.  Every letter the engine draws is one of the 21 letters of
    [LETTERS], so never J, Q, V, X or Z, and [randomLetter] never
    throws. *)
Theorem randomLetter_in_LETTERS (g : Rng) :
  exists l g',
    randomLetter g = Ok (l, g')
    /\ l ∈ LETTERS
    /\ (l ∉ ["J"; "Q"; "V"; "X"; "Z"]%char)
    /\ length LETTERS = 21%nat.
Proof.
  exists (drawLetter g), (rngTail g). split; [reflexivity |].
  assert (Hin : drawLetter g ∈ LETTERS).
  { apply list_elem_of_In. unfold drawLetter. apply nth_In.
    apply Nat.mod_upper_bound. discriminate. }
  split; [exact Hin |]. split; [| reflexivity].
  intros Hbad. revert Hin. generalize (drawLetter g) Hbad. clear.
  intros l Hbad Hin.
  repeat (apply elem_of_cons in Hbad as [-> | Hbad];
          [repeat (apply elem_of_cons in Hin as [Hin | Hin];
                   [discriminate |]); inversion Hin |]).
  inversion Hbad.
Qed.

(** ** The specification of a hint *)

Lemma size_add_le `{Countable K} (x : K) (s : gset K) :
  (size ({[x]} ∪ s) <= S (size s))%nat.
Proof.
  rewrite size_union_alt, size_singleton.
  assert (Hsub : s ∖ {[x]} ⊆ s).
  { intros y Hy. apply elem_of_difference in Hy as [Hy _]. exact Hy. }
  pose proof (subseteq_size (s ∖ {[x]}) s Hsub) as Hle. lia.
Qed.

Lemma specs_sum_le (ls : list LetterAndSource) :
  forall (sp sd : gset Z) (sb : gset ascii) (w : bool),
    (size (foldl (fun (s : gset Z) l =>
                    match l with
                    | SrcPlayer _ playerNumber => {[playerNumber]} ∪ s
                    | _ => s
                    end) sp ls)
     + size (foldl (fun (s : gset Z) l =>
                      match l with
                      | SrcDummy _ dummyNumber => {[dummyNumber]} ∪ s
                      | _ => s
                      end) sd ls)
     + size (foldl (fun (s : gset ascii) l =>
                      match l with
                      | SrcBonus letter => {[letter]} ∪ s
                      | _ => s
                      end) sb ls)
     + (if foldl (fun (w : bool) l =>
                    match l with
                    | SrcWildcard => true
                    | _ => w
                    end) w ls then 1 else 0)
     <= size sp + size sd + size sb + (if w then 1 else 0) + length ls)%nat.
Proof.
  induction ls as [|l ls IH]; intros sp sd sb w; simpl.
  - lia.
  - destruct l as [letter n| |letter n|letter];
      (eapply Nat.le_trans; [apply IH |]).
    + assert (Hle : (size ({[n]} ∪ sp) <= S (size sp))%nat)
        by apply size_add_le.
      lia.
    + destruct w; lia.
    + assert (Hle : (size ({[n]} ∪ sd) <= S (size sd))%nat)
        by apply size_add_le.
      lia.
    + assert (Hle : (size ({[letter]} ∪ sb) <= S (size sb))%nat)
        by apply size_add_le.
      lia.
Qed.

Lemma specWildcardFlag_true (ls : list LetterAndSource) :
  forall w,
    foldl (fun (w : bool) l =>
             match l with
             | SrcWildcard => true
             | _ => w
             end) w ls = true
    <-> w = true \/ SrcWildcard ∈ ls.
Proof.
  induction ls as [|l ls IH]; intros w; simpl.
  - split; [auto | intros [? | Hin]; [assumption | inversion Hin]].
  - rewrite IH. split.
    + intros [Hw | Hin]; [| right; right; exact Hin].
      destruct l; auto. right. left.
    + intros [-> | Hin].
      * left. destruct l; reflexivity.
      * apply elem_of_cons in Hin as [<- | Hin]; auto.
Qed.

(** X18.  In the specification of a hint the numbers of distinct players,
    dummies and bonus letters, plus one for a wildcard, never exceed the
    length of the hint.  The number of players is the number of players
    the resolution of the hint waits for at first, and is 0 exactly when
    no letter comes from a player; the wildcard flag is set exactly when a
    letter is the wildcard. *)
Theorem specsOfHint_counts (h : Hint) (idxs : list Z) :
  0 <= specPlayers (specsOfHint h)
  /\ 0 <= specDummies (specsOfHint h)
  /\ 0 <= specBonuses (specsOfHint h)
  /\ specPlayers (specsOfHint h) + specDummies (specsOfHint h)
     + specBonuses (specsOfHint h)
     + (if specWildcard (specsOfHint h) then 1 else 0)
     <= specLength (specsOfHint h)
  /\ specPlayers (specsOfHint h)
     = Z.of_nat (size (playersWithOutstandingAction (mkResolving h [] idxs)))
  /\ (specPlayers (specsOfHint h) = 0
      <-> forall letter n, SrcPlayer letter n ∉ lettersAndSources h)
  /\ (specWildcard (specsOfHint h) = true
      <-> SrcWildcard ∈ lettersAndSources h).
Proof.
  unfold specsOfHint. simpl.
  split; [lia |]. split; [lia |]. split; [lia |]. split; [| split; [| split]].
  - pose proof (specs_sum_le (lettersAndSources h) ∅ ∅ ∅ false) as Hle.
    rewrite !size_empty in Hle. simpl in Hle.
    unfold specPlayerKeys, specDummyKeys, specBonusKeys, specWildcardFlag.
    destruct (foldl _ false (lettersAndSources h)); lia.
  - reflexivity.
  - change (specPlayerKeys (lettersAndSources h))
      with (playersWithOutstandingAction (mkResolving h [] idxs)).
    split.
    + intros Hzero letter n Hin.
      assert (Hsize : size (playersWithOutstandingAction
                              (mkResolving h [] idxs)) = 0%nat) by lia.
      apply size_empty_iff in Hsize.
      apply (not_elem_of_empty (C:=gset Z) n), Hsize.
      apply outstanding_fresh. eauto.
    + intros Hno. rewrite (outstanding_no_players h idxs Hno). reflexivity.
  - unfold specWildcardFlag. rewrite specWildcardFlag_true. split.
    + intros [Hf | Hin]; [discriminate | exact Hin].
    + auto.
Qed.

(** ** Recording a guess for a position of the hand *)

Lemma lookupZ_insert_eq {A} (l : list A) (i : Z) (x : A) :
  0 <= i < Z.of_nat (length l) ->
  lookupZ (<[Z.to_nat i := x]> l) i = Some x.
Proof.
  intros Hi. apply lookupZ_Some. split; [lia |].
  apply list_lookup_insert_eq. lia.
Qed.

Lemma lookupZ_insert_ne {A} (l : list A) (i j : Z) (x : A) :
  0 <= i -> i <> j ->
  lookupZ (<[Z.to_nat i := x]> l) j = lookupZ l j.
Proof.
  intros Hi Hne. unfold lookupZ. destruct (decide (0 <= j)); [| reflexivity].
  apply list_lookup_insert_ne. lia.
Qed.

Lemma setHandGuess_players {H} (room : StartedPhase H) (playerNumber index : Z)
  (g : option Letter) (p : Player) (old : option Letter) :
  lookupZ (players room) (playerNumber - 1) = Some p ->
  lookupZ (guesses (hand p)) index = Some old ->
  players (setHandGuess room playerNumber index g)
  = <[Z.to_nat (playerNumber - 1) :=
        mkPlayer (name p)
          (mkHand (letters (hand p))
                  (<[Z.to_nat index := g]> (guesses (hand p)))
                  (activeIndex (hand p)))
          (hintsGiven p)]> (players room).
Proof.
  intros Hp Hold. unfold setHandGuess. simpl.
  rewrite (mapNth_inside _ _ _ _ p Hp).
  rewrite (mapNth_inside _ _ _ _ old Hold). reflexivity.
Qed.

(** X19.  [setHandGuess] for a player of the room and a position of its
    guesses writes that one guess: reading it back gives the guess, the
    other positions, the letters and the active index of the hand and the
    other players are as before, and a second write to the position
    overrides the first. *)
Theorem setHandGuess_writes_one_guess {H} (room : StartedPhase H)
  (playerNumber index : Z) (g1 g : option Letter) :
  1 <= playerNumber <= Z.of_nat (length (players room)) ->
  (forall p, lookupZ (players room) (playerNumber - 1) = Some p ->
             0 <= index < Z.of_nat (length (guesses (hand p)))) ->
  exists p p',
    lookupZ (players room) (playerNumber - 1) = Some p
    /\ lookupZ (players (setHandGuess room playerNumber index g))
               (playerNumber - 1) = Some p'
    /\ name p' = name p
    /\ hintsGiven p' = hintsGiven p
    /\ letters (hand p') = letters (hand p)
    /\ activeIndex (hand p') = activeIndex (hand p)
    /\ length (guesses (hand p')) = length (guesses (hand p))
    /\ lookupZ (guesses (hand p')) index = Some g
    /\ (forall j, j <> index ->
                  lookupZ (guesses (hand p')) j
                  = lookupZ (guesses (hand p)) j)
    /\ (forall m, m <> playerNumber ->
                  lookupZ (players (setHandGuess room playerNumber index g))
                          (m - 1)
                  = lookupZ (players room) (m - 1))
    /\ setHandGuess (setHandGuess room playerNumber index g1)
                    playerNumber index g
       = setHandGuess room playerNumber index g.
Proof.
  intros Hrange Hindex.
  assert (Hp : is_Some (lookupZ (players room) (playerNumber - 1)))
    by (apply lookupZ_is_Some; lia).
  destruct Hp as [p Hp]. specialize (Hindex p Hp).
  assert (Hold : is_Some (lookupZ (guesses (hand p)) index))
    by (apply lookupZ_is_Some; lia).
  destruct Hold as [old Hold].
  exists p. eexists. split; [exact Hp |].
  rewrite (setHandGuess_players room playerNumber index g p old Hp Hold).
  split; [apply lookupZ_insert_eq; lia |]. simpl.
  repeat (split; [reflexivity |]).
  split; [apply length_insert |].
  split; [apply lookupZ_insert_eq; lia |].
  split; [intros j Hj; apply lookupZ_insert_ne; [lia | congruence] |].
  split; [intros m Hm; apply lookupZ_insert_ne; lia |].
  pose proof (setHandGuess_players room playerNumber index g1 p old Hp Hold)
    as Hps1.
  unfold setHandGuess at 1. rewrite Hps1.
  erewrite mapNth_inside by (apply lookupZ_insert_eq; lia).
  simpl. erewrite mapNth_inside by (apply lookupZ_insert_eq; lia).
  rewrite !list_insert_insert_eq.
  unfold setHandGuess. simpl.
  rewrite (mapNth_inside _ _ _ _ p Hp), (mapNth_inside _ _ _ _ old Hold).
  reflexivity.
Qed.

(** ** Validity of the final guesses *)

(** The hand positions a guess claims, and the guesses of all players in
    the order [availableLetters] replays them. *)
Definition ownIndexes (gs : list EndgameLetterChoice) : list Z :=
  omap (fun c => match c with ChoicePlayer i => Some i | _ => None end) gs.

Definition allGuesses (ps : list EndgamePlayer) : list EndgameLetterChoice :=
  concat (map guess ps).

(** The guesses [gs] claim the wildcard at most once ([wildcard] says
    whether it is still free) and no bonus letter more often than the
    pool [bs] holds it. *)
Definition claimable (gs : list EndgameLetterChoice) (wildcard : bool)
  (bs : list Letter) : Prop :=
  (count_occ EndgameLetterChoice_eq_dec gs ChoiceWildcard
   <= if wildcard then 1 else 0)%nat
  /\ forall L, (count_occ EndgameLetterChoice_eq_dec gs (ChoiceBonus L)
                <= count_occ Letter_eq_dec bs L)%nat.

Lemma claimGuesses_app (gs1 gs2 : list EndgameLetterChoice) :
  forall st,
    claimGuesses (gs1 ++ gs2) st
    = bindR (claimGuesses gs1 st) (claimGuesses gs2).
Proof.
  induction gs1 as [|c gs1 IH]; intros st; simpl; [reflexivity |].
  destruct c as [i| |L].
  - apply IH.
  - destruct (fst st); [apply IH | reflexivity].
  - destruct (decide _); [reflexivity | apply IH].
Qed.

Lemma claimPlayers_allGuesses (ps : list EndgamePlayer) :
  forall st, claimPlayers ps st = claimGuesses (allGuesses ps) st.
Proof.
  unfold allGuesses.
  induction ps as [|p ps IH]; intros st; simpl; [reflexivity |].
  rewrite claimGuesses_app.
  destruct (claimGuesses (guess p) st); simpl; [apply IH | reflexivity].
Qed.

Lemma findIndexFrom_absent (L : Letter) (bs : list Letter) :
  forall i, L ∉ bs ->
            findIndexFrom (fun bonus => bool_decide (bonus = L)) i bs = -1.
Proof.
  induction bs as [|b bs IH]; intros i Hnot; simpl; [reflexivity |].
  rewrite bool_decide_eq_false_2.
  - apply IH. intros Hin. apply Hnot. right. exact Hin.
  - intros ->. apply Hnot. left.
Qed.

(** Taking a bonus letter that the pool holds removes its first copy. *)
Lemma claim_bonus_present (L : Letter) (bs : list Letter) :
  L ∈ bs ->
  exists pre post,
    bs = pre ++ L :: post
    /\ ~ findIndex (fun bonus => bool_decide (bonus = L)) bs < 0
    /\ splice1 (findIndex (fun bonus => bool_decide (bonus = L)) bs) bs
       = pre ++ post.
Proof.
  intros Hin.
  apply list_elem_of_split_l in Hin as (pre & post & Hbs & Hpre).
  exists pre, post. split; [exact Hbs |].
  unfold findIndex. rewrite Hbs, findIndexFrom_first by exact Hpre.
  split; [lia |].
  unfold splice1. replace (Z.to_nat (0 + Z.of_nat (length pre)))
    with (length pre) by lia.
  rewrite take_app_length.
  replace (S (length pre)) with (length pre + 1)%nat by lia.
  rewrite <- drop_drop, drop_app_length. reflexivity.
Qed.

Lemma count_bonus_middle (pre post : list Letter) (L L' : Letter) :
  count_occ Letter_eq_dec (pre ++ L :: post) L'
  = ((if Letter_eq_dec L L' then 1 else 0)
     + count_occ Letter_eq_dec (pre ++ post) L')%nat.
Proof.
  rewrite !count_occ_app. simpl.
  destruct (Letter_eq_dec L L'); lia.
Qed.

Lemma claimable_player (i : Z) (gs : list EndgameLetterChoice) (w : bool)
  (bs : list Letter) :
  claimable (ChoicePlayer i :: gs) w bs <-> claimable gs w bs.
Proof.
  unfold claimable.
  rewrite count_occ_cons_neq by discriminate.
  split; intros [Hwild Hbonus]; (split; [exact Hwild |]); intros L;
    specialize (Hbonus L);
    rewrite count_occ_cons_neq in * by discriminate; exact Hbonus.
Qed.

Lemma claimable_wildcard (gs : list EndgameLetterChoice) (w : bool)
  (bs : list Letter) :
  claimable (ChoiceWildcard :: gs) w bs <-> w = true /\ claimable gs false bs.
Proof.
  unfold claimable.
  rewrite count_occ_cons_eq by reflexivity.
  split.
  - intros [Hwild Hbonus]. destruct w; [| lia].
    split; [reflexivity |]. split; [lia |]. intros L.
    specialize (Hbonus L).
    rewrite count_occ_cons_neq in Hbonus by discriminate. exact Hbonus.
  - intros [-> [Hwild Hbonus]]. split; [lia |]. intros L.
    rewrite count_occ_cons_neq by discriminate. apply Hbonus.
Qed.

Lemma count_choice_bonus (L L' : Letter) (gs : list EndgameLetterChoice) :
  count_occ EndgameLetterChoice_eq_dec (ChoiceBonus L :: gs) (ChoiceBonus L')
  = ((if Letter_eq_dec L L' then 1 else 0)
     + count_occ EndgameLetterChoice_eq_dec gs (ChoiceBonus L'))%nat.
Proof.
  destruct (Letter_eq_dec L L') as [-> | Hne].
  - rewrite count_occ_cons_eq by reflexivity. reflexivity.
  - rewrite count_occ_cons_neq by congruence. reflexivity.
Qed.

Lemma claimable_bonus (L : Letter) (gs : list EndgameLetterChoice) (w : bool)
  (pre post : list Letter) :
  claimable (ChoiceBonus L :: gs) w (pre ++ L :: post)
  <-> claimable gs w (pre ++ post).
Proof.
  unfold claimable.
  rewrite count_occ_cons_neq by discriminate.
  split; intros [Hwild Hbonus]; (split; [exact Hwild |]); intros L';
    specialize (Hbonus L');
    rewrite count_choice_bonus, count_bonus_middle in *;
    destruct (Letter_eq_dec L L'); lia.
Qed.

Lemma claimable_bonus_present (L : Letter) (gs : list EndgameLetterChoice)
  (w : bool) (bs : list Letter) :
  claimable (ChoiceBonus L :: gs) w bs -> L ∈ bs.
Proof.
  intros [_ Hbonus]. specialize (Hbonus L).
  rewrite count_occ_cons_eq in Hbonus by reflexivity.
  apply list_elem_of_In, (count_occ_In Letter_eq_dec). lia.
Qed.

Lemma wildcard_free_cons (c : EndgameLetterChoice)
  (gs : list EndgameLetterChoice) :
  c <> ChoiceWildcard ->
  bool_decide (ChoiceWildcard ∉ c :: gs) = bool_decide (ChoiceWildcard ∉ gs).
Proof.
  intros Hc. apply bool_decide_ext. split.
  - intros Hnot Hin. apply Hnot. right. exact Hin.
  - intros Hnot Hin. apply Hnot.
    apply elem_of_cons in Hin as [Hin | Hin]; [congruence | exact Hin].
Qed.

Lemma claimGuesses_complete (gs : list EndgameLetterChoice) :
  forall w bs,
    claimable gs w bs ->
    exists bs',
      claimGuesses gs (w, bs)
      = Ok (w && bool_decide (ChoiceWildcard ∉ gs), bs')
      /\ forall L,
           (count_occ Letter_eq_dec bs' L
            + count_occ EndgameLetterChoice_eq_dec gs (ChoiceBonus L)
            = count_occ Letter_eq_dec bs L)%nat.
Proof.
  induction gs as [|c gs IH]; intros w bs Hclaim.
  - exists bs. split; [| intros L; simpl; lia].
    destruct w; reflexivity.
  - destruct c as [i| |L].
    + apply claimable_player in Hclaim.
      destruct (IH w bs Hclaim) as (bs' & Hrun & Hcount).
      exists bs'. cbn [claimGuesses]. rewrite Hrun.
      rewrite wildcard_free_cons by discriminate.
      split; [reflexivity |]. intros L.
      rewrite count_occ_cons_neq by discriminate. apply Hcount.
    + apply claimable_wildcard in Hclaim as [-> Hclaim].
      destruct (IH false bs Hclaim) as (bs' & Hrun & Hcount).
      exists bs'. cbn [claimGuesses fst snd]. rewrite Hrun.
      split.
      * cbn [andb]. rewrite bool_decide_eq_false_2; [reflexivity |].
        intros Hnot. apply Hnot. left.
      * intros L. rewrite count_occ_cons_neq by discriminate. apply Hcount.
    + pose proof (claimable_bonus_present L gs w bs Hclaim) as Hin.
      destruct (claim_bonus_present L bs Hin)
        as (pre & post & Hbs & Hix & Hsplice).
      cbn [claimGuesses fst snd].
      destruct (decide _) as [Hneg | _]; [contradiction |].
      rewrite Hsplice. rewrite Hbs in Hclaim.
      apply claimable_bonus in Hclaim.
      destruct (IH w (pre ++ post) Hclaim) as (bs' & Hrun & Hcount).
      exists bs'. rewrite Hrun.
      rewrite wildcard_free_cons by discriminate.
      split; [reflexivity |]. intros L'. specialize (Hcount L').
      rewrite Hbs, count_choice_bonus, count_bonus_middle.
      destruct (Letter_eq_dec L L'); lia.
Qed.

Lemma claimGuesses_sound (gs : list EndgameLetterChoice) :
  forall w bs st', claimGuesses gs (w, bs) = Ok st' -> claimable gs w bs.
Proof.
  induction gs as [|c gs IH]; intros w bs st' Hrun.
  - split; [simpl; destruct w; lia | intros L; simpl; lia].
  - destruct c as [i| |L]; cbn [claimGuesses fst snd] in Hrun.
    + apply claimable_player. eapply IH, Hrun.
    + destruct w; [| discriminate].
      apply claimable_wildcard. split; [reflexivity |]. eapply IH, Hrun.
    + destruct (decide _) as [Hneg | Hpos]; [discriminate |].
      assert (Hin : L ∈ bs).
      { destruct (decide (L ∈ bs)) as [Hin | Hnot]; [exact Hin |].
        exfalso. apply Hpos. unfold findIndex.
        rewrite findIndexFrom_absent by exact Hnot. lia. }
      destruct (claim_bonus_present L bs Hin)
        as (pre & post & Hbs & _ & Hsplice).
      rewrite Hsplice in Hrun. rewrite Hbs.
      apply claimable_bonus. eapply IH, Hrun.
Qed.

Lemma ownLettersUsed_complete (gs : list EndgameLetterChoice) :
  forall used : gset Z,
    NoDup (ownIndexes gs) ->
    (forall i, i ∈ ownIndexes gs -> i ∉ used) ->
    exists used' : gset Z,
      ownLettersUsed gs used = Ok used'
      /\ forall i, i ∈ used' <-> i ∈ used \/ i ∈ ownIndexes gs.
Proof.
  induction gs as [|c gs IH]; intros used Hnd Hfresh.
  - exists used. split; [reflexivity |]. intros i. split; [auto |].
    intros [Hi | Hi]; [exact Hi | inversion Hi].
  - destruct c as [index| |L]; simpl in *.
    + apply NoDup_cons in Hnd as [Hnew Hnd].
      rewrite bool_decide_eq_false_2 by (apply Hfresh; left).
      destruct (IH ({[index]} ∪ used) Hnd) as (used' & Hrun & Hin).
      { intros i Hi Hu. apply elem_of_union in Hu as [Hu | Hu].
        - apply elem_of_singleton in Hu. subst i. contradiction.
        - apply (Hfresh i); [right; exact Hi | exact Hu]. }
      exists used'. split; [exact Hrun |]. intros i. rewrite Hin.
      rewrite elem_of_union, elem_of_singleton, elem_of_cons. tauto.
    + apply IH; assumption.
    + apply IH; assumption.
Qed.

Lemma ownLettersUsed_sound (gs : list EndgameLetterChoice) :
  forall (used used' : gset Z),
    ownLettersUsed gs used = Ok used' ->
    NoDup (ownIndexes gs) /\ forall i, i ∈ ownIndexes gs -> i ∉ used.
Proof.
  induction gs as [|c gs IH]; intros used used' Hrun.
  - split; [constructor | intros i Hi; inversion Hi].
  - destruct c as [index| |L]; simpl in *; [| eauto | eauto].
    destruct (bool_decide (index ∈ used)) eqn:Hidx; [discriminate |].
    apply bool_decide_eq_false_1 in Hidx.
    destruct (IH _ _ Hrun) as [Hnd Hfresh]. split.
    + apply NoDup_cons. split; [| exact Hnd].
      intros Hin. apply (Hfresh index Hin).
      apply elem_of_union. left. apply elem_of_singleton. reflexivity.
    + intros i Hi. apply elem_of_cons in Hi as [-> | Hi]; [exact Hidx |].
      intros Hu. apply (Hfresh i Hi). apply elem_of_union. right. exact Hu.
Qed.

Lemma elem_of_ownIndexes (gs : list EndgameLetterChoice) (i : Z) :
  i ∈ ownIndexes gs <-> ChoicePlayer i ∈ gs.
Proof.
  unfold ownIndexes. rewrite list_elem_of_omap. split.
  - intros (c & Hc & Hi). destruct c; try discriminate.
    injection Hi as ->. exact Hc.
  - intros Hin. exists (ChoicePlayer i). auto.
Qed.

Lemma availableLetters_unfold (room : EndgamePhase) (playerNumber : Z)
  (p : EndgamePlayer) :
  lookupZ (eplayers room) (playerNumber - 1) = Some p ->
  availableLetters room playerNumber
  = bindR (ownLettersUsed (guess p) ∅) (fun usedOwnLetters =>
    bindR (claimGuesses (allGuesses (eplayers room)) (true, ebonuses room))
      (fun st =>
         Ok (map ChoicePlayer
               (filter (fun i => i ∉ usedOwnLetters)
                       (seqZ 0 (ewordLength room)))
             ++ (if fst st then [ChoiceWildcard] else [])
             ++ map ChoiceBonus (snd st)))).
Proof.
  intros Hp. unfold availableLetters. rewrite Hp.
  destruct (ownLettersUsed (guess p) ∅); [| reflexivity]. simpl.
  rewrite claimPlayers_allGuesses. reflexivity.
Qed.

(** The replay of [availableLetters] goes through exactly for guesses
    that are claimable and whose own positions are distinct, and throws
    [InvalidLetters] otherwise. *)
Lemma availableLetters_cases (room : EndgamePhase) (playerNumber : Z)
  (p : EndgamePlayer) :
  lookupZ (eplayers room) (playerNumber - 1) = Some p ->
  (NoDup (ownIndexes (guess p))
   /\ claimable (allGuesses (eplayers room)) true (ebonuses room)
   /\ exists (used : gset Z) bs',
       (forall i, i ∈ used <-> ChoicePlayer i ∈ guess p)
       /\ (forall L,
              (count_occ Letter_eq_dec bs' L
               + count_occ EndgameLetterChoice_eq_dec
                           (allGuesses (eplayers room)) (ChoiceBonus L)
               = count_occ Letter_eq_dec (ebonuses room) L)%nat)
       /\ availableLetters room playerNumber
          = Ok (map ChoicePlayer
                  (filter (fun i => i ∉ used) (seqZ 0 (ewordLength room)))
                ++ (if bool_decide
                         (ChoiceWildcard ∉ allGuesses (eplayers room))
                    then [ChoiceWildcard] else [])
                ++ map ChoiceBonus bs'))
  \/ (~ (NoDup (ownIndexes (guess p))
         /\ claimable (allGuesses (eplayers room)) true (ebonuses room))
      /\ availableLetters room playerNumber = Err InvalidLetters).
Proof.
  intros Hp. rewrite (availableLetters_unfold room playerNumber p Hp).
  destruct (ownLettersUsed (guess p) ∅) as [used|e] eqn:Hown; simpl.
  2:{ right. split.
      - intros [Hnd _].
        destruct (ownLettersUsed_complete (guess p) ∅ Hnd) as (u & Hu & _).
        + intros i _ Hin. exact (not_elem_of_empty _ Hin).
        + congruence.
      - f_equal. eapply ownLettersUsed_error, Hown. }
  destruct (ownLettersUsed_sound _ _ _ Hown) as [Hnd _].
  destruct (ownLettersUsed_complete (guess p) ∅ Hnd) as (u & Hu & Hin).
  { intros i _ Hi. exact (not_elem_of_empty _ Hi). }
  rewrite Hown in Hu. injection Hu as <-.
  destruct (claimGuesses (allGuesses (eplayers room)) (true, ebonuses room))
    as [st|e] eqn:Hclaim; simpl.
  2:{ right. split.
      - intros [_ Hc].
        destruct (claimGuesses_complete _ _ _ Hc) as (bs' & Hrun & _).
        congruence.
      - f_equal. eapply claimGuesses_error, Hclaim. }
  pose proof (claimGuesses_sound _ _ _ _ Hclaim) as Hc.
  destruct (claimGuesses_complete _ _ _ Hc) as (bs' & Hrun & Hcount).
  rewrite Hclaim in Hrun. injection Hrun as ->.
  left. split; [exact Hnd |]. split; [exact Hc |].
  exists used, bs'. split; [| split; [exact Hcount | reflexivity]].
  intros i. rewrite Hin, elem_of_ownIndexes. split; [| auto].
  intros [Hi | Hi]; [| exact Hi]. destruct (not_elem_of_empty _ Hi).
Qed.

(** X20.  For a player of the room [availableLetters] returns a list
    exactly when the positions of the own hand that the player's guess
    claims are distinct and the guesses of all players together claim the
    wildcard at most once and no bonus letter more often than the pool
    holds it; otherwise it throws [InvalidLetters]. *)
Theorem availableLetters_valid_iff (room : EndgamePhase) (playerNumber : Z) :
  1 <= playerNumber <= Z.of_nat (length (eplayers room)) ->
  exists p,
    lookupZ (eplayers room) (playerNumber - 1) = Some p
    /\ ((exists res, availableLetters room playerNumber = Ok res)
        <-> NoDup (ownIndexes (guess p))
            /\ claimable (allGuesses (eplayers room)) true (ebonuses room))
    /\ (~ (NoDup (ownIndexes (guess p))
           /\ claimable (allGuesses (eplayers room)) true (ebonuses room)) ->
        availableLetters room playerNumber = Err InvalidLetters).
Proof.
  intros Hrange.
  assert (Hp : is_Some (lookupZ (eplayers room) (playerNumber - 1)))
    by (apply lookupZ_is_Some; lia).
  destruct Hp as [p Hp]. exists p. split; [exact Hp |].
  destruct (availableLetters_cases room playerNumber p Hp)
    as [(Hnd & Hc & used & bs' & _ & _ & Hrun) | [Hnot Herr]].
  - split; [| intros Hnot; destruct Hnot; auto].
    split; [auto | intros _; eauto].
  - split; [| intros _; exact Herr].
    split; [| intros Hv; contradiction].
    intros [res Hres]. congruence.
Qed.

Lemma count_map_player (l : list Z) (c : EndgameLetterChoice) :
  (forall i, c <> ChoicePlayer i) ->
  count_occ EndgameLetterChoice_eq_dec (map ChoicePlayer l) c = 0%nat.
Proof.
  intros Hc. induction l as [|i l IH]; [reflexivity |].
  cbn [map]. rewrite count_occ_cons_neq; [exact IH |].
  intros Heq. apply (Hc i). congruence.
Qed.

Lemma count_map_bonus (bs : list Letter) (L : Letter) :
  count_occ EndgameLetterChoice_eq_dec (map ChoiceBonus bs) (ChoiceBonus L)
  = count_occ Letter_eq_dec bs L.
Proof.
  induction bs as [|b bs IH]; [reflexivity |].
  cbn [map]. rewrite count_choice_bonus. simpl.
  destruct (Letter_eq_dec b L); lia.
Qed.

(** X21.  What [availableLetters] returns: the positions of the word that
    the player's guess does not claim, the wildcard exactly when no player
    claims it, and of every bonus letter as many copies as the pool holds
    beyond those that the players claim. *)
Theorem availableLetters_content (room : EndgamePhase) (playerNumber : Z)
  (res : list EndgameLetterChoice) :
  availableLetters room playerNumber = Ok res ->
  exists p,
    lookupZ (eplayers room) (playerNumber - 1) = Some p
    /\ (forall i, ChoicePlayer i ∈ res
                  <-> 0 <= i < ewordLength room /\ ChoicePlayer i ∉ guess p)
    /\ (ChoiceWildcard ∈ res
        <-> forall q, q ∈ eplayers room -> ChoiceWildcard ∉ guess q)
    /\ (forall L,
           (count_occ EndgameLetterChoice_eq_dec res (ChoiceBonus L)
            + count_occ EndgameLetterChoice_eq_dec
                        (allGuesses (eplayers room)) (ChoiceBonus L)
            = count_occ Letter_eq_dec (ebonuses room) L)%nat).
Proof.
  intros Hres.
  destruct (lookupZ (eplayers room) (playerNumber - 1)) as [p|] eqn:Hp.
  2:{ unfold availableLetters in Hres. rewrite Hp in Hres. discriminate. }
  exists p. split; [reflexivity |].
  destruct (availableLetters_cases room playerNumber p Hp)
    as [(_ & _ & used & bs' & Hused & Hcount & Hrun) | [_ Herr]];
    [| congruence].
  rewrite Hrun in Hres. injection Hres as <-.
  split; [| split].
  - intros i. rewrite !elem_of_app. split.
    + intros [Hin | [Hin | Hin]].
      * apply list_elem_of_In, in_map_iff in Hin as (j & [= ->] & Hj).
        apply list_elem_of_In, list_elem_of_filter in Hj as [Hnot Hj].
        apply elem_of_seqZ in Hj. rewrite Hused in Hnot. split; [lia | exact Hnot].
      * destruct (bool_decide _); [| inversion Hin].
        apply list_elem_of_singleton in Hin. discriminate.
      * apply list_elem_of_In, in_map_iff in Hin as (b & Hb & _).
        discriminate.
    + intros [Hi Hnot]. left. apply list_elem_of_In, in_map_iff.
      exists i. split; [reflexivity |].
      apply list_elem_of_In, list_elem_of_filter.
      split; [rewrite Hused; exact Hnot | apply elem_of_seqZ; lia].
  - assert (Hall : ChoiceWildcard ∉ allGuesses (eplayers room)
                   <-> forall q, q ∈ eplayers room ->
                                 ChoiceWildcard ∉ guess q).
    { unfold allGuesses. split.
      - intros Hnot q Hq Hin. apply Hnot.
        apply list_elem_of_In, in_concat. exists (guess q).
        split; [apply in_map, list_elem_of_In, Hq | apply list_elem_of_In, Hin].
      - intros Hno Hin.
        apply list_elem_of_In, in_concat in Hin as (gs & Hgs & Hin).
        apply in_map_iff in Hgs as (q & <- & Hq).
        apply (Hno q); apply list_elem_of_In; assumption. }
    rewrite <- Hall, !elem_of_app. split.
    + intros [Hin | [Hin | Hin]].
      * apply list_elem_of_In, in_map_iff in Hin as (j & Hj & _).
        discriminate.
      * destruct (bool_decide _) eqn:Hfree; [| inversion Hin].
        apply bool_decide_eq_true_1 in Hfree. exact Hfree.
      * apply list_elem_of_In, in_map_iff in Hin as (b & Hb & _).
        discriminate.
    + intros Hfree. right. left.
      rewrite (bool_decide_eq_true_2 _ Hfree). left.
  - intros L. rewrite !count_occ_app.
    rewrite count_map_player by discriminate.
    rewrite count_map_bonus.
    destruct (bool_decide _); simpl; specialize (Hcount L); lia.
Qed.

(** ** Committing, and the fresh endgame *)

Lemma lookupZ_map {A B} (f : A -> B) (l : list A) (i : Z) :
  lookupZ (map f l) i = option_map f (lookupZ l i).
Proof.
  unfold lookupZ. destruct (decide (0 <= i)); [| reflexivity].
  change map with (@fmap list _). rewrite list_lookup_fmap.
  destruct (l !! Z.to_nat i); reflexivity.
Qed.

(** [availableLetters] reads the word length, the bonus pool and the
    guesses of the players, and nothing else of the room. *)
Lemma availableLetters_ext (r1 r2 : EndgamePhase) (playerNumber : Z) :
  ewordLength r1 = ewordLength r2 ->
  ebonuses r1 = ebonuses r2 ->
  map guess (eplayers r1) = map guess (eplayers r2) ->
  availableLetters r1 playerNumber = availableLetters r2 playerNumber.
Proof.
  intros Hwl Hbs Hgs.
  assert (Hlook : option_map guess (lookupZ (eplayers r1) (playerNumber - 1))
                  = option_map guess
                      (lookupZ (eplayers r2) (playerNumber - 1)))
    by (rewrite <- !lookupZ_map, Hgs; reflexivity).
  unfold availableLetters.
  destruct (lookupZ (eplayers r1) (playerNumber - 1)) as [p1|];
    destruct (lookupZ (eplayers r2) (playerNumber - 1)) as [p2|];
    try discriminate; [| reflexivity].
  injection Hlook as ->.
  rewrite !claimPlayers_allGuesses. unfold allGuesses.
  rewrite Hwl, Hbs, Hgs. reflexivity.
Qed.

Lemma map_guess_insert (ps : list EndgamePlayer) (i : nat)
  (p q : EndgamePlayer) :
  ps !! i = Some p -> guess q = guess p ->
  map guess (<[i := q]> ps) = map guess ps.
Proof.
  intros Hi Hguess. change map with (@fmap list _).
  rewrite list_fmap_insert, Hguess. apply list_insert_id.
  rewrite list_lookup_fmap, Hi. reflexivity.
Qed.

(** X22.  [commitFinalGuess] for a player of the room sets the
    [committed] flag of that player and nothing else: the guesses stay, so
    [availableLetters] answers every player as before, the other players
    are untouched, and committing twice is committing once. *)
Theorem commitFinalGuess_keeps_guesses (room : EndgamePhase)
  (playerNumber : Z) :
  1 <= playerNumber <= Z.of_nat (length (eplayers room)) ->
  exists p,
    lookupZ (eplayers room) (playerNumber - 1) = Some p
    /\ lookupZ (eplayers (commitFinalGuess room playerNumber))
               (playerNumber - 1)
       = Some (mkEndgamePlayer (ename p) (ehand p) (ehintsGiven p)
                               (guess p) true)
    /\ (forall m, m <> playerNumber ->
                  lookupZ (eplayers (commitFinalGuess room playerNumber))
                          (m - 1)
                  = lookupZ (eplayers room) (m - 1))
    /\ (forall n,
           availableLetters (commitFinalGuess room playerNumber) n
           = availableLetters room n)
    /\ commitFinalGuess (commitFinalGuess room playerNumber) playerNumber
       = commitFinalGuess room playerNumber.
Proof.
  intros Hrange.
  assert (Hp : is_Some (lookupZ (eplayers room) (playerNumber - 1)))
    by (apply lookupZ_is_Some; lia).
  destruct Hp as [p Hp]. exists p. split; [exact Hp |].
  assert (Hps : eplayers (commitFinalGuess room playerNumber)
                = <[Z.to_nat (playerNumber - 1) :=
                      mkEndgamePlayer (ename p) (ehand p) (ehintsGiven p)
                                      (guess p) true]> (eplayers room)).
  { unfold commitFinalGuess. simpl.
    rewrite (mapNth_inside _ _ _ _ p Hp). reflexivity. }
  split; [rewrite Hps; apply lookupZ_insert_eq; lia |].
  split; [intros m Hm; rewrite Hps; apply lookupZ_insert_ne; lia |].
  split.
  - intros n. apply availableLetters_ext; try reflexivity.
    rewrite Hps. apply lookupZ_Some in Hp as [_ Hp].
    apply (map_guess_insert _ _ p); [exact Hp | reflexivity].
  - unfold commitFinalGuess at 1. rewrite Hps.
    erewrite mapNth_inside by (apply lookupZ_insert_eq; lia).
    simpl. rewrite list_insert_insert_eq.
    unfold commitFinalGuess. rewrite (mapNth_inside _ _ _ _ p Hp).
    reflexivity.
Qed.

Lemma claimPlayers_no_guess (ps : list EndgamePlayer) :
  Forall (fun p => guess p = []) ps ->
  forall st, claimPlayers ps st = Ok st.
Proof.
  induction 1 as [|p ps Hp _ IH]; intros st; simpl; [reflexivity |].
  rewrite Hp. simpl. apply IH.
Qed.

Lemma filter_everything {A} (P : A -> Prop) `{forall x, Decision (P x)}
  (l : list A) :
  (forall x, P x) -> filter P l = l.
Proof.
  intros HP. induction l as [|x l IH]; [reflexivity |].
  rewrite filter_cons, decide_True by apply HP.
  f_equal. exact IH.
Qed.

(** X23.  Right after [moveToEndgame] nothing is claimed: for every
    player of the room [availableLetters] offers all positions of the
    word, the wildcard and the whole bonus pool; for a number that is not
    a player's it fails on the missing player. *)
Theorem moveToEndgame_offers_everything (room : HintingPhase)
  (playerNumber : Z) :
  (1 <= playerNumber <= Z.of_nat (length (players room)) ->
   availableLetters (moveToEndgame room) playerNumber
   = Ok (map ChoicePlayer (seqZ 0 (wordLength room))
         ++ [ChoiceWildcard]
         ++ map ChoiceBonus (bonuses room)))
  /\ (~ 1 <= playerNumber <= Z.of_nat (length (players room)) ->
      availableLetters (moveToEndgame room) playerNumber = Err TypeError).
Proof.
  unfold availableLetters, moveToEndgame.
  cbn [eplayers ebonuses ewordLength].
  rewrite lookupZ_map. split.
  - intros Hrange.
    assert (Hp : is_Some (lookupZ (players room) (playerNumber - 1)))
      by (apply lookupZ_is_Some; lia).
    destruct Hp as [p ->]. cbn [option_map guess ownLettersUsed bindR].
    rewrite claimPlayers_no_guess.
    + cbn [bindR fst snd].
      rewrite filter_everything by (intros i; apply not_elem_of_empty).
      reflexivity.
    + apply Forall_forall. intros q Hq.
      apply list_elem_of_In, in_map_iff in Hq as (p' & <- & _). reflexivity.
  - intros Hout.
    destruct (lookupZ (players room) (playerNumber - 1)) as [p|] eqn:Hp;
      [| reflexivity].
    exfalso. apply Hout.
    assert (Hs : is_Some (lookupZ (players room) (playerNumber - 1)))
      by (rewrite Hp; eauto).
    apply lookupZ_is_Some in Hs. lia.
Qed.

(** ** Accepting a final guess *)

Lemma claimable_counts (gs gs' : list EndgameLetterChoice) (w : bool)
  (bs : list Letter) :
  (forall c, count_occ EndgameLetterChoice_eq_dec gs c
             = count_occ EndgameLetterChoice_eq_dec gs' c) ->
  claimable gs w bs <-> claimable gs' w bs.
Proof.
  intros Hcount. unfold claimable. rewrite (Hcount ChoiceWildcard).
  split; intros [Hwild Hbonus]; (split; [exact Hwild |]); intros L;
    specialize (Hbonus L); rewrite (Hcount (ChoiceBonus L)) in *;
    exact Hbonus.
Qed.

Lemma allGuesses_app (ps qs : list EndgamePlayer) :
  allGuesses (ps ++ qs) = allGuesses ps ++ allGuesses qs.
Proof. unfold allGuesses. rewrite map_app, concat_app. reflexivity. Qed.

(** X24.  For a player of the room, [setFinalGuess] accepts a guess
    exactly when the positions of the own hand it claims are distinct and,
    together with the guesses of the other players, it claims the wildcard
    at most once and no bonus letter more often than the pool holds it; it
    then returns the room with the guess installed, and the rejected
    sentinel otherwise. *)
Theorem setFinalGuess_accepts_iff (room : EndgamePhase) (playerNumber : Z)
  (g : list EndgameLetterChoice) :
  1 <= playerNumber <= Z.of_nat (length (eplayers room)) ->
  exists p,
    lookupZ (eplayers room) (playerNumber - 1) = Some p
    /\ (NoDup (ownIndexes g)
        /\ claimable
             (g ++ allGuesses (delete (Z.to_nat (playerNumber - 1))
                                      (eplayers room)))
             true (ebonuses room) ->
        setFinalGuess mapNth room playerNumber g
        = Ok (Some
                (mkEndgame (ewordLength room) (edummies room)
                   (ebonuses room) (ehintLog room) (ehintsRemaining room)
                   (<[Z.to_nat (playerNumber - 1) :=
                        mkEndgamePlayer (ename p) (ehand p)
                          (ehintsGiven p) g (committed p)]>
                      (eplayers room)))))
    /\ (~ (NoDup (ownIndexes g)
           /\ claimable
                (g ++ allGuesses (delete (Z.to_nat (playerNumber - 1))
                                         (eplayers room)))
                true (ebonuses room)) ->
        setFinalGuess mapNth room playerNumber g = Ok None).
Proof.
  intros Hrange.
  assert (Hp : is_Some (lookupZ (eplayers room) (playerNumber - 1)))
    by (apply lookupZ_is_Some; lia).
  destruct Hp as [p Hp]. exists p. split; [exact Hp |].
  unfold setFinalGuess. rewrite (mapNth_inside _ _ _ _ p Hp).
  set (p' := mkEndgamePlayer (ename p) (ehand p) (ehintsGiven p) g
                             (committed p)).
  set (i := Z.to_nat (playerNumber - 1)).
  set (newRoom := mkEndgame _ _ _ _ _ _).
  assert (Hp' : lookupZ (eplayers newRoom) (playerNumber - 1) = Some p')
    by (apply lookupZ_insert_eq; lia).
  assert (Hequiv : claimable (allGuesses (eplayers newRoom)) true
                             (ebonuses newRoom)
                   <-> claimable (g ++ allGuesses (delete i (eplayers room)))
                                 true (ebonuses room)).
  { apply claimable_counts. intros c. subst newRoom. cbn [eplayers].
    rewrite insert_take_drop by (apply lookupZ_Some in Hp as [_ Hp];
                                 apply lookup_lt_Some in Hp; exact Hp).
    rewrite delete_take_drop.
    rewrite !allGuesses_app.
    change (allGuesses (p' :: drop (S i) (eplayers room)))
      with (g ++ allGuesses (drop (S i) (eplayers room))).
    rewrite !count_occ_app. lia. }
  destruct (availableLetters_cases newRoom playerNumber p' Hp')
    as [(Hnd & Hc & used & bs' & _ & _ & Hrun) | [Hnot Herr]].
  - rewrite Hrun. split; [reflexivity |].
    intros Hno. destruct Hno. split; [exact Hnd | apply Hequiv, Hc].
  - rewrite Herr. split; [| reflexivity].
    intros [Hnd Hc]. destruct Hnot. split; [exact Hnd | apply Hequiv, Hc].
Qed.

(** ** What an action leaves alone *)

(** X25.  With a word length that is not negative and an acting player
    whose hand holds at least [wordLength] letters, an action changes no
    letter of a word: for every player the first [wordLength] letters of
    the hand, the guesses per position, the name and the hints given are
    as before, and the active index stays or moves forward by one. *)
Theorem performResolveAction_keeps_words (room : ResolvingHintPhase)
  (a : ResolveAction) (g : Rng) :
  0 <= wordLength room ->
  1 <= player a <= Z.of_nat (length (players room)) ->
  (forall p, lookupZ (players room) (player a - 1) = Some p ->
             wordLength room <= Z.of_nat (length (letters (hand p)))) ->
  exists r' g',
    performResolveAction room a g = Ok (r', g')
    /\ length (players r') = length (players room)
    /\ forall (k : nat) q,
         players room !! k = Some q ->
         exists q',
           players r' !! k = Some q'
           /\ name q' = name q
           /\ hintsGiven q' = hintsGiven q
           /\ guesses (hand q') = guesses (hand q)
           /\ take (Z.to_nat (wordLength room)) (letters (hand q'))
              = take (Z.to_nat (wordLength room)) (letters (hand q))
           /\ activeIndex (hand q) <= activeIndex (hand q')
              <= activeIndex (hand q) + 1
           /\ (Z.of_nat k <> player a - 1 -> q' = q).
Proof.
  intros Hwl Hrange Hlen.
  assert (Hp : is_Some (lookupZ (players room) (player a - 1)))
    by (apply lookupZ_is_Some; lia).
  destruct Hp as [p Hp]. specialize (Hlen p Hp).
  destruct (performResolveAction_spec room a g p Hp)
    as (r1 & g1 & _ & _ & Hps1 & _ & _ & _ & _ & Hrun).
  assert (Hres : exists r' g',
             performResolveAction room a g = Ok (r', g')
             /\ players r' = players r1).
  { destruct (bool_decide _).
    - destruct (fullyResolveHint_spec r1 g1) as (ds' & g' & Hfull & _ & _).
      rewrite Hfull in Hrun. eexists _, g'. split; [exact Hrun | reflexivity].
    - exists (resolvingRoom r1), g1. split; [exact Hrun | reflexivity]. }
  destruct Hres as (r' & g' & Hrun' & Hps').
  exists r', g'. split; [exact Hrun' |]. rewrite Hps', Hps1.
  split; [apply length_insert |].
  apply lookupZ_Some in Hp as [Hnonneg Hp].
  intros k q Hk.
  destruct (decide (k = Z.to_nat (player a - 1))) as [-> | Hne].
  - rewrite Hp in Hk. injection Hk as <-.
    eexists. split; [apply list_lookup_insert_eq, (lookup_lt_Some _ _ _ Hp) |].
    simpl. split; [reflexivity |]. split; [reflexivity |].
    destruct (kind a) as [| |gu ac]; simpl.
    + split; [reflexivity |]. split; [reflexivity |]. split; [lia |].
      intros _. destruct p as [n [ls gs ai] hg]. reflexivity.
    + split; [reflexivity |]. split; [| split; [lia | intros Hk; lia]].
      destruct (decide _); [| reflexivity].
      apply take_app_le. lia.
    + split; [reflexivity |]. split; [| split; [lia | intros Hk; lia]].
      unfold slice0. destruct (decide (0 <= wordLength room)); [| lia].
      rewrite take_app_le by (rewrite length_take; lia).
      rewrite take_take, Nat.min_id. reflexivity.
  - exists q. split; [rewrite list_lookup_insert_ne by congruence; exact Hk |].
    repeat (split; [reflexivity |]). split; [lia | reflexivity].
Qed.

(** X26.  While another player is awaited, an action spends no hint and
    touches neither the dummies nor the log; the bonus pool gains the
    guessed letter, at its end, exactly for a guess that equals the actual
    letter. *)
Theorem performResolveAction_earns_bonus (room : ResolvingHintPhase)
  (a : ResolveAction) (g : Rng) (m : Z) :
  1 <= player a <= Z.of_nat (length (players room)) ->
  m <> player a ->
  m ∈ playersWithOutstandingAction (activeHint room) ->
  exists r1 g1,
    performResolveAction room a g = Ok (resolvingRoom r1, g1)
    /\ bonuses r1
       = match kind a with
         | GUESS gu ac =>
             if decide (gu = ac) then bonuses room ++ [gu] else bonuses room
         | _ => bonuses room
         end
    /\ dummies r1 = dummies room
    /\ hintsRemaining r1 = hintsRemaining room
    /\ hintLog r1 = hintLog room.
Proof.
  intros Hrange Hne Hm.
  assert (Hp : is_Some (lookupZ (players room) (player a - 1)))
    by (apply lookupZ_is_Some; lia).
  destruct Hp as [p Hp].
  destruct (performResolveAction_spec room a g p Hp)
    as (r1 & g1 & Happly & Hah1 & _ & _ & Hds1 & Hhr1 & Hlog1 & Hrun).
  rewrite bool_decide_eq_false_2 in Hrun.
  2:{ rewrite size_empty_iff. intros Hempty.
      apply (not_elem_of_empty (C:=gset Z) m), Hempty.
      rewrite Hah1. destruct (activeHint room) as [h acts idxs].
      rewrite outstanding_snoc. apply elem_of_difference.
      split; [exact Hm |]. intros Hin. apply elem_of_singleton in Hin.
      contradiction. }
  exists r1, g1. split; [exact Hrun |].
  split; [| split; [exact Hds1 | split; [exact Hhr1 | exact Hlog1]]].
  destruct (applyResolution_spec
              (withActiveHint room
                 (mkResolving (hint (activeHint room))
                              (playerActions (activeHint room) ++ [a])
                              (activeIndexes (activeHint room)))) a g p Hp)
    as (r2 & g2 & Happly' & _ & Hbs & _).
  rewrite Happly in Happly'. injection Happly' as <- _. exact Hbs.
Qed.

(** ** Names at the start *)

(** X27.  [startGameRoom] keeps the players in their order under their
    names, so the number of a player in the started room is the position,
    counted from 1, of the first player of that name in the room that was
    started. *)
Theorem startGameRoom_keeps_names (room : StartingPhase) (g : Rng) :
  isRoomReady room = true ->
  exists r' g',
    startGameRoom shuffle room g = Ok (r', g')
    /\ map name (players r') = map sname (splayers room)
    /\ forall (k : nat) p,
         splayers room !! k = Some p ->
         (forall (k' : nat) p', (k' < k)%nat ->
                                splayers room !! k' = Some p' ->
                                sname p' <> sname p) ->
         getPlayerNumber r' (sname p) = Some (Z.of_nat k + 1).
Proof.
  intros Hready.
  destruct (startGameRoom_spec shuffle shuffle_perm room g Hready)
    as (ps & countdowns & ds & g' & Hrun & Hlen & Hat & _).
  eexists _, g'. split; [exact Hrun |]. simpl.
  assert (Hnames : forall (k : nat) p, splayers room !! k = Some p ->
             exists q, ps !! k = Some q /\ name q = sname p).
  { intros k p Hk. destruct (Hat k p Hk) as (q & Hq & _ & _ & _ & _ & Hn & _).
    eauto. }
  split.
  - change map with (@fmap list _). apply list_eq. intros k.
    rewrite !list_lookup_fmap.
    destruct (splayers room !! k) as [p|] eqn:Hk.
    + destruct (Hnames k p Hk) as (q & -> & Hn). simpl. congruence.
    + apply lookup_ge_None in Hk. rewrite <- Hlen in Hk.
      apply lookup_ge_None in Hk. rewrite Hk. reflexivity.
  - intros k p Hk Hfirst. unfold getPlayerNumber. simpl.
    apply getPlayerNumberFrom_Some.
    destruct (Hnames k p Hk) as (q & Hq & Hn).
    exists k, q. split; [lia |]. split; [exact Hq |]. split; [exact Hn |].
    intros k' q' Hlt Hq'.
    assert (Hk' : is_Some (splayers room !! k')).
    { apply lookup_lt_is_Some. rewrite <- Hlen.
      apply (lookup_lt_Some _ _ _ Hq'). }
    destruct Hk' as [p' Hk'].
    destruct (Hnames k' p' Hk') as (q'' & Hq'' & Hn').
    rewrite Hq' in Hq''. injection Hq'' as <-.
    rewrite Hn'. apply (Hfirst k' p' Hlt Hk').
Qed.

End EngineMore.

(** ** The rest of the engine on the samples *)

Lemma startGameRoom_succeeds_iff_ready_witness :
  isRoomReady onePlayer = false
  /\ startGameRoom shuffleRev onePlayer rng0 = Err WrongNumberOfPlayers
  /\ ((exists r g', startGameRoom shuffleRev twoPlayers rng0 = Ok (r, g'))
      <-> isRoomReady twoPlayers = true).
Proof.
  split; [reflexivity |]. split.
  - exact (proj2 (startGameRoom_succeeds_iff_ready shuffleRev
                    shuffleRev_permutes onePlayer rng0) eq_refl).
  - exact (proj1 (startGameRoom_succeeds_iff_ready shuffleRev
                    shuffleRev_permutes twoPlayers rng0)).
Defined.


Lemma hintFor12_legal :
  Forall (matchesSource proposingSample) (lettersAndSources hintFor12).
Proof.
  repeat constructor.
  - exists alice. split; reflexivity.
  - exists bob. split; reflexivity.
  - exists (mkDummy "E"%char 7). split; reflexivity.
Qed.

Lemma giveHint_succeeds_iff_legal_witness :
  exists r g', giveHint mapNthInRange proposingSample hintFor12 rng0
               = Ok (r, g').
Proof.
  apply (proj1 (giveHint_succeeds_iff_legal mapNthInRange proposingSample
                  hintFor12 rng0 ltac:(simpl; lia))).
  exact hintFor12_legal.
Defined.

Lemma giveHint_opens_resolution_witness :
  exists r,
    giveHint mapNthInRange proposingSample hintFor12 rng0
    = Ok (resolvingRoom r, rng0)
    /\ activeHint r = mkResolving hintFor12 [] [0; 0; 0]
    /\ hintsRemaining r = 11.
Proof.
  destruct (giveHint_opens_resolution mapNthInRange mapNthInRange_in_range
              proposingSample hintFor12 rng0 "A"%char 1)
    as (p & r & _ & Hrun & Hah & _ & _ & _ & _ & Hhr & _).
  - exact hintFor12_legal.
  - left.
  - simpl. lia.
  - exists r. split; [exact Hrun |]. split; [exact Hah | exact Hhr].
Defined.

Lemma performResolveAction_awaits_the_others_witness :
  exists r' g',
    performResolveAction resolvingSample (mkAction 1 FLIP) rng0 = Ok (r', g')
    /\ match activeHint r' with
       | RESOLVING rh =>
           playersWithOutstandingAction rh
           = playersWithOutstandingAction (activeHint resolvingSample)
             ∖ {[1]}
           /\ exists m, m <> 1
                        /\ m ∈ playersWithOutstandingAction
                                 (activeHint resolvingSample)
       | PROPOSING ph =>
           ph = mkProposing ∅
           /\ forall m, m ∈ playersWithOutstandingAction
                              (activeHint resolvingSample) ->
                        m = 1
       end.
Proof.
  apply (performResolveAction_awaits_the_others resolvingSample
           (mkAction 1 FLIP) rng0).
  simpl. lia.
Defined.

Lemma player_numbers_stable_witness :
  exists r' g',
    performResolveAction resolvingSample (mkAction 1 FLIP) rng0 = Ok (r', g')
    /\ forall playerName,
         getPlayerNumber r' playerName
         = getPlayerNumber resolvingSample playerName.
Proof.
  apply (proj1 (player_numbers_stable mapNthInRange mapNthInRange_in_range)
               resolvingSample (mkAction 1 FLIP) rng0).
  simpl. lia.
Defined.

Lemma bob_is_awaited :
  2 ∈ playersWithOutstandingAction (activeHint resolvingSample).
Proof.
  apply elem_of_playersWithOutstandingAction. split.
  - exists "C"%char. right. left.
  - intros a Ha. inversion Ha.
Qed.

Lemma performResolveAction_marks_done_witness :
  exists r1 g1,
    performResolveAction resolvingSample (mkAction 1 FLIP) rng0
    = Ok (resolvingRoom r1, g1)
    /\ whichResolveActionRequired r1 "alice"
       = Required ResolveActionChoice.DONE
    /\ whichResolveActionRequired r1 "bob"
       = Required ResolveActionChoice.FLIP
    /\ whichResolveActionRequired r1 "carol"
       = Required ResolveActionChoice.UNINVOLVED.
Proof.
  destruct (performResolveAction_marks_done resolvingSample (mkAction 1 FLIP)
              rng0 2)
    as (r1 & g1 & Hrun & Hdone & Hothers & _).
  - simpl. lia.
  - discriminate.
  - exact bob_is_awaited.
  - exists r1, g1. split; [exact Hrun |]. split; [| split].
    + apply Hdone; [reflexivity |]. exists "A"%char. left.
    + rewrite (Hothers "bob"%string 2); [reflexivity | reflexivity | discriminate].
    + rewrite (Hothers "carol"%string 3); [reflexivity | reflexivity | discriminate].
Defined.

Lemma resolvingSample_wellFormed :
  Forall (fun p => handWellFormed (wordLength resolvingSample) (hand p))
         (players resolvingSample).
Proof.
  simpl. repeat (apply List.Forall_cons; [left; simpl; lia |]).
  apply List.Forall_nil.
Qed.

Lemma performResolveAction_keeps_hands_witness :
  exists r' g',
    performResolveAction resolvingSample (mkAction 1 FLIP) rng0 = Ok (r', g')
    /\ wordLength r' = 3
    /\ Forall (fun p => handWellFormed (wordLength r') (hand p)) (players r').
Proof.
  apply (performResolveAction_keeps_hands resolvingSample (mkAction 1 FLIP)
           rng0).
  - simpl. lia.
  - exact resolvingSample_wellFormed.
  - simpl. lia.
  - intros p gu ac _ Hkind. discriminate.
Defined.

Lemma wellFormed_hands_from_the_start_witness :
  exists r' g',
    startGameRoom shuffleRev twoPlayers rng0 = Ok (r', g')
    /\ Forall (fun p => handWellFormed (wordLength r') (hand p)) (players r').
Proof.
  apply (proj1 (wellFormed_hands_from_the_start shuffleRev
                  shuffleRev_permutes) twoPlayers rng0).
  - reflexivity.
  - simpl. lia.
  - intros p w Hp Hw. unfold twoPlayers, startingRoom in Hp. simpl in Hp.
    repeat (apply elem_of_cons in Hp as [-> | Hp];
            [injection Hw as <-; reflexivity |]).
    inversion Hp.
Defined.

Lemma setHandGuess_writes_one_guess_witness :
  exists p',
    lookupZ (players (setHandGuess mapNthInRange proposingSample 1 0
                                   (Some "A"%char))) (1 - 1) = Some p'
    /\ lookupZ (guesses (hand p')) 0 = Some (Some "A"%char)
    /\ letters (hand p') = ["A"; "B"; "C"]%char
    /\ setHandGuess mapNthInRange
         (setHandGuess mapNthInRange proposingSample 1 0 (Some "K"%char))
         1 0 (Some "A"%char)
       = setHandGuess mapNthInRange proposingSample 1 0 (Some "A"%char).
Proof.
  destruct (setHandGuess_writes_one_guess mapNthInRange
              mapNthInRange_in_range proposingSample 1 0
              (Some "K"%char) (Some "A"%char))
    as (p & p' & Hp & Hp' & _ & _ & Hletters & _ & _ & Hread & _ & _ & Hover).
  - simpl. lia.
  - intros p Hp. injection Hp as <-. simpl. lia.
  - injection Hp as <-.
    exists p'. split; [exact Hp' |]. split; [exact Hread |].
    split; [exact Hletters | exact Hover].
Defined.

Lemma availableLetters_valid_iff_witness :
  exists p,
    lookupZ (eplayers endgameSample) (1 - 1) = Some p
    /\ ((exists res, availableLetters endgameSample 1 = Ok res)
        <-> NoDup (ownIndexes (guess p))
            /\ claimable (allGuesses (eplayers endgameSample)) true
                         (ebonuses endgameSample))
    /\ (~ (NoDup (ownIndexes (guess p))
           /\ claimable (allGuesses (eplayers endgameSample)) true
                        (ebonuses endgameSample)) ->
        availableLetters endgameSample 1 = Err InvalidLetters).
Proof.
  apply (availableLetters_valid_iff endgameSample 1).
  simpl. lia.
Defined.

Example availableLetters_for_bob :
  availableLetters endgameSample 2
  = Ok [ChoicePlayer 0; ChoicePlayer 1; ChoicePlayer 2; ChoiceBonus "G"%char].
Proof. vm_compute. reflexivity. Qed.

Lemma availableLetters_content_witness :
  exists p,
    lookupZ (eplayers endgameSample) (2 - 1) = Some p
    /\ (forall i,
           ChoicePlayer i
           ∈ [ChoicePlayer 0; ChoicePlayer 1; ChoicePlayer 2;
              ChoiceBonus "G"%char]
           <-> 0 <= i < ewordLength endgameSample
               /\ ChoicePlayer i ∉ guess p)
    /\ (ChoiceWildcard
        ∈ [ChoicePlayer 0; ChoicePlayer 1; ChoicePlayer 2;
           ChoiceBonus "G"%char]
        <-> forall q, q ∈ eplayers endgameSample ->
                      ChoiceWildcard ∉ guess q)
    /\ (forall L,
           (count_occ EndgameLetterChoice_eq_dec
              [ChoicePlayer 0; ChoicePlayer 1; ChoicePlayer 2;
               ChoiceBonus "G"%char] (ChoiceBonus L)
            + count_occ EndgameLetterChoice_eq_dec
                        (allGuesses (eplayers endgameSample)) (ChoiceBonus L)
            = count_occ Letter_eq_dec (ebonuses endgameSample) L)%nat).
Proof.
  apply (availableLetters_content endgameSample 2).
  exact availableLetters_for_bob.
Defined.

Lemma commitFinalGuess_keeps_guesses_witness :
  exists p,
    lookupZ (eplayers endgameSample) (2 - 1) = Some p
    /\ lookupZ (eplayers (commitFinalGuess mapNthInRange endgameSample 2))
               (2 - 1)
       = Some (mkEndgamePlayer (ename p) (ehand p) (ehintsGiven p)
                               (guess p) true)
    /\ (forall m, m <> 2 ->
                  lookupZ (eplayers (commitFinalGuess mapNthInRange
                                       endgameSample 2)) (m - 1)
                  = lookupZ (eplayers endgameSample) (m - 1))
    /\ (forall n,
           availableLetters (commitFinalGuess mapNthInRange endgameSample 2) n
           = availableLetters endgameSample n)
    /\ commitFinalGuess mapNthInRange
         (commitFinalGuess mapNthInRange endgameSample 2) 2
       = commitFinalGuess mapNthInRange endgameSample 2.
Proof.
  apply (commitFinalGuess_keeps_guesses mapNthInRange mapNthInRange_in_range
           endgameSample 2).
  simpl. lia.
Defined.

(** Bob may claim a position of his own and the bonus letter, next to the
    wildcard that alice holds. *)
Lemma setFinalGuess_accepts_iff_witness :
  setFinalGuess mapNthInRange endgameSample 2
                [ChoicePlayer 1; ChoiceBonus "G"%char]
  = Ok (Some
          (mkEndgame 3 [] ["G"%char] [] 0
             [endgamePlayer alice [ChoicePlayer 0; ChoiceWildcard];
              endgamePlayer bob [ChoicePlayer 1; ChoiceBonus "G"%char]])).
Proof.
  destruct (setFinalGuess_accepts_iff mapNthInRange mapNthInRange_in_range
              endgameSample 2 [ChoicePlayer 1; ChoiceBonus "G"%char])
    as (p & Hp & Haccept & _).
  - simpl. lia.
  - injection Hp as <-. apply Haccept. split.
    + repeat constructor. intros Hin. inversion Hin.
    + split; [simpl; lia |]. intros L.
      destruct (Letter_eq_dec "G"%char L) as [Heq | Hne].
      * subst L. simpl. lia.
      * replace (count_occ EndgameLetterChoice_eq_dec _ (ChoiceBonus L))
          with 0%nat; [lia |].
        symmetry. apply count_occ_not_In. simpl.
        intros [H | [H | [H | [H | []]]]]; try discriminate.
        injection H as Heq. contradiction.
Defined.

Lemma performResolveAction_keeps_words_witness :
  exists r' g',
    performResolveAction resolvingSample (mkAction 1 FLIP) rng0 = Ok (r', g')
    /\ exists q',
        players r' !! 0%nat = Some q'
        /\ take 3 (letters (hand q')) = ["A"; "B"; "C"]%char
        /\ 0 <= activeIndex (hand q') <= 1.
Proof.
  destruct (performResolveAction_keeps_words resolvingSample
              (mkAction 1 FLIP) rng0)
    as (r' & g' & Hrun & _ & Hat).
  - simpl. lia.
  - simpl. lia.
  - intros p Hp. injection Hp as <-. simpl. lia.
  - exists r', g'. split; [exact Hrun |].
    destruct (Hat 0%nat alice eq_refl)
      as (q' & Hq' & _ & _ & _ & Htake & Hai & _).
    exists q'. split; [exact Hq' |]. split; [exact Htake | exact Hai].
Defined.

(** Alice guesses her extra letter right: the letter joins the pool. *)
Lemma performResolveAction_earns_bonus_witness :
  exists r1 g1,
    performResolveAction resolvingSample
      (mkAction 1 (GUESS "K"%char "K"%char)) rng0
    = Ok (resolvingRoom r1, g1)
    /\ bonuses r1 = ["G"; "K"]%char
    /\ hintsRemaining r1 = 11.
Proof.
  destruct (performResolveAction_earns_bonus resolvingSample
              (mkAction 1 (GUESS "K"%char "K"%char)) rng0 2)
    as (r1 & g1 & Hrun & Hbs & _ & Hhr & _).
  - simpl. lia.
  - discriminate.
  - exact bob_is_awaited.
  - exists r1, g1. split; [exact Hrun |]. split; [exact Hbs | exact Hhr].
Defined.

Lemma startGameRoom_keeps_names_witness :
  exists r' g',
    startGameRoom shuffleRev twoPlayers rng0 = Ok (r', g')
    /\ map name (players r') = ["alice"; "bob"]%string
    /\ getPlayerNumber r' "bob" = Some 2.
Proof.
  destruct (startGameRoom_keeps_names shuffleRev shuffleRev_permutes
              twoPlayers rng0 eq_refl)
    as (r' & g' & Hrun & Hnames & Hnum).
  exists r', g'. split; [exact Hrun |]. split; [exact Hnames |].
  apply (Hnum 1%nat (mkStartingPlayer "bob" (Some "DOG"%string)) eq_refl).
  intros [|k'] p' Hlt Hk'; [| lia].
  injection Hk' as <-. discriminate.
Defined.
